(** * alice-agi: tool orchestration core

    A shallow embedding of the three components that carry the protocol and
    consistency logic of the agent:

    - [McpClient]   : src/services/mcp/mcp.client.ts (connection manager),
    - [ToolRegistry]: the tool registration service (tool registry),
    - [ActionService]: the action service (action result normaliser),

    and of the smaller pieces around them: the final-answer executor of
    src/config/tools.config.ts ([finalAnswerService]), the cron routes
    ([Cron]) and the naming middleware ([Naming]) of src/routes/cron.ts.

    JavaScript values are embedded as an inductive type, asynchronous
    functions as atomic run-to-completion segments between their [await]s,
    exceptions as the left summand of a sum. *)

From Stdlib Require Import ZArith Lia Bool Ascii String List DecimalString.
From stdpp Require Import base option list gmap strings.

Set Warnings "-register-all,-clear-no-such-hyp".
Local Open Scope string_scope.
Local Open Scope Z_scope.
Local Open Scope list_scope.
Local Open Scope stdpp_scope.

(** ** JavaScript values *)

Module JS.

(** The values that cross the boundaries of the modelled code: what an MCP
    server answers, what a tool returns, what JSON can carry.  Numbers are the
    integers (printed in plain decimal, as JS does below 10^21); strings are
    sequences of code units; the properties of an object are listed in the
    order they were created (the order they are gone through is
    [own_property_order]) and are assumed pairwise distinct, as in every JS
    object. *)
Inductive value : Type :=
| VUndefined
| VNull
| VBool (b : bool)
| VNum (n : Z)
| VStr (s : string)
| VArr (elems : list value)
| VObj (props : list (string * value)).

(** Exceptions.  [Thrown m] is [throw new Error(m)] of the modelled code,
    [TypeError m] is raised by the runtime itself, [External m] is a
    rejection coming from a collaborator (SDK, database, document service). *)
Inductive Error : Type :=
| Thrown (message : string)
| TypeError (message : string)
| External (message : string).

Definition message (e : Error) : string :=
  match e with Thrown m | TypeError m | External m => m end.

(** Results of fallible code: [inl] is a throw (a rejected promise), [inr] a
    normal completion. *)
Definition result (A : Type) : Type := Error + A.

Definition ret {A} (a : A) : result A := inr a.
Definition throw {A} (e : Error) : result A := inl e.
Definition bind {A B} (m : result A) (k : A -> result B) : result B :=
  match m with inl e => inl e | inr a => k a end.

Declare Scope js_scope.
Delimit Scope js_scope with js.
Notation "'try!' x <- m ; k" := (bind m (fun x => k))
  (at level 10, x name, m at level 100, k at level 200,
   format "'[v' 'try!'  x  <-  m ; '/' k ']'") : js_scope.
Notation "'try!' ' p <- m ; k" := (bind m (fun x => let 'p := x in k))
  (at level 10, p strict pattern, m at level 100, k at level 200,
   format "'[v' 'try!'  ' p  <-  m ; '/' k ']'") : js_scope.

(** [typeof v] *)
Definition typeof (v : value) : string :=
  match v with
  | VUndefined => "undefined"
  | VNull | VArr _ | VObj _ => "object"
  | VBool _ => "boolean"
  | VNum _ => "number"
  | VStr _ => "string"
  end.

(** ToBoolean: [if (v)], [v || w], [v && w], [!v]. *)
Definition truthy (v : value) : bool :=
  match v with
  | VUndefined | VNull => false
  | VBool b => b
  | VNum n => negb (n =? 0)
  | VStr s => negb (String.eqb s "")
  | VArr _ | VObj _ => true
  end.

(** [a || b] *)
Definition or_else (a b : value) : value := if truthy a then a else b.

Definition isArray (v : value) : bool :=
  match v with VArr _ => true | _ => false end.

Definition is_undefined (v : value) : bool :=
  match v with VUndefined => true | _ => false end.

Definition nullish (v : value) : bool :=
  match v with VUndefined | VNull => true | _ => false end.

Fixpoint assoc (k : string) (ps : list (string * value)) : option value :=
  match ps with
  | [] => None
  | (k', v) :: ps' => if String.eqb k k' then Some v else assoc k ps'
  end.

(** [v.k] for the field names the modelled code reads ([content], [text],
    [type], [name], [tools], ...): none of them is a member of a built-in
    prototype, so only an object can have one.  Reading a property of
    [null] or [undefined] is a TypeError. *)
Definition get (v : value) (k : string) : result value :=
  match v with
  | VUndefined =>
      throw (TypeError ("Cannot read properties of undefined (reading '" +:+ k +:+ "')"))
  | VNull =>
      throw (TypeError ("Cannot read properties of null (reading '" +:+ k +:+ "')"))
  | VObj ps => ret (default VUndefined (assoc k ps))
  | _ => ret VUndefined
  end.

(** [v?.k] *)
Definition get_opt (v : value) (k : string) : value :=
  match v with
  | VObj ps => default VUndefined (assoc k ps)
  | _ => VUndefined
  end.

Definition Z_to_string (n : Z) : string := NilZero.string_of_int (Z.to_int n).
Definition nat_to_string (n : nat) : string := Z_to_string (Z.of_nat n).

(** ToString, as used by template literals and string concatenation. *)
Fixpoint ToString (v : value) : string :=
  match v with
  | VUndefined => "undefined"
  | VNull => "null"
  | VBool true => "true"
  | VBool false => "false"
  | VNum n => Z_to_string n
  | VStr s => s
  | VArr l =>
      String.concat ","
        (map (fun e => match e with
                       | VUndefined | VNull => ""
                       | _ => ToString e
                       end) l)
  | VObj _ => "[object Object]"
  end.

(** [k in v]: a TypeError on anything that is not an object. *)
Definition has_in (k : string) (v : value) : result bool :=
  match v with
  | VObj ps => ret (bool_decide (is_Some (assoc k ps)))
  | VArr _ => ret false
  | _ => throw (TypeError ("Cannot use 'in' operator to search for '" +:+ k +:+ "' in "
                           +:+ ToString v))
  end.

(** *** JSON.stringify *)

Definition dquote : ascii := ascii_of_nat 34.
Definition backslash : ascii := ascii_of_nat 92.

Definition hex_digit (n : nat) : ascii :=
  ascii_of_nat (if Nat.ltb n 10 then 48 + n else 87 + n).

Definition str1 (c : ascii) : string := String c EmptyString.
Definition str2 (c d : ascii) : string := String c (String d EmptyString).

(** QuoteJSONString on one code unit. *)
Definition escape_char (c : ascii) : string :=
  let n := nat_of_ascii c in
  if Nat.eqb n 34 then str2 backslash dquote
  else if Nat.eqb n 92 then str2 backslash backslash
  else if Nat.eqb n 8 then str2 backslash "b"
  else if Nat.eqb n 12 then str2 backslash "f"
  else if Nat.eqb n 10 then str2 backslash "n"
  else if Nat.eqb n 13 then str2 backslash "r"
  else if Nat.eqb n 9 then str2 backslash "t"
  else if Nat.ltb n 32 then
    str2 backslash "u" +:+ "00" +:+ str2 (hex_digit (Nat.div n 16)) (hex_digit (Nat.modulo n 16))
  else str1 c.

Fixpoint escape (s : string) : string :=
  match s with
  | EmptyString => EmptyString
  | String c s' => escape_char c +:+ escape s'
  end.

Definition quote (s : string) : string := str1 dquote +:+ escape s +:+ str1 dquote.

(** *** The order of the own properties

    [Object.entries], [Object.keys], [JSON.stringify] and the spread go
    through the own properties of an object in the order of
    OrdinaryOwnPropertyKeys: the array indices first, in ascending order,
    then the other keys in the order they were created. *)

Definition digit (c : ascii) : option N :=
  let n := N_of_ascii c in
  if (48 <=? n)%N && (n <=? 57)%N then Some (n - 48)%N else None.

Fixpoint decimal (s : string) (acc : N) : option N :=
  match s with
  | EmptyString => Some acc
  | String c s' =>
      match digit c with
      | Some d => decimal s' (10 * acc + d)%N
      | None => None
      end
  end.

(** An array index: the canonical decimal of an integer below 2^32 - 1. *)
Definition array_index (k : string) : option N :=
  match k with
  | EmptyString => None
  | String c rest =>
      if Ascii.eqb c "0" && negb (String.eqb rest "") then None
      else match decimal k 0 with
           | Some n => if (n <? 4294967295)%N then Some n else None
           | None => None
           end
  end.

Fixpoint insert_by_index {A} (n : N) (x : A) (l : list (N * A)) : list (N * A) :=
  match l with
  | [] => [(n, x)]
  | (m, y) :: l' =>
      if (n <=? m)%N then (n, x) :: l else (m, y) :: insert_by_index n x l'
  end.

Fixpoint indexed {A} (ps : list (string * A)) : list (N * (string * A)) :=
  match ps with
  | [] => []
  | kv :: ps' =>
      match array_index kv.1 with
      | Some n => insert_by_index n kv (indexed ps')
      | None => indexed ps'
      end
  end.

Definition named {A} (ps : list (string * A)) : list (string * A) :=
  List.filter (fun kv => match array_index kv.1 with Some _ => false | None => true end) ps.

(** The properties [ps], given in the order they were created, in the order
    they are gone through. *)
Definition own_property_order {A} (ps : list (string * A)) : list (string * A) :=
  map snd (indexed ps) ++ named ps.

(** SerializeJSONProperty at a position that must print something: inside
    an array [undefined] prints as [null]; a property whose value is
    [undefined] is left out of its object. *)
Fixpoint serialize (v : value) : string :=
  match v with
  | VUndefined | VNull => "null"
  | VBool true => "true"
  | VBool false => "false"
  | VNum n => Z_to_string n
  | VStr s => quote s
  | VArr l => "[" +:+ String.concat "," (map serialize l) +:+ "]"
  | VObj ps =>
      "{" +:+
      String.concat ","
        (flat_map (fun kv => match kv.2 with Some text => [text] | None => [] end)
           (own_property_order
              (map (fun kv => match kv with
                              | (k, w) =>
                                  (k, if is_undefined w then None
                                      else Some (quote k +:+ ":" +:+ serialize w))
                              end) ps)))
      +:+ "}"
  end.

(** [JSON.stringify(v)]: a string, or [undefined] ([None]) for [undefined]. *)
Definition JSON_stringify (v : value) : option string :=
  match v with
  | VUndefined => None
  | _ => Some (serialize v)
  end.

(** [Object.entries(v)] for a [v] that is neither [null] nor [undefined]:
    the properties of an object in the order of its own keys, the indexed
    elements of an array, the indexed code units of a string, nothing for a
    number or a boolean.  [Object.keys(v).length] is the length of this
    list. *)
Definition entries (v : value) : list (string * value) :=
  match v with
  | VObj ps => own_property_order ps
  | VArr l => imap (fun i e => (nat_to_string i, e)) l
  | VStr s => imap (fun i c => (nat_to_string i, VStr (str1 c))) (list_ascii_of_string s)
  | _ => []
  end.

(** [s.includes(x)] on strings. *)
Fixpoint contains (x s : string) : bool :=
  if String.prefix x s then true
  else match s with
       | EmptyString => false
       | String _ s' => contains x s'
       end.

(** [v?.includes(x)] for a string [x]: membership in an array, substring of
    a string, [undefined] on [null] and [undefined], a TypeError on values
    that have no [includes] method. *)
Definition includes (v : value) (x : string) : result value :=
  match v with
  | VUndefined | VNull => ret VUndefined
  | VArr l =>
      ret (VBool (existsb (fun e => match e with
                                    | VStr s => String.eqb s x
                                    | _ => false
                                    end) l))
  | VStr s => ret (VBool (contains x s))
  | _ => throw (TypeError "includes is not a function")
  end.

Definition nl : string := str1 (ascii_of_nat 10).

(** A value of type [string | undefined] seen as a JS value again. *)
Definition of_text (t : option string) : value :=
  match t with Some s => VStr s | None => VUndefined end.

End JS.

Import JS.

(** The process-wide trace of what the code asks of its collaborators and of
    what it writes to the console at warning and error level. *)
Inductive Event : Type :=
| Connect (serverId : string)
| ListTools (serverId : string)
| CallTool (serverId : string) (request : value)
| GetAvailableTools
| UpdateSession (toolNames : list string)
| ConsoleWarn (text : string)
| ConsoleError (text : string).

(** ** Connection manager: src/services/mcp/mcp.client.ts *)

Module McpClient.

(** [McpServerConfig].  The type says ['http' | 'stdio'] for the transport;
    at run time it is whatever string the configuration holds. *)
Record McpServerConfig : Type := {
  sc_id : string;
  sc_name : string;
  sc_address : option string;
  sc_transport_type : string;
  sc_command : option string;
  sc_args : option (list string);
  sc_env : option (list (string * string));
  sc_enabled : bool;
  sc_description : option string
}.

(** [StdioClientTransportOptions] *)
Record StdioClientTransportOptions : Type := {
  command : string;
  args : list string;
  env : option (list (string * string))
}.

(** An SDK client, the session of the spec.  [handle] stands for the identity
    of the JS object: it is the number of the connect attempt that built it. *)
Record Client : Type := {
  client_name : string;
  client_version : string;
  transport : StdioClientTransportOptions;
  handle : nat
}.

(** The SDK behind [client.connect], [client.listTools], [client.callTool]:
    [sdk_connect c = None] when the connection is established. *)
Record Sdk : Type := {
  sdk_connect : Client -> option Error;
  sdk_listTools : Client -> result value;
  sdk_callTool : Client -> value -> result value
}.

Inductive PromiseState : Type :=
| Pending
| Fulfilled (c : Client)
| Rejected (e : Error).

(** One invocation of [establishConnection]: the promise it returned, the
    client it is connecting (none when it threw before building one), and
    whether the [getClient] call that started it is still suspended on
    [await connectPromise]. *)
Record Attempt : Type := {
  att_config : McpServerConfig;
  att_client : option Client;
  att_promise : PromiseState;
  att_resumed : bool
}.

(** [McpClientService]: its two maps, the promises of its connect attempts
    (a promise is named by its position), and the trace. *)
Record Service : Type := {
  clients : gmap string Client;
  connectingPromises : gmap string nat;
  attempts : list Attempt;
  effects : list Event
}.

Definition mcpClientService : Service :=
  {| clients := ∅; connectingPromises := ∅; attempts := []; effects := [] |}.

Definition emit (e : Event) (s : Service) : Service :=
  {| clients := clients s; connectingPromises := connectingPromises s;
     attempts := attempts s; effects := effects s ++ [e] |}.

Definition set_clients (f : gmap string Client -> gmap string Client) (s : Service) : Service :=
  {| clients := f (clients s); connectingPromises := connectingPromises s;
     attempts := attempts s; effects := effects s |}.

Definition set_connectingPromises (f : gmap string nat -> gmap string nat) (s : Service)
  : Service :=
  {| clients := clients s; connectingPromises := f (connectingPromises s);
     attempts := attempts s; effects := effects s |}.

Definition set_attempts (f : list Attempt -> list Attempt) (s : Service) : Service :=
  {| clients := clients s; connectingPromises := connectingPromises s;
     attempts := f (attempts s); effects := effects s |}.

(** [!x] for an optional string: absent or empty. *)
Definition missing (x : option string) : bool :=
  match x with
  | None => true
  | Some v => String.eqb v ""
  end.

Definition msg_stdio_no_command : string :=
  "Stdio transport type selected, but no command provided in serverConfig.".
Definition msg_http_no_address : string :=
  "HTTP transport type selected, but no address provided in serverConfig.".
Definition msg_http_not_implemented : string :=
  "HTTP transport for MCP client not yet implemented in this service.".
Definition msg_unsupported (cfg : McpServerConfig) : string :=
  "Unsupported MCP transport type: " +:+ sc_transport_type cfg +:+
  " for server " +:+ sc_id cfg.

(** The error kinds of the design (its section 7), as far as a connection
    can raise them.  The code throws plain [Error]s; the kind is read off
    the message. *)
Inductive ErrorKind : Type :=
| Configuration
| NotImplemented
| Connection.

Definition error_kind (cfg : McpServerConfig) (e : Error) : ErrorKind :=
  match e with
  | Thrown m =>
      if String.eqb m msg_stdio_no_command then Configuration
      else if String.eqb m msg_http_no_address then Configuration
      else if String.eqb m msg_http_not_implemented then NotImplemented
      else if String.eqb m (msg_unsupported cfg) then NotImplemented
      else Connection
  | _ => Connection
  end.

(** The [console.warn] of line 63, on the way to the throw of line 64. *)
Definition http_is_conceptual (cfg : McpServerConfig) : Event :=
  ConsoleWarn ("[McpClientService] HTTP transport connection for " +:+ sc_id cfg
               +:+ " is conceptual and needs SDK implementation.").

(** [establishConnection], lines 39-68: what the choice of the transport
    writes to the console at warning level, and the transport chosen or the
    error thrown.  Nothing here touches a process or a socket:
    [new StdioClientTransport] only records its options. *)
Definition choose_transport (cfg : McpServerConfig)
  : list Event * result StdioClientTransportOptions :=
  if String.eqb (sc_transport_type cfg) "stdio" then
    if missing (sc_command cfg) then ([], throw (Thrown msg_stdio_no_command))
    else ([], ret {| command := default "" (sc_command cfg);
                     args := default [] (sc_args cfg);
                     env := sc_env cfg |})
  else if String.eqb (sc_transport_type cfg) "http" then
    if missing (sc_address cfg) then ([], throw (Thrown msg_http_no_address))
    else ([http_is_conceptual cfg], throw (Thrown msg_http_not_implemented))
  else ([], throw (Thrown (msg_unsupported cfg))).

(** The two halves of [choose_transport]: the warnings written, and the
    transport or the error. *)
Definition transport_warnings (cfg : McpServerConfig) : list Event :=
  (choose_transport cfg).1.

Definition select_transport (cfg : McpServerConfig) : result StdioClientTransportOptions :=
  (choose_transport cfg).2.

Definition failed_to_connect (cfg : McpServerConfig) : Event :=
  ConsoleError ("[McpClientService] Failed to connect/initialize MCP client for "
                +:+ sc_id cfg +:+ ":").

Definition emit_all (es : list Event) (s : Service) : Service :=
  {| clients := clients s; connectingPromises := connectingPromises s;
     attempts := attempts s; effects := effects s ++ es |}.

(** [establishConnection] up to its first suspension.  Either it throws while
    choosing the transport, runs its [catch] (log, delete the pending entry,
    rethrow) and returns a rejected promise, or it builds the client, calls
    [client.connect(transport)] and returns a pending promise. *)
Definition establishConnection (cfg : McpServerConfig) (s : Service) : nat * Service :=
  let p := length (attempts s) in
  match select_transport cfg with
  | inl e =>
      let s := emit_all (transport_warnings cfg ++ [failed_to_connect cfg]) s in
      let s := set_connectingPromises (delete (sc_id cfg)) s in
      (p, set_attempts (fun h => h ++ [{| att_config := cfg; att_client := None;
                                          att_promise := Rejected e;
                                          att_resumed := false |}]) s)
  | inr t =>
      let client := {| client_name := sc_name cfg +:+ "-client";
                       client_version := "1.0.0";
                       transport := t; handle := p |} in
      let s := emit (Connect (sc_id cfg)) s in
      (p, set_attempts (fun h => h ++ [{| att_config := cfg; att_client := Some client;
                                          att_promise := Pending;
                                          att_resumed := false |}]) s)
  end.

(** What a call of [getClient] has in hand when it first gives up control. *)
Inductive Entered : Type :=
| Cached (c : Client)       (* line 97: the stored client *)
| Joined (p : nat)          (* line 101: the pending promise, returned as is *)
| Started (p : nat).        (* line 108: suspended on its own new attempt *)

(** [getClient], lines 96-108: everything a call does before it suspends. *)
Definition getClient_enter (cfg : McpServerConfig) (s : Service) : Entered * Service :=
  match clients s !! sc_id cfg with
  | Some c => (Cached c, s)
  | None =>
      match connectingPromises s !! sc_id cfg with
      | Some p => (Joined p, s)
      | None =>
          let '(p, s) := establishConnection cfg s in
          (Started p, set_connectingPromises (insert (sc_id cfg) p) s)
      end
  end.

Definition settle (p : nat) (st : PromiseState) (s : Service) : Service :=
  set_attempts (alter (fun a => {| att_config := att_config a; att_client := att_client a;
                                   att_promise := st; att_resumed := att_resumed a |}) p) s.

Definition mark_resumed (p : nat) (s : Service) : Service :=
  set_attempts (alter (fun a => {| att_config := att_config a; att_client := att_client a;
                                   att_promise := att_promise a; att_resumed := true |}) p) s.

(** [establishConnection] after [await client.connect(transport)], lines
    77-92, for the attempt [p] when the SDK reports [outcome]: return the
    client, or run the [catch] and reject.  Not enabled unless [p] is
    pending. *)
Definition establishConnection_settle (p : nat) (outcome : option Error) (s : Service) : Service :=
  match attempts s !! p with
  | Some {| att_config := cfg; att_client := Some c; att_promise := Pending |} =>
      match outcome with
      | None => settle p (Fulfilled c) s
      | Some e =>
          let s := emit (failed_to_connect cfg) s in
          let s := set_connectingPromises (delete (sc_id cfg)) s in
          settle p (Rejected e) s
      end
  | _ => s
  end.

(** [getClient] after [await connectPromise], lines 108-113, for the call
    that started attempt [p]: store the client on success; in both cases the
    [finally] deletes the pending entry of the server id.  Not enabled until
    [p] is settled, and only once. *)
Definition getClient_resume (p : nat) (s : Service) : option (result Client) * Service :=
  match attempts s !! p with
  | Some {| att_config := cfg; att_promise := Fulfilled c; att_resumed := false |} =>
      let s := set_clients (insert (sc_id cfg) c) s in
      let s := set_connectingPromises (delete (sc_id cfg)) s in
      (Some (inr c), mark_resumed p s)
  | Some {| att_config := cfg; att_promise := Rejected e; att_resumed := false |} =>
      let s := set_connectingPromises (delete (sc_id cfg)) s in
      (Some (inl e), mark_resumed p s)
  | _ => (None, s)
  end.

(** The value a promise has settled to, if it has. *)
Definition settled (p : nat) (s : Service) : option (result Client) :=
  match att_promise <$> attempts s !! p with
  | Some (Fulfilled c) => Some (inr c)
  | Some (Rejected e) => Some (inl e)
  | _ => None
  end.

(** The event loop around the connection manager.  Each constructor is one
    segment of code that runs without giving up control: a call of
    [getClient] up to its suspension, the continuation of
    [establishConnection] when the SDK settles [client.connect], the
    continuation of the [getClient] call that started an attempt.  The loop
    may run them in any order that the enabling conditions allow. *)
Inductive Segment : Type :=
| Call (cfg : McpServerConfig)
| ConnectSettles (p : nat) (outcome : option Error)
| Resume (p : nat).

Definition segment (s : Service) (g : Segment) : Service :=
  match g with
  | Call cfg => (getClient_enter cfg s).2
  | ConnectSettles p outcome => establishConnection_settle p outcome s
  | Resume p => (getClient_resume p s).2
  end.

Definition run (schedule : list Segment) (s : Service) : Service :=
  fold_left segment schedule s.

(** The number of calls of [client.connect] for a server id. *)
Definition connects (serverId : string) (s : Service) : nat :=
  length (List.filter (fun e => match e with
                                | Connect i => String.eqb i serverId
                                | _ => false
                                end) (effects s)).

(** [await mcpClientService.getClient(cfg)] seen from a caller that runs
    alone: the call enters, the SDK settles the attempt it waits for, the
    call that started the attempt resumes, and the caller gets what the
    promise settled to. *)
Definition sdk_outcome (sdk : Sdk) (p : nat) (s : Service) : option Error :=
  match attempts s !! p with
  | Some {| att_client := Some c |} => sdk_connect sdk c
  | _ => None
  end.

Definition getClient (sdk : Sdk) (cfg : McpServerConfig) (s : Service) : result Client * Service :=
  let '(entered, s) := getClient_enter cfg s in
  match entered with
  | Cached c => (inr c, s)
  | Joined p | Started p =>
      let s := establishConnection_settle p (sdk_outcome sdk p s) s in
      let s := snd (getClient_resume p s) in
      (default (inl (External "connect promise still pending")) (settled p s), s)
  end.

(** [xs.map(f)] for an [f] that may throw. *)
Fixpoint traverse {A B} (f : A -> result B) (xs : list A) : result (list B) :=
  match xs with
  | [] => ret []
  | x :: xs' =>
      try! y <- f x;
      try! ys <- traverse f xs';
      ret (y :: ys)
  end%js.

(** [listTools], lines 129-136: the shape test on the answer of the SDK.
    [None] is the branch that warns. *)
Definition pick_tools (response : value) : result (option (list value)) :=
  (try! wrapped <- (if truthy response then has_in "tools" response else ret false);
   match (if wrapped then get_opt response "tools" else VUndefined) with
   | VArr tools => ret (Some tools)
   | _ =>
       match response with
       | VArr tools => ret (Some tools)
       | _ => ret None
       end
   end)%js.

Definition unexpected_listTools (serverId : string) : Event :=
  ConsoleWarn ("[McpClientService] Unexpected listTools response structure for "
               +:+ serverId +:+ ":").
Definition failed_to_list (serverId : string) : Event :=
  ConsoleError ("[McpClientService] Failed to list tools for MCP server "
                +:+ serverId +:+ ":").

(** [listTools], lines 117-146.  Whatever is thrown inside the [try] (by the
    SDK, by the shape test, by [tools.map(t => t.name)]) is logged and
    thrown again. *)
Definition listTools (sdk : Sdk) (client : Client) (serverId : string) (s : Service)
  : result (list value) * Service :=
  let s := emit (ListTools serverId) s in
  let body :=
    (try! response <- sdk_listTools sdk client;
     try! picked <- pick_tools response;
     let tools := default [] picked in
     try! names <- traverse (fun t => get t "name") tools;
     ret (tools, bool_decide (picked = None)))%js in
  match body with
  | inl e => (inl e, emit (failed_to_list serverId) s)
  | inr (tools, warned) =>
      (inr tools, if warned then emit (unexpected_listTools serverId) s else s)
  end.

Definition failed_to_call (toolName serverId : string) : Event :=
  ConsoleError ("[McpClientService] Failed to call tool " +:+ toolName +:+
                " on MCP server " +:+ serverId +:+ ":").

Definition callTool_request (toolName : string) (payload : value) : value :=
  VObj [("name", VStr toolName); ("arguments", payload)].

(** [callTool], lines 148-171. *)
Definition callTool (sdk : Sdk) (client : Client) (toolName : string) (payload : value)
    (serverId : string) (s : Service) : result value * Service :=
  let s := emit (CallTool serverId (callTool_request toolName payload)) s in
  let body :=
    (try! response <- sdk_callTool sdk client (callTool_request toolName payload);
     get response "content")%js in
  match body with
  | inl e => (inl e, emit (failed_to_call toolName serverId) s)
  | inr content => (inr content, s)
  end.

Definition error_disconnecting (serverId : string) : Event :=
  ConsoleError ("[McpClientService] Error disconnecting from MCP server "
                +:+ serverId +:+ ":").

(** [disconnect], lines 173-187, awaited to its end.  [close c] is
    [client.close()] of the SDK: [None] when it resolves, the error when it
    rejects. *)
Definition disconnect (close : Client -> option Error) (serverId : string) (s : Service)
  : Service :=
  let s :=
    match clients s !! serverId with
    | Some client =>
        let s := match close client with
                 | Some e => emit (error_disconnecting serverId) s
                 | None => s
                 end in
        set_clients (delete serverId) s
    | None => s
    end in
  set_connectingPromises (delete serverId) s.

(** The loop of [disconnectAll], lines 191-193, over the ids in hand. *)
Definition disconnect_each (close : Client -> option Error) (allServerIds : list string)
    (s : Service) : Service :=
  fold_left (fun s serverId => disconnect close serverId s) allServerIds s.

(** [disconnectAll], lines 189-194.  The ids are the keys of [clients] when
    the sweep starts; the [Map] yields them in the order the clients were
    stored, which the finite map does not keep, so the order of the sweep
    here is that of the keys. *)
Definition disconnectAll (close : Client -> option Error) (s : Service) : Service :=
  disconnect_each close (elements (dom (clients s))) s.

End McpClient.

(** ** Tool registry: the tool registration service *)

Module ToolRegistry.
Import McpClient.

(** The agent's [Tool].  A description taken from a remote server is whatever
    value the server sent. *)
Record Tool : Type := {
  uuid : string;
  name : string;
  description : value;
  instruction : string
}.

(** A [ToolService], the callable of the spec: one of the services of
    tools.config.ts, or the closure of lines 112-130, which holds the
    [serverConfig] it was created for.  [Inherited member] is what a read of
    the static map finds under the name of a member of [Object.prototype]:
    not a service, but a truthy value all the same. *)
Inductive ToolService : Type :=
| Native (service : string)
| Remote (serverConfig : McpServerConfig)
| Inherited (member : string).

(** [toolsMap] of src/config/tools.config.ts, in the order of the source. *)
Definition toolsMap_entries : list (string * ToolService) :=
  [("spotify", Native "spotifyService"); ("memory", Native "memoryService");
   ("resend", Native "resendService"); ("files", Native "fileService");
   ("speak", Native "speakService"); ("linear", Native "linearService");
   ("maps", Native "mapService"); ("crypto", Native "cryptoService");
   ("google", Native "webService"); ("calendar", Native "calendarService");
   ("final_answer", Native "finalAnswerService")].

Definition toolsMap : gmap string ToolService := list_to_map toolsMap_entries.

(** What [initializeTools] reads from outside: the static executors, the
    answer of [dbToolService.getAvailableTools()], the configured servers,
    the SDK, and the uuids [uuidv4()] hands out, by number of the draw. *)
Record Env : Type := {
  nativeToolsMapConfig : gmap string ToolService;
  getAvailableTools : result (list Tool);
  mcpServerRegistry : list McpServerConfig;
  sdk : Sdk;
  uuidv4 : nat -> string
}.

(** The shared state: the flag of [ToolRegistrationService], the exported
    [activeToolsMap], the connection manager and the number of uuids drawn. *)
Record Registry : Type := {
  isInitialized : bool;
  activeToolsMap : gmap string ToolService;
  session_tools : list Tool;
  uuids : nat;
  mcp : Service
}.

(** State at module load: [activeToolsMap = {}]. *)
Definition toolRegistrationService : Registry :=
  {| isInitialized := false; activeToolsMap := ∅; session_tools := [];
     uuids := 0; mcp := mcpClientService |}.

Definition with_mcp (f : Service -> Service) (r : Registry) : Registry :=
  {| isInitialized := isInitialized r; activeToolsMap := activeToolsMap r;
     session_tools := session_tools r; uuids := uuids r; mcp := f (mcp r) |}.

Definition put_mcp (m : Service) (r : Registry) : Registry := with_mcp (fun _ => m) r.

Definition with_activeToolsMap (f : gmap string ToolService -> gmap string ToolService)
    (r : Registry) : Registry :=
  {| isInitialized := isInitialized r; activeToolsMap := f (activeToolsMap r);
     session_tools := session_tools r; uuids := uuids r; mcp := mcp r |}.

Definition draw_uuid (r : Registry) : Registry :=
  {| isInitialized := isInitialized r; activeToolsMap := activeToolsMap r;
     session_tools := session_tools r; uuids := S (uuids r); mcp := mcp r |}.

(** Modelled from the spec: [stateManager.updateSession] of
    agent/state.service, which is not part of the sources at hand; it
    publishes the merged catalog to the shared session state. *)
Definition updateSession (tools : list Tool) (r : Registry) : Registry :=
  with_mcp (emit (UpdateSession (map name tools)))
    {| isInitialized := isInitialized r; activeToolsMap := activeToolsMap r;
       session_tools := tools; uuids := uuids r; mcp := mcp r |}.

Definition mark_initialized (r : Registry) : Registry :=
  {| isInitialized := true; activeToolsMap := activeToolsMap r;
     session_tools := session_tools r; uuids := uuids r; mcp := mcp r |}.

Definition no_parameters : string :=
  "This tool may not have explicitly defined parameters in its schema or uses a generic payload structure. Refer to its description or the tool may not require specific input fields.".

(** One line of the instruction, line 40. *)
Definition parameter_line (actualRequired : value) (entry : string * value) : result string :=
  (let '(paramName, paramDetails) := entry in
   try! type <- get paramDetails "type";
   try! descr <- get paramDetails "description";
   try! required <- includes actualRequired paramName;
   ret ("- " +:+ str1 dquote +:+ paramName +:+ str1 dquote +:+ ": (type: "
        +:+ ToString (or_else type (VStr "any"))
        +:+ (if truthy descr then ", description: " +:+ ToString descr else "")
        +:+ ")" +:+ (if truthy required then " [required]" else "") +:+ nl))%js.

(** [formatMcpInstruction], lines 17-47. *)
Definition formatMcpInstruction (toolName : value) (schema : value) : result string :=
  (let instruction :=
     "To use the '" +:+ ToString toolName +:+
     "' tool, provide the following parameters in the payload as a JSON object:" +:+ nl in
   try! properties <- get schema "properties";
   try! required <- get schema "required";
   let inputSchema := get_opt properties "inputSchema" in
   let nested :=
     truthy properties
     && Nat.eqb (length (entries properties)) 1
     && truthy inputSchema
     && String.eqb (typeof inputSchema) "object"
     && truthy (get_opt inputSchema "properties") in
   let actualProperties :=
     if nested then get_opt inputSchema "properties" else properties in
   let actualRequired :=
     if nested then or_else (get_opt inputSchema "required") (VArr []) else required in
   if truthy actualProperties && Nat.ltb 0 (length (entries actualProperties)) then
     try! lines <- traverse (parameter_line actualRequired) (entries actualProperties);
     ret (instruction +:+ String.concat "" lines)
   else ret (instruction +:+ no_parameters))%js.

Definition serverLogPrefix (cfg : McpServerConfig) : string :=
  "[ToolRegistrationService] MCP Server '" +:+ sc_name cfg +:+ "' (ID: " +:+ sc_id cfg +:+ "):".

Definition service_not_found (toolName : string) : Event :=
  ConsoleWarn ("[ToolRegistrationService] Service for native tool '" +:+ toolName
               +:+ "' not found in nativeToolsMapConfig.").
Definition failed_to_load : Event :=
  ConsoleError "[ToolRegistrationService] Failed to load native tools from database:".
Definition failed_to_register (cfg : McpServerConfig) : Event :=
  ConsoleError (serverLogPrefix cfg +:+ " Failed to register tools:").

(** The state of the loops of [initializeTools]: the local [loadedTools] and
    the shared state. *)
Definition Loop : Type := list Tool * Registry.

(** The property names every plain object inherits from
    [Object.prototype]. *)
Definition Object_prototype : list string :=
  ["constructor"; "__defineGetter__"; "__defineSetter__"; "hasOwnProperty";
   "__lookupGetter__"; "__lookupSetter__"; "isPrototypeOf"; "propertyIsEnumerable";
   "toString"; "valueOf"; "__proto__"; "toLocaleString"].

(** [map[key]] on a plain object: the own property, else the member
    inherited from [Object.prototype], else [undefined]. *)
Definition read_property (map : gmap string ToolService) (key : string)
  : option ToolService :=
  match map !! key with
  | Some service => Some service
  | None => if bool_decide (key ∈ Object_prototype) then Some (Inherited key) else None
  end.

(** [map[key] = service] on a plain object: an own property, except under
    [__proto__], where the inherited setter takes the value and no own
    property is made. *)
Definition write_property (key : string) (service : ToolService)
    (map : gmap string ToolService) : gmap string ToolService :=
  if String.eqb key "__proto__" then map else <[key := service]> map.

(** Lines 62-72, one turn: the tool is pushed to [loadedTools], then its
    executor is read from the static map, line 66, and written to the
    callable map, line 67. *)
Definition register_native (env : Env) (st : Loop) (nativeTool : Tool) : Loop :=
  let '(loadedTools, r) := st in
  let loadedTools := loadedTools ++ [nativeTool] in
  match read_property (nativeToolsMapConfig env) (name nativeTool) with
  | Some service =>
      (loadedTools, with_activeToolsMap (write_property (name nativeTool) service) r)
  | None =>
      (loadedTools, with_mcp (emit (service_not_found (name nativeTool))) r)
  end.

Definition toolKey (cfg : McpServerConfig) (toolName : value) : string :=
  sc_id cfg +:+ "/" +:+ ToString toolName.

(** Lines 94-132, one turn.  [Some e] is a throw, which leaves the loop. *)
Definition register_mcp_tool (env : Env) (cfg : McpServerConfig) (mcpTool : value) (st : Loop)
  : option Error * Loop :=
  let '(loadedTools, r) := st in
  match get mcpTool "name" with
  | inl e => (Some e, st)
  | inr toolName =>
      let id := uuidv4 env (uuids r) in
      let r := draw_uuid r in
      let descr :=
        or_else (get_opt mcpTool "description")
                (VStr ("MCP tool " +:+ ToString toolName +:+ " from " +:+ sc_name cfg)) in
      match formatMcpInstruction toolName (get_opt mcpTool "inputSchema") with
      | inl e => (Some e, (loadedTools, r))
      | inr instr =>
          (None,
           (loadedTools ++ [{| uuid := id; name := toolKey cfg toolName;
                               description := descr; instruction := instr |}],
            with_activeToolsMap (write_property (toolKey cfg toolName) (Remote cfg)) r))
      end
  end.

Fixpoint register_mcp_tools (env : Env) (cfg : McpServerConfig) (mcpTools : list value)
    (st : Loop) : option Error * Loop :=
  match mcpTools with
  | [] => (None, st)
  | mcpTool :: rest =>
      match register_mcp_tool env cfg mcpTool st with
      | (Some e, st) => (Some e, st)
      | (None, st) => register_mcp_tools env cfg rest st
      end
  end.

(** Lines 83-139, one turn: connect, list, register each tool; a throw
    anywhere is logged (with [failed], the text of the [catch]) and the loop
    goes on with the next server.  The [enabled] flag of the configuration
    is not read. *)
Definition register_server_with (failed : McpServerConfig -> Event) (env : Env) (st : Loop)
    (serverConfig : McpServerConfig) : Loop :=
  let '(loadedTools, r) := st in
  let '(client, m) := getClient (sdk env) serverConfig (mcp r) in
  match client with
  | inl e => (loadedTools, put_mcp (emit (failed serverConfig) m) r)
  | inr client =>
      let '(mcpTools, m) := listTools (sdk env) client (sc_id serverConfig) m in
      match mcpTools with
      | inl e => (loadedTools, put_mcp (emit (failed serverConfig) m) r)
      | inr mcpTools =>
          match register_mcp_tools env serverConfig mcpTools (loadedTools, put_mcp m r) with
          | (Some e, (loadedTools, r)) =>
              (loadedTools, with_mcp (emit (failed serverConfig)) r)
          | (None, st) => st
          end
      end
  end.

Definition register_server (env : Env) (st : Loop) (serverConfig : McpServerConfig) : Loop :=
  register_server_with failed_to_register env st serverConfig.

(** Lines 57-77. *)
Definition register_native_tools (env : Env) (r : Registry) : Loop :=
  let r := with_mcp (emit GetAvailableTools) r in
  match getAvailableTools env with
  | inr dbNativeTools => fold_left (register_native env) dbNativeTools ([], r)
  | inl e => ([], with_mcp (emit failed_to_load) r)
  end.

(** [initializeTools], lines 49-146, awaited to its end. *)
Definition initializeTools (env : Env) (r : Registry) : Registry :=
  if isInitialized r then r
  else
    let st := register_native_tools env r in
    let '(loadedTools, r) := fold_left (register_server env) (mcpServerRegistry env) st in
    mark_initialized (updateSession loadedTools r).

(** The payload without its routing field, line 126:
    [const { conversation_uuid, ...mcpToolPayload } = payload].  The rest
    object gets the other own properties of the payload.  They are copied in
    the order of [own_property_order]; a property list stands for an object
    whose array indices are listed first whatever their place in the list,
    so for an object the list of the payload is kept as it is. *)
Definition mcpToolPayload (payload : value) : result value :=
  match payload with
  | VUndefined | VNull => throw (TypeError "Cannot destructure 'payload'")
  | VObj ps => ret (VObj (filter (fun kv => kv.1 ≠ "conversation_uuid") ps))
  | _ => ret (VObj (filter (fun kv => kv.1 ≠ "conversation_uuid") (entries payload)))
  end.

(** [execute] of the callable registered for [serverConfig], lines 113-129. *)
Definition execute (env : Env) (serverConfig : McpServerConfig) (action : string)
    (payload : value) (m : Service) : result value * Service :=
  let '(client, m) := getClient (sdk env) serverConfig m in
  match client with
  | inl e => (inl e, m)
  | inr client =>
      match mcpToolPayload payload with
      | inl e => (inl e, m)
      | inr stripped => callTool (sdk env) client action stripped (sc_id serverConfig) m
      end
  end.

(** The earlier version of the service, kept in the repository next to the
    action service: the callable map starts as a copy of the static map, the
    catalog starts from the tools of the session and gets a placeholder for
    every static name it lacks; the server loop is the same. *)
Module StaticCatalog.

(** [activeToolsMap = { ...nativeToolsMap }] *)
Definition toolRegistrationService : Registry :=
  {| isInitialized := false; activeToolsMap := toolsMap; session_tools := [];
     uuids := 0; mcp := mcpClientService |}.

Definition placeholder (id toolName : string) : Tool :=
  {| uuid := id; name := toolName;
     description := VStr ("Native tool: " +:+ toolName);
     instruction :=
       "Refer to the " +:+ toolName +:+
       " service for payload instructions. Action name is usually derived from context or is '"
       +:+ toolName +:+ "'." |}.

(** Lines 59-71, one turn. *)
Definition register_native (env : Env) (st : Loop) (entry : string * ToolService) : Loop :=
  let '(loadedTools, r) := st in
  if existsb (fun t => String.eqb (name t) entry.1) loadedTools then st
  else (loadedTools ++ [placeholder (uuidv4 env (uuids r)) entry.1], draw_uuid r).

Definition failed_to_register (cfg : McpServerConfig) : Event :=
  ConsoleError ("[ToolRegistrationService] Failed to register tools for MCP server "
                +:+ sc_id cfg +:+ ":").

(** [initializeTools], lines 48-140. *)
Definition initializeTools (nativeToolsMap : list (string * ToolService)) (env : Env)
    (r : Registry) : Registry :=
  if isInitialized r then r
  else
    let st := fold_left (register_native env) nativeToolsMap (session_tools r, r) in
    let '(loadedTools, r) :=
      fold_left (register_server_with failed_to_register env) (mcpServerRegistry env) st in
    mark_initialized (updateSession loadedTools r).

End StaticCatalog.

End ToolRegistry.

(** ** Action result normaliser: the action service

    The model follows the tables; what the service writes to the console
    (the progress lines, and the warning of line 297 when no document is
    created) is not part of it. *)

Module ActionService.

Inductive Status : Type := pending | completed | failed.

(** A row of [actions]. *)
Record Action : Type := {
  uuid : string;
  task_uuid : string;
  tool_uuid : string;
  name : string;
  sequence : Z;
  status : Status;
  payload : option string;
  result : option string;
  updated_at : option string
}.

Record Document : Type := {
  doc_uuid : string;
  doc_conversation_uuid : string;
  doc_source_uuid : string;
  doc_text : string;
  doc_metadata : list (string * string);
  doc_indexed : bool
}.

(** The argument of [documentService.createDocument], lines 261-272. *)
Record CreateDocument : Type := {
  cd_conversation_uuid : string;
  cd_text : string;
  cd_source_uuid : string;
  cd_action_uuid : string;
  cd_metadata_override : list (string * string);
  cd_should_index : bool
}.

(** A row of [actionDocuments]. *)
Record ActionDocument : Type := {
  action_uuid : string;
  document_uuid : string
}.

(** The tables behind [db]. *)
Record Store : Type := {
  actions : list Action;
  actionDocuments : list ActionDocument;
  documents : list Document
}.

(** What the surroundings decide: the clock, the uuid of the next document,
    and which awaited request, if any, is rejected. *)
Record Db : Type := {
  now : string;
  next_document_uuid : list Document -> string;
  update_fault : option Error;
  createDocument_fault : option Error;
  insert_fault : option Error;
  query_fault : option Error
}.

(** What [updateActionWithResult] returns: the row and its [documents]; a
    link whose document is gone shows as [None]. *)
Record ActionWithDocuments : Type := {
  action : Action;
  linked_documents : list (option Document)
}.

Definition fault (f : option Error) : JS.result unit :=
  match f with Some e => throw e | None => ret tt end.

(** [firstContent] is a text part, line 207. *)
Definition text_part (firstContent : value) : option string :=
  if String.eqb (typeof firstContent) "object" && negb (nullish firstContent) then
    match get_opt firstContent "type", get_opt firstContent "text" with
    | VStr t, VStr text => if String.eqb t "text" then Some text else None
    | _, _ => None
    end
  else None.

(** The object literal of lines 215-224, in the order of its fields. *)
Definition digest_fields (r : value) : list (string * value) :=
  [("uuid", get_opt r "uuid");
   ("name", get_opt r "name");
   ("content", or_else (get_opt r "text") (get_opt r "content"));
   ("description", get_opt r "description");
   ("metadata_description", get_opt (get_opt r "metadata") "description");
   ("metadata_source", get_opt (get_opt r "metadata") "source");
   ("original_source", get_opt r "source")].

(** Lines 215-227: a line per field that is neither [undefined] nor [null]. *)
Definition digest (r : value) : string :=
  String.concat nl
    (map (fun kv => kv.1 +:+ ": " +:+ ToString kv.2)
         (List.filter (fun kv => negb (nullish kv.2)) (digest_fields r))).

(** Lines 199-234: the text taken from a raw result; [None] is [undefined],
    which [JSON.stringify(undefined)] gives. *)
Definition extracted_text_content (r : value) : option string :=
  match r with
  | VStr s => Some s
  | VArr _ | VObj _ =>
      match get_opt r "content" with
      | VArr (firstContent :: _) =>
          match text_part firstContent with
          | Some text => Some text
          | None => JSON_stringify r
          end
      | _ =>
          if String.eqb (digest r) "" then JSON_stringify r else Some (digest r)
      end
  | _ => JSON_stringify r
  end.

(** [tx.update(actions).set(...).where(eq(actions.uuid, uuid)).returning()],
    lines 236-244.  A field set to [undefined] is left as it is. *)
Definition complete (db : Db) (text : option string) (a : Action) : Action :=
  {| uuid := uuid a; task_uuid := task_uuid a; tool_uuid := tool_uuid a;
     name := name a; sequence := sequence a;
     status := completed;
     payload := payload a;
     result := match text with Some t => Some t | None => result a end;
     updated_at := Some (now db) |}.

Definition matches (id : string) (a : Action) : bool := String.eqb (uuid a) id.

Definition update_actions (db : Db) (id : string) (text : option string) (st : Store)
  : list Action * Store :=
  (map (complete db text) (List.filter (matches id) (actions st)),
   {| actions := map (fun a => if matches id a then complete db text a else a) (actions st);
      actionDocuments := actionDocuments st;
      documents := documents st |}).

(** Modelled from the spec: [documentService.createDocument] of
    ./document.service, which is not part of the sources at hand.  It creates
    a Document carrying the text it is given, tagged with the metadata of the
    call, in the table of the documents.  The call of lines 261-272 hands it
    no [tx]: what it writes, it writes through the database handle of the
    document service. *)
Definition createDocument (db : Db) (params : CreateDocument) (st : Store)
  : JS.result Document * Store :=
  match createDocument_fault db with
  | Some e => (throw e, st)
  | None =>
      let doc := {| doc_uuid := next_document_uuid db (documents st);
                    doc_conversation_uuid := cd_conversation_uuid params;
                    doc_source_uuid := cd_source_uuid params;
                    doc_text := cd_text params;
                    doc_metadata := cd_metadata_override params;
                    doc_indexed := cd_should_index params |} in
      (ret doc, {| actions := actions st; actionDocuments := actionDocuments st;
                   documents := documents st ++ [doc] |})
  end.

(** [tx.insert(actionDocuments).values(...)], lines 274-277. *)
Definition insert_actionDocument (row : ActionDocument) (st : Store) : Store :=
  {| actions := actions st; actionDocuments := actionDocuments st ++ [row];
     documents := documents st |}.

Definition find_document (id : string) (st : Store) : option Document :=
  List.find (fun d => String.eqb (doc_uuid d) id) (documents st).

(** [tx.query.actions.findMany] with its two [with]s, lines 279-288. *)
Definition findMany (id : string) (st : Store) : list ActionWithDocuments :=
  map (fun a =>
         {| action := a;
            linked_documents :=
              map (fun ad => find_document (document_uuid ad) st)
                  (List.filter (fun ad => String.eqb (action_uuid ad) (uuid a))
                               (actionDocuments st)) |})
      (List.filter (matches id) (actions st)).

(** The callback of [db.transaction], lines 197-303. *)
Definition updateActionWithResult_tx (db : Db) (id : string) (raw : value) (st : Store)
  : JS.result ActionWithDocuments * Store :=
  let extracted := extracted_text_content raw in
  match update_fault db with
  | Some e => (throw e, st)
  | None =>
      let '(returning, st) := update_actions db id extracted st in
      match returning with
      | [] => (throw (Thrown "Action not found"), st)
      | act :: _ =>
          match extracted with
          | Some document_text =>
              if truthy (VStr document_text) then
                let '(created, st) :=
                  createDocument db
                    {| cd_conversation_uuid := task_uuid act;
                       cd_text := document_text;
                       cd_source_uuid := task_uuid act;
                       cd_action_uuid := uuid act;
                       cd_metadata_override :=
                         [("type", "text"); ("content_type", "full");
                          ("source", "action_result")];
                       cd_should_index := true |} st in
                match created with
                | inl e => (throw e, st)
                | inr created_doc =>
                    match insert_fault db with
                    | Some e => (throw e, st)
                    | None =>
                        let st :=
                          insert_actionDocument
                            {| action_uuid := uuid act;
                               document_uuid := doc_uuid created_doc |} st in
                        match query_fault db with
                        | Some e => (throw e, st)
                        | None =>
                            match findMany id st with
                            | [] => (throw (Thrown "Failed to retrieve action with document"), st)
                            | action_with_documents :: _ => (ret action_with_documents, st)
                            end
                        end
                    end
                end
              else (ret {| action := act; linked_documents := [] |}, st)
          | None => (ret {| action := act; linked_documents := [] |}, st)
          end
      end
  end.

(** Modelled from the spec: [db.transaction(callback)] of ../../database/db,
    which is not part of the sources at hand.  It waits for the callback;
    what the callback wrote through [tx] (the rows of [actions], lines
    236-244, and of [actionDocuments], lines 274-277) is committed when the
    callback returns and undone when it throws, and the throw goes on to the
    caller.  The table of the documents is written by the document service,
    past [tx]: those writes are not the transaction's to undo. *)
Definition transaction {A} (callback : Store -> JS.result A * Store) (st : Store)
  : JS.result A * Store :=
  match callback st with
  | (inr a, st') => (inr a, st')
  | (inl e, st') =>
      (inl e, {| actions := actions st; actionDocuments := actionDocuments st;
                 documents := documents st' |})
  end.

(** [updateActionWithResult], lines 196-306. *)
Definition updateActionWithResult (db : Db) (id : string) (raw : value) (st : Store)
  : JS.result ActionWithDocuments * Store :=
  transaction (updateActionWithResult_tx db id raw) st.

End ActionService.


(** ** Static executors: src/config/tools.config.ts *)

Module finalAnswerService.

Definition process_complete : string := "Process complete. Final answer delivered.".

(** [finalAnswerService.execute], lines 16-23:
    [payload.answer || payload.content || "Process complete. ..."].
    [action] is not read. *)
Definition execute (action : string) (payload : value) : result value :=
  (try! answer <- get payload "answer";
   if truthy answer then ret answer
   else
     try! content <- get payload "content";
     ret (or_else content (VStr process_complete)))%js.

End finalAnswerService.

(** ** What the route handlers share *)

Module Hono.

(** [c.json(body, status)]; the status is 200 when none is given. *)
Record Response : Type := {
  status : nat;
  body : value
}.

Definition json (body : value) (status : nat) : Response :=
  {| status := status; body := body |}.

(** What a [catch] can receive: an [Error], or any other thrown value. *)
Inductive Caught : Type :=
| an_Error (e : Error)
| not_an_Error (v : value).

(** [error instanceof Error ? error.message : 'Unknown error'] *)
Definition error_message (error : Caught) : string :=
  match error with
  | an_Error e => message e
  | not_an_Error _ => "Unknown error"
  end.

End Hono.

(** ** Cron routes: src/routes/cron.ts *)

Module Cron.
Import Hono.

Inductive JobType : Type := type_cron | type_scheduled | type_recurring.

(** A body that passed [CreateJobSchema] (lines 9-16), as
    [c.req.valid('json')] hands it to the handler. *)
Record CreateJobSchema : Type := {
  name : string;
  description : string;
  type : JobType;
  schedule : option string;
  due_date : option string;
  metadata : option (list (string * value))
}.

(** The argument of [cronService.createJob], lines 34-43. *)
Record CreateJob : Type := {
  cj_name : string;
  cj_type : JobType;
  cj_schedule : string;
  cj_task_uuid : string;
  cj_metadata : list (string * value)
}.

(** The cron service of ../services/common/cron.service as the handlers see
    it: each request resolves to a value or rejects. *)
Record cronService : Type := {
  createJob : CreateJob -> Caught + value;
  getJob : string -> Caught + value;
  cancelJob : string -> option Caught
}.

(** What a handler asks of the service and writes to the console. *)
Inductive Effect : Type :=
| createJob_called (job : CreateJob)
| getJob_called (job_uuid : string)
| cancelJob_called (job_uuid : string)
| console_error (text : string).

(** [a || b] on values of type [string | undefined]. *)
Definition or_text (a b : option string) : option string :=
  match a with
  | Some s => if truthy (VStr s) then a else b
  | None => b
  end.

(** Writing a property of an object: in place when the key is there, at the
    end otherwise (keys that look like array indices, which JS lists first,
    are not told apart). *)
Definition set_property (k : string) (v : value) (ps : list (string * value))
  : list (string * value) :=
  if bool_decide (is_Some (assoc k ps))
  then map (fun kv => if String.eqb kv.1 k then (k, v) else kv) ps
  else ps ++ [(k, v)].

(** [{ ...target, ...source }] *)
Definition spread (target source : list (string * value)) : list (string * value) :=
  fold_left (fun acc kv => set_property kv.1 kv.2 acc) source target.

Definition failure (error : string) (status : nat) : Response :=
  json (VObj [("success", VBool false); ("error", VStr error)]) status.

(** [POST /], lines 19-53.  [task_uuid] is the uuid drawn at line 22. *)
Definition post (svc : cronService) (task_uuid : string) (job_data : CreateJobSchema)
  : Response * list Effect :=
  match or_text (due_date job_data) (schedule job_data) with
  | Some schedule =>
      if truthy (VStr schedule) then
        let job := {| cj_name := name job_data;
                      cj_type := type job_data;
                      cj_schedule := schedule;
                      cj_task_uuid := task_uuid;
                      cj_metadata :=
                        spread [("description", VStr (description job_data))]
                               (default [] (metadata job_data)) |} in
        match createJob svc job with
        | inr created =>
            (json (VObj [("success", VBool true); ("data", created)]) 200,
             [createJob_called job])
        | inl error =>
            (failure (error_message error) 500,
             [createJob_called job; console_error "Error creating job:"])
        end
      else (failure "Either schedule or due_date must be provided" 400, [])
  | None => (failure "Either schedule or due_date must be provided" 400, [])
  end.

(** [GET /:job_uuid], lines 54-70. *)
Definition get_job (svc : cronService) (job_uuid : string) : Response * list Effect :=
  match getJob svc job_uuid with
  | inr job =>
      if truthy job
      then (json (VObj [("success", VBool true); ("data", job)]) 200, [getJob_called job_uuid])
      else (failure "Job not found" 404, [getJob_called job_uuid])
  | inl error => (failure (error_message error) 500, [getJob_called job_uuid])
  end.

(** [DELETE /:job_uuid], lines 71-82. *)
Definition delete_job (svc : cronService) (job_uuid : string) : Response * list Effect :=
  match cancelJob svc job_uuid with
  | None => (json (VObj [("success", VBool true)]) 200, [cancelJob_called job_uuid])
  | Some error => (failure (error_message error) 500, [cancelJob_called job_uuid])
  end.

End Cron.

(** ** Naming middleware: src/routes/cron.ts, lines 84-116 *)

Module Naming.
Import Hono.

(** White space and line terminators among the code units a string of the
    model can hold: TAB, LF, VT, FF, CR, SP and NBSP. *)
Definition is_space (c : ascii) : bool :=
  let n := nat_of_ascii c in
  (Nat.leb 9 n && Nat.leb n 13) || Nat.eqb n 32 || Nat.eqb n 160.

Fixpoint trimStart (s : string) : string :=
  match s with
  | EmptyString => EmptyString
  | String c s' => if is_space c then trimStart s' else s
  end.

Fixpoint trimEnd (s : string) : string :=
  match s with
  | EmptyString => EmptyString
  | String c s' =>
      match trimEnd s' with
      | EmptyString => if is_space c then EmptyString else String c EmptyString
      | kept => String c kept
      end
  end.

(** [s.trim()] *)
Definition trim (s : string) : string := trimEnd (trimStart s).

(** [s.startsWith(x)] *)
Definition startsWith (s x : string) : bool := String.prefix x s.

(** [v.at(-1)] for a [v] that is neither [null] nor [undefined]: the last
    element of an array, the last code unit of a string, a TypeError on a
    value that has no [at] method. *)
Definition at_last (v : value) : result value :=
  match v with
  | VArr l => ret (default VUndefined (last l))
  | VStr s =>
      ret (match last (list_ascii_of_string s) with
           | Some c => VStr (str1 c)
           | None => VUndefined
           end)
  | _ => throw (TypeError "messages.at is not a function")
  end.

(** Lines 90-95.  The destructuring of line 90 throws on [null]; what it
    throws is not seen outside the middleware. *)
Definition namingConversation (body : value) : result bool :=
  (try! messages <- get body "messages";
   if nullish messages then ret false
   else
     try! last_message <- at_last messages;
     match get_opt last_message "content" with
     | VStr content => ret (startsWith (trim content) "Name the following")
     | _ => ret false
     end)%js.

Definition naming_reply : Response :=
  json (VObj [("choices",
               VArr [VObj [("message",
                            VObj [("role", VStr "assistant");
                                  ("content", VStr "AGI is here!")])]])]) 200.

Definition invalid_request_body : Response :=
  json (VObj [("error", VStr "Invalid request body")]) 400.

(** What the middleware leaves behind: a response of its own, or the request
    handed on with [parsedBody] set. *)
Inductive Outcome : Type :=
| Responded (response : Response)
| Passed (parsedBody : value).

(** [namingMiddleware], lines 87-116.  [parsed] is [await c.req.json()];
    [next body] is [await next()] with [parsedBody] set to [body]: [None]
    when it resolves, what it rejects with otherwise. *)
Definition namingMiddleware (parsed : result value) (next : value -> option Caught)
  : Outcome :=
  match (try! body <- parsed;
         try! naming <- namingConversation body;
         ret (body, naming))%js with
  | inl _ => Responded invalid_request_body
  | inr (body, true) => Responded naming_reply
  | inr (body, false) =>
      match next body with
      | Some _ => Responded invalid_request_body
      | None => Passed body
      end
  end.

End Naming.
(** * Sample inputs *)

Section ConnectionSamples.
Import McpClient.

(** The one server of the shipped configuration. *)
Definition firecrawl : McpServerConfig :=
  {| sc_id := "4b6d88f3-d23d-4ece-8dc7-5c8a94ac0d38";
     sc_name := "Firecrawl";
     sc_address := None;
     sc_transport_type := "stdio";
     sc_command := Some "/Users/overment/.nvm/versions/node/v22.11.0/bin/npx";
     sc_args := Some ["-y"; "firecrawl-mcp"];
     sc_env := Some [("FIRECRAWL_API_KEY", "fc-...")];
     sc_enabled := true;
     sc_description := Some "Firecrawl server to search / scrape the web" |}.

(** The same server, switched off. *)
Definition firecrawl_disabled : McpServerConfig :=
  {| sc_id := sc_id firecrawl; sc_name := sc_name firecrawl;
     sc_address := None; sc_transport_type := "stdio";
     sc_command := sc_command firecrawl; sc_args := sc_args firecrawl;
     sc_env := sc_env firecrawl; sc_enabled := false;
     sc_description := sc_description firecrawl |}.

(** A stdio server whose command was forgotten. *)
Definition no_command : McpServerConfig :=
  {| sc_id := "local_script_mcp_v1"; sc_name := "Local Script MCP Server";
     sc_address := Some "./scripts/my_mcp_server.py"; sc_transport_type := "stdio";
     sc_command := None; sc_args := None; sc_env := None;
     sc_enabled := true; sc_description := None |}.

(** An http server without an address, and one of an unknown transport. *)
Definition no_address : McpServerConfig :=
  {| sc_id := "http_calculator_v1"; sc_name := "HTTP Calculator MCP";
     sc_address := None; sc_transport_type := "http";
     sc_command := None; sc_args := None; sc_env := None;
     sc_enabled := true; sc_description := None |}.

Definition websocket : McpServerConfig :=
  {| sc_id := "ws_v1"; sc_name := "Socket MCP";
     sc_address := Some "ws://localhost:3001"; sc_transport_type := "websocket";
     sc_command := None; sc_args := None; sc_env := None;
     sc_enabled := true; sc_description := None |}.

(** A client as [establishConnection] builds it for [firecrawl]. *)
Definition sample_client : Client :=
  {| client_name := "Firecrawl-client"; client_version := "1.0.0";
     transport := {| command := "/Users/overment/.nvm/versions/node/v22.11.0/bin/npx";
                     args := ["-y"; "firecrawl-mcp"];
                     env := Some [("FIRECRAWL_API_KEY", "fc-...")] |};
     handle := 0 |}.

Definition scrape_tool : value :=
  VObj [("name", VStr "firecrawl_scrape");
        ("description", VStr "Scrape a page");
        ("inputSchema",
         VObj [("type", VStr "object");
               ("properties",
                VObj [("url", VObj [("type", VStr "string");
                                    ("description", VStr "The URL to scrape")])]);
               ("required", VArr [VStr "url"])])].

Definition search_tool : value :=
  VObj [("name", VStr "firecrawl_search");
        ("inputSchema", VObj [("type", VStr "object")])].

(** An SDK whose servers connect, list [listed] and answer every call with
    [response]. *)
Definition sdk_answering (listed response : value) : Sdk :=
  {| sdk_connect := fun _ => None;
     sdk_listTools := fun _ => inr listed;
     sdk_callTool := fun _ _ => inr response |}.

(** A server answer in the older result format of the protocol, which has a
    [toolResult] and no [content]. *)
Definition toolResult_response : value := VObj [("toolResult", VNum 5)].

Definition content_response : value :=
  VObj [("content", VArr [VObj [("type", VStr "text"); ("text", VStr "42")]])].

(** [getClient] refuses [cfg] with the error [e] of kind [kind]: the call
    fails, nothing was asked of the SDK (the trace gets the warnings
    [warned] and the error line of the [catch], nothing else), no client is
    stored and no pending entry is left. *)
Definition refuses (sdk : Sdk) (cfg : McpServerConfig) (s : Service)
    (e : Error) (kind : ErrorKind) (warned : list Event) : Prop :=
  (getClient sdk cfg s).1 = inl e
  /\ error_kind cfg e = kind
  /\ effects (getClient sdk cfg s).2 = effects s ++ warned ++ [failed_to_connect cfg]
  /\ clients (getClient sdk cfg s).2 = clients s
  /\ connectingPromises (getClient sdk cfg s).2 = connectingPromises s.

(** An http server with an address. *)
Definition http_calculator : McpServerConfig :=
  {| sc_id := "http_calculator_v1"; sc_name := "HTTP Calculator MCP";
     sc_address := Some "http://localhost:30002/mcp"; sc_transport_type := "http";
     sc_command := None; sc_args := None; sc_env := None;
     sc_enabled := true; sc_description := None |}.

(** An SDK that never connects. *)
Definition sdk_unreachable : Sdk :=
  {| sdk_connect := fun _ => Some (External "spawn npx ENOENT");
     sdk_listTools := fun _ => inl (External "Not connected");
     sdk_callTool := fun _ _ => inl (External "Not connected") |}.

(** The trace only grows. *)
Definition grows (s s' : Service) : Prop :=
  exists l, effects s' = effects s ++ l.

(** The schedule that breaks single flight: call A starts attempt 0, whose
    connect fails; call B enters before A resumes; A resumes; call C enters
    while the attempt of B is still pending. *)
Definition spawn_error : Error := External "spawn npx ENOENT".

Definition after_failure : Service :=
  run [Call firecrawl; ConnectSettles 0 (Some spawn_error)] mcpClientService.

Definition after_second_call : Service := run [Call firecrawl] after_failure.

Definition after_cleanup : Service := run [Resume 0] after_second_call.

Definition after_third_call : Service := run [Call firecrawl] after_cleanup.

End ConnectionSamples.

Section ActionSamples.
Import ActionService.

Definition pending_action : Action :=
  {| uuid := "a-1"; task_uuid := "t-1"; tool_uuid := "tool-1"; name := "search";
     sequence := 1; status := pending; payload := None; result := None;
     updated_at := None |}.

Definition one_action : Store :=
  {| actions := [pending_action]; actionDocuments := []; documents := [] |}.

(** A database that answers every request. *)
Definition healthy : Db :=
  {| now := "2025-05-01T00:00:00.000Z";
     next_document_uuid := fun docs => "doc-" +:+ nat_to_string (length docs);
     update_fault := None; createDocument_fault := None;
     insert_fault := None; query_fault := None |}.

(** One whose document service rejects. *)
Definition failing_documents : Db :=
  {| now := now healthy; next_document_uuid := next_document_uuid healthy;
     update_fault := None;
     createDocument_fault := Some (External "documents: disk I/O error");
     insert_fault := None; query_fault := None |}.


Definition content_string : value := VObj [("content", VStr "hello")].
Definition content_number : value := VObj [("content", VNum 7)].
Definition content_empty : value := VObj [("content", VArr [])].
Definition content_image : value :=
  VObj [("content", VArr [VObj [("type", VStr "image"); ("data", VStr "aGk=")]])].
Definition content_text : value :=
  VObj [("content", VArr [VObj [("type", VStr "text"); ("text", VStr "42")]])].

(** Rule 2 of the design, in its words: a structured object whose [content]
    field is a non-empty ordered sequence whose first element has
    [type == "text"] and a string [text] field. *)
Definition text_first (r : value) (text : string) : Prop :=
  exists ps fs rest,
    r = VObj ps
    /\ assoc "content" ps = Some (VArr (VObj fs :: rest))
    /\ assoc "type" fs = Some (VStr "text")
    /\ assoc "text" fs = Some (VStr text).

(** The document the service creates for an action and a text. *)
Definition document_for (db : Db) (st : Store) (a : Action) (text : string) : Document :=
  {| doc_uuid := next_document_uuid db (documents st);
     doc_conversation_uuid := task_uuid a;
     doc_source_uuid := task_uuid a;
     doc_text := text;
     doc_metadata := [("type", "text"); ("content_type", "full"); ("source", "action_result")];
     doc_indexed := true |}.

Definition updated (db : Db) (id : string) (raw : value) (st : Store) : list Action :=
  map (fun a => if matches id a then complete db (extracted_text_content raw) a else a)
      (actions st).

Definition links_of (a : Action) (st : Store) : list (option Document) :=
  map (fun ad => find_document (document_uuid ad) st)
      (List.filter (fun ad => String.eqb (action_uuid ad) (uuid a)) (actionDocuments st)).

Definition no_faults (db : Db) : Prop :=
  update_fault db = None /\ createDocument_fault db = None
  /\ insert_fault db = None /\ query_fault db = None.

End ActionSamples.

Section RegistrySamples.
Import McpClient ToolRegistry.

Definition uuid_of_draw (n : nat) : string := "uuid-" +:+ nat_to_string n.

Definition weather_tool : Tool :=
  {| uuid := "7a1c"; name := "weather"; description := VStr "Weather forecast";
     instruction := "Use the forecast action with a city." |}.

Definition memory_tool : Tool :=
  {| uuid := "02be"; name := "memory"; description := VStr "Long term memory";
     instruction := "Use recall or remember." |}.

(** A persisted catalog with an entry, [weather], that has no executor in
    [toolsMap]; no server is configured. *)
Definition env_orphan : Env :=
  {| nativeToolsMapConfig := toolsMap;
     getAvailableTools := inr [memory_tool; weather_tool];
     mcpServerRegistry := [];
     sdk := sdk_answering (VObj [("tools", VArr [])]) VNull;
     uuidv4 := uuid_of_draw |}.

(** No local tools, and the one configured server switched off; if asked,
    the server lists two tools. *)
Definition env_disabled : Env :=
  {| nativeToolsMapConfig := toolsMap;
     getAvailableTools := inr [];
     mcpServerRegistry := [firecrawl_disabled];
     sdk := sdk_answering (VObj [("tools", VArr [scrape_tool; search_tool])]) VNull;
     uuidv4 := uuid_of_draw |}.

(** The shipped configuration with one local tool. *)
Definition env_shipped : Env :=
  {| nativeToolsMapConfig := toolsMap;
     getAvailableTools := inr [memory_tool];
     mcpServerRegistry := [firecrawl];
     sdk := sdk_answering (VObj [("tools", VArr [scrape_tool; search_tool])]) VNull;
     uuidv4 := uuid_of_draw |}.

(** A server that lists the same tool twice. *)
Definition env_twice : Env :=
  {| nativeToolsMapConfig := toolsMap;
     getAvailableTools := inr [];
     mcpServerRegistry := [firecrawl];
     sdk := sdk_answering (VObj [("tools", VArr [search_tool; search_tool])]) VNull;
     uuidv4 := uuid_of_draw |}.

(** The names of the catalog and the keys of the callable map. *)
Definition catalog_names (r : Registry) : list string := map name (session_tools r).
Definition callable_keys (r : Registry) : gset string := dom (activeToolsMap r).

(** The loops of [initializeTools] up to the publication of the catalog. *)
Definition full_pass (env : Env) (r : Registry) : Loop :=
  fold_left (register_server env) (mcpServerRegistry env) (register_native_tools env r).

Fixpoint has_slash (s : string) : bool :=
  match s with
  | EmptyString => false
  | String c s' => Ascii.eqb c "/" || has_slash s'
  end.

(** The name a listed tool is registered under, as a string. *)
Definition tool_name (mcpTool : value) : string := ToString (get_opt mcpTool "name").

(** No server lists two tools of the same name. *)
Definition distinct_listings (env : Env) : Prop :=
  forall client response tools,
    sdk_listTools (sdk env) client = inr response ->
    pick_tools response = inr (Some tools) ->
    NoDup (map tool_name tools).

(** The persisted catalog has distinct names without [/], the configured
    servers distinct ids without [/]. *)
Definition distinct_sources (env : Env) : Prop :=
  (forall dbNativeTools,
     getAvailableTools env = inr dbNativeTools ->
     NoDup (map name dbNativeTools)
     /\ Forall (fun t => has_slash (name t) = false) dbNativeTools)
  /\ NoDup (map sc_id (mcpServerRegistry env))
  /\ Forall (fun cfg => has_slash (sc_id cfg) = false) (mcpServerRegistry env).

(** The local entries of the persisted catalog, none when it cannot be read. *)
Definition local_entries (env : Env) : list Tool :=
  match getAvailableTools env with
  | inr dbNativeTools => dbNativeTools
  | inl _ => []
  end.

End RegistrySamples.

(** * Vocabulary of the further properties *)

Section InstructionVocabulary.
Import McpClient ToolRegistry.

(** The first line of every instruction. *)
Definition instruction_header (toolName : value) : string :=
  "To use the '" +:+ ToString toolName +:+
  "' tool, provide the following parameters in the payload as a JSON object:" +:+ nl.

(** The test of lines 24-30 on [schema.properties]: exactly one property,
    named [inputSchema], an object whose own [properties] is truthy. *)
Definition is_wrapped (properties : value) : bool :=
  truthy properties
  && Nat.eqb (length (entries properties)) 1
  && truthy (get_opt properties "inputSchema")
  && String.eqb (typeof (get_opt properties "inputSchema")) "object"
  && truthy (get_opt (get_opt properties "inputSchema") "properties").

(** Lines 36-46: the instruction written for the properties and the
    [required] list that lines 32-35 settled on. *)
Definition instruction_for (toolName actualProperties actualRequired : value)
  : result string :=
  (if truthy actualProperties && Nat.ltb 0 (length (entries actualProperties)) then
     try! lines <- traverse (parameter_line actualRequired) (entries actualProperties);
     ret (instruction_header toolName +:+ String.concat "" lines)
   else ret (instruction_header toolName +:+ no_parameters))%js.

(** [s] ends with [x]. *)
Definition ends_with (x s : string) : Prop :=
  list_ascii_of_string x `suffix_of` list_ascii_of_string s.

(** What [v?.includes(x)] accepts as [v]: nothing, a sequence, a string. *)
Definition has_includes (required : value) : bool :=
  match required with
  | VUndefined | VNull | VArr _ | VStr _ => true
  | _ => false
  end.

(** [paramName] counts as listed in [required]. *)
Definition listed (required : value) (paramName : string) : Prop :=
  match required with
  | VArr names => VStr paramName ∈ names
  | VStr s => contains paramName s = true
  | _ => False
  end.

(** The schema of the scrape tool, and the same schema wrapped once more. *)
Definition scrape_schema : value :=
  VObj [("type", VStr "object");
        ("properties",
         VObj [("url", VObj [("type", VStr "string");
                             ("description", VStr "The URL to scrape")]);
               ("formats", VObj [("type", VStr "array")])]);
        ("required", VArr [VStr "url"])].

Definition wrapped_schema : value :=
  VObj [("type", VStr "object");
        ("properties", VObj [("inputSchema", scrape_schema)])].

(** The schema of the scrape tool under two wrappers. *)
Definition twice_wrapped_schema : value :=
  VObj [("type", VStr "object");
        ("properties", VObj [("inputSchema", wrapped_schema)])].





(** The persisted catalog cannot be read; the server is the shipped one. *)
Definition env_no_database : Env :=
  {| nativeToolsMapConfig := toolsMap;
     getAvailableTools := inl (External "SQLITE_CANTOPEN: unable to open database file");
     mcpServerRegistry := [firecrawl];
     sdk := sdk_answering (VObj [("tools", VArr [scrape_tool; search_tool])]) VNull;
     uuidv4 := uuid_of_draw |}.

(** Two servers whose ids differ and whose keys meet: [a/b] + [c] and
    [a] + [b/c]. *)
Definition slashed_server : McpServerConfig :=
  {| sc_id := "a/b"; sc_name := "A"; sc_address := None; sc_transport_type := "stdio";
     sc_command := Some "a"; sc_args := None; sc_env := None; sc_enabled := true;
     sc_description := None |}.

Definition plain_server : McpServerConfig :=
  {| sc_id := "a"; sc_name := "A"; sc_address := None; sc_transport_type := "stdio";
     sc_command := Some "a"; sc_args := None; sc_env := None; sc_enabled := true;
     sc_description := None |}.

(** A static map with an executor stored under the own key [__proto__],
    and a persisted catalog with the entry of that name. *)
Definition proto_tool : Tool :=
  {| uuid := "9f3d"; name := "__proto__"; description := VStr "Prototype access";
     instruction := "Use the read action." |}.

Definition env_own_proto : Env :=
  {| nativeToolsMapConfig := <["__proto__" := Native "protoService"]> toolsMap;
     getAvailableTools := inr [proto_tool];
     mcpServerRegistry := [];
     sdk := sdk_answering (VObj [("tools", VArr [])]) VNull;
     uuidv4 := uuid_of_draw |}.

End InstructionVocabulary.

Section CompletionVocabulary.
Import ActionService.


(** The database of [healthy] five minutes on. *)
Definition later : Db :=
  {| now := "2025-05-01T00:05:00.000Z";
     next_document_uuid := next_document_uuid healthy;
     update_fault := None; createDocument_fault := None;
     insert_fault := None; query_fault := None |}.

End CompletionVocabulary.

Section RouteVocabulary.
Import Hono.

(** [p] is not empty and its last code unit is not white space. *)
Fixpoint ends_in_text (p : string) : bool :=
  match p with
  | EmptyString => false
  | String c EmptyString => negb (Naming.is_space c)
  | String _ p' => ends_in_text p'
  end.

(** A response says what happened: [success] is true exactly with status
    200, and every other status comes with an [error] text. *)
Definition tells_outcome (r : Response) : Prop :=
  get_opt (body r) "success" = VBool (Nat.eqb (status r) 200)
  /\ (status r = 200%nat \/ exists text, get_opt (body r) "error" = VStr text)
  /\ status r ∈ [200; 400; 404; 500]%nat.

(** A cron service that stores nothing and answers every request. *)
Definition cron_echo : Cron.cronService :=
  {| Cron.createJob := fun job => inr (VObj [("schedule", VStr (Cron.cj_schedule job))]);
     Cron.getJob := fun _ => inr VNull;
     Cron.cancelJob := fun _ => None |}.

(** A request for a job at a date, with a cron expression beside it and a
    description of its own in the metadata. *)
Definition dated_job : Cron.CreateJobSchema :=
  {| Cron.name := "standup"; Cron.description := "Daily standup";
     Cron.type := Cron.type_scheduled;
     Cron.schedule := Some "0 9 * * *";
     Cron.due_date := Some "2025-05-01T09:00:00Z";
     Cron.metadata := Some [("description", VStr "from metadata"); ("room", VNum 4)] |}.

(** What [POST /] asks of the cron service for [dated_job], with the uuid
    [task-1] drawn. *)
Definition posted_job : Cron.CreateJob :=
  {| Cron.cj_name := "standup"; Cron.cj_type := Cron.type_scheduled;
     Cron.cj_schedule := "2025-05-01T09:00:00Z"; Cron.cj_task_uuid := "task-1";
     Cron.cj_metadata := [("description", VStr "from metadata"); ("room", VNum 4)] |}.

(** A chat request whose last message asks for a name. *)
Definition naming_request : value :=
  VObj [("messages",
         VArr [VObj [("role", VStr "user"); ("content", VStr "Hello")];
               VObj [("role", VStr "user");
                     ("content", VStr "  Name the following conversation")]])].

End RouteVocabulary.

(** * Properties *)

(** ** callTool *)

Section CallTool.
Import McpClient.

(** C3, as stated, fails: when the answer of the server has no [content]
    field, [callTool] returns [undefined], not the answer. *)
Lemma callTool_without_content_is_undefined :
  sdk_callTool (sdk_answering VNull toolResult_response) sample_client
    (VObj [("name", VStr "firecrawl_search"); ("arguments", VObj [])])
    = inr toolResult_response
  /\ get_opt toolResult_response "content" = VUndefined
  /\ (callTool (sdk_answering VNull toolResult_response) sample_client
        "firecrawl_search" (VObj []) (sc_id firecrawl) mcpClientService).1
     = inr VUndefined
  /\ (callTool (sdk_answering VNull toolResult_response) sample_client
        "firecrawl_search" (VObj []) (sc_id firecrawl) mcpClientService).1
     <> inr toolResult_response.
Proof. repeat split; try reflexivity. discriminate. Qed.

(** C3, amended: [callTool] forwards [{name, arguments: payload}] to the
    session and returns the [content] field of the answer; when the answer is
    an object without a [content] field it returns [undefined]. *)
Theorem callTool_returns_content
    (sdk : Sdk) (client : Client) (toolName : string) (payload : value)
    (serverId : string) (s : Service) (response : value) :
  sdk_callTool sdk client (VObj [("name", VStr toolName); ("arguments", payload)])
    = inr response ->
  let out := callTool sdk client toolName payload serverId s in
  effects out.2 =
    effects s ++ [CallTool serverId (VObj [("name", VStr toolName); ("arguments", payload)])]
    ++ (if nullish response then [failed_to_call toolName serverId] else [])
  /\ (forall ps v, response = VObj ps -> assoc "content" ps = Some v -> out.1 = inr v)
  /\ (forall ps, response = VObj ps -> assoc "content" ps = None -> out.1 = inr VUndefined).
Proof.
  intros Hsdk. unfold callTool, callTool_request. cbn zeta. rewrite Hsdk. cbn [bind].
  destruct response; cbn; rewrite <- ?app_assoc; cbn;
    (split; [first [reflexivity | by rewrite app_nil_r] |]);
    split; intros; simplify_eq.
  - by rewrite H0.
  - by rewrite H0.
Qed.

Lemma callTool_returns_content_witness :
  (callTool (sdk_answering VNull content_response) sample_client "firecrawl_search"
     (VObj []) (sc_id firecrawl) mcpClientService).1
  = inr (VArr [VObj [("type", VStr "text"); ("text", VStr "42")]]).
Proof.
  refine (proj1 (proj2 (callTool_returns_content (sdk_answering VNull content_response)
            sample_client "firecrawl_search" (VObj []) (sc_id firecrawl) mcpClientService
            content_response _)) _ _ _ _); reflexivity.
Defined.

End CallTool.

(** ** updateActionWithResult *)

Section ActionResult.
Import ActionService.

Lemma text_part_spec (v : value) (text : string) :
  text_part v = Some text <->
  exists fs, v = VObj fs /\ assoc "type" fs = Some (VStr "text")
             /\ assoc "text" fs = Some (VStr text).
Proof.
  unfold text_part. split.
  - destruct v; cbn; try discriminate.
    destruct (assoc "type" props) as [[]|] eqn:Ht; cbn; try discriminate.
    destruct (assoc "text" props) as [[]|] eqn:Hx; cbn; try discriminate.
    destruct (String.eqb_spec s "text"); try discriminate.
    intros [= <-]. subst. eauto.
  - intros (fs & -> & Ht & Hx). cbn. by rewrite Ht, Hx.
Qed.

Lemma text_first_spec (ps : list (string * value)) (first : value) (rest : list value)
    (text : string) :
  assoc "content" ps = Some (VArr (first :: rest)) ->
  text_first (VObj ps) text <-> text_part first = Some text.
Proof.
  intros Hc. rewrite text_part_spec. unfold text_first. split.
  - intros (ps' & fs & rest' & [= <-] & Hc' & Ht & Hx).
    rewrite Hc in Hc'. injection Hc' as -> ->. eauto.
  - intros (fs & -> & Ht & Hx). eauto 10.
Qed.

(** C4, as stated, fails: an object whose [content] is a string, a number
    or an empty sequence has a [content] field that is not of the shape of
    rule 2, and its text is the field digest, not its serialization. *)
Lemma content_string_is_digested :
  get_opt content_string "content" = VStr "hello"
  /\ (forall text, ~ text_first content_string text)
  /\ extracted_text_content content_string = Some "content: hello"
  /\ JSON_stringify content_string
     = Some ("{" +:+ quote "content" +:+ ":" +:+ quote "hello" +:+ "}")
  /\ extracted_text_content content_string <> JSON_stringify content_string
  /\ extracted_text_content content_number = Some "content: 7"
  /\ extracted_text_content content_number <> JSON_stringify content_number
  /\ extracted_text_content content_empty = Some "content: "
  /\ extracted_text_content content_empty <> JSON_stringify content_empty.
Proof.
  repeat split; try reflexivity; try (vm_compute; discriminate).
  intros text (ps & fs & rest & [= <-] & Hc & _). vm_compute in Hc. discriminate.
Qed.

(** C4, amended: a string is used verbatim; an object whose [content] is a
    non-empty sequence whose first element has [type == "text"] and a string
    [text] yields that text; an object whose [content] is a non-empty
    sequence with any other first element yields the serialization of the
    raw result; an object whose [content] is anything else (a string, any
    other non-array, an empty sequence) is treated like an object without
    [content]: the field digest, or the serialization when the digest is
    empty. *)
Theorem canonical_text_rules (r : value) :
  (forall s, r = VStr s -> extracted_text_content r = Some s)
  /\ (forall text, text_first r text -> extracted_text_content r = Some text)
  /\ (forall ps first rest,
        r = VObj ps -> assoc "content" ps = Some (VArr (first :: rest)) ->
        (forall text, ~ text_first r text) ->
        extracted_text_content r = JSON_stringify r)
  /\ (forall ps c,
        r = VObj ps -> assoc "content" ps = Some c ->
        (forall first rest, c <> VArr (first :: rest)) ->
        extracted_text_content r
        = if String.eqb (digest r) "" then JSON_stringify r else Some (digest r)).
Proof.
  split; [| split; [| split]].
  - by intros s ->.
  - intros text (ps & fs & rest & -> & Hc & Ht & Hx).
    cbn [extracted_text_content get_opt]. rewrite Hc. cbn -[text_part digest JSON_stringify].
    assert (text_part (VObj fs) = Some text) as ->; [| done].
    apply text_part_spec. eauto.
  - intros ps first rest -> Hc Hno.
    cbn [extracted_text_content get_opt]. rewrite Hc. cbn -[text_part digest JSON_stringify].
    destruct (text_part first) as [text|] eqn:Hp; [| done].
    exfalso. apply (Hno text). by apply (text_first_spec ps first rest).
  - intros ps c -> Hc Hno. cbn [extracted_text_content get_opt]. rewrite Hc.
    cbn -[text_part digest JSON_stringify].
    destruct c as [| | | | |[|first rest]|]; try reflexivity.
    by destruct (Hno first rest).
Qed.

Lemma canonical_text_rules_witness :
  extracted_text_content content_text = Some "42"
  /\ extracted_text_content content_image = JSON_stringify content_image
  /\ extracted_text_content content_string = Some "content: hello".
Proof.
  split; [| split].
  - apply (proj1 (proj2 (canonical_text_rules content_text))).
    exists [("content", VArr [VObj [("type", VStr "text"); ("text", VStr "42")]])],
           [("type", VStr "text"); ("text", VStr "42")], [].
    repeat split.
  - refine (proj1 (proj2 (proj2 (canonical_text_rules content_image))) _ _ _ eq_refl eq_refl _).
    intros text (ps & fs & rest & [= <-] & Hc & Ht & _).
    injection Hc as <- <-. discriminate Ht.
  - refine (proj2 (proj2 (proj2 (canonical_text_rules content_string))) _ _ eq_refl eq_refl _).
    intros first rest. discriminate.
Defined.

(** *** The transaction *)

Lemma filter_matches_updated (db : Db) (id : string) (text : option string) (l : list Action) :
  List.filter (matches id) (map (fun a => if matches id a then complete db text a else a) l)
  = map (complete db text) (List.filter (matches id) l).
Proof.
  induction l as [|a l IH]; [done|]. cbn [map List.filter].
  destruct (matches id a) eqn:E.
  - assert (matches id (complete db text a) = true) as -> by exact E.
    cbn [map]. by rewrite IH.
  - by rewrite E.
Qed.

(** A throw inside the callback leaves the tables written through [tx] as
    they were. *)
Lemma updateActionWithResult_rollback (db : Db) (id : string) (raw : value) (st st' : Store)
    (e : Error) :
  updateActionWithResult db id raw st = (inl e, st') ->
  actions st' = actions st /\ actionDocuments st' = actionDocuments st.
Proof.
  unfold updateActionWithResult, transaction.
  destruct (updateActionWithResult_tx db id raw st) as [[e'|a] st'']; by intros [= _ <-].
Qed.

(** What a call that returns has done. *)
Lemma updateActionWithResult_commit (db : Db) (id : string) (raw : value) (st st' : Store)
    (a : ActionWithDocuments) :
  updateActionWithResult db id raw st = (inr a, st') ->
  exists first rest,
    List.filter (matches id) (actions st) = first :: rest
    /\ action a = complete db (extracted_text_content raw) first
    /\ actions st' = updated db id raw st
    /\ match extracted_text_content raw with
       | Some t =>
           if truthy (VStr t) then
             documents st' = documents st ++ [document_for db st (action a) t]
             /\ actionDocuments st'
                = actionDocuments st
                  ++ [{| action_uuid := uuid (action a);
                         document_uuid := next_document_uuid db (documents st) |}]
             /\ linked_documents a = links_of (action a) st'
           else documents st' = documents st
                /\ actionDocuments st' = actionDocuments st
                /\ linked_documents a = []
       | None => documents st' = documents st
                 /\ actionDocuments st' = actionDocuments st
                 /\ linked_documents a = []
       end.
Proof.
  unfold updateActionWithResult, transaction, updateActionWithResult_tx, update_actions.
  destruct (update_fault db); [by intros [=]|].
  destruct (List.filter (matches id) (actions st)) as [|first rest] eqn:Hf; [by intros [=]|].
  cbn [map]. intros H. exists first, rest. split; [done|].
  destruct (extracted_text_content raw) as [t|] eqn:Ht.
  - destruct (truthy (VStr t)) eqn:Htruthy.
    + unfold createDocument in H. destruct (createDocument_fault db); [by inversion H|].
      destruct (insert_fault db); [by inversion H|].
      destruct (query_fault db); [by inversion H|].
      unfold findMany, insert_actionDocument in H. cbn [actions actionDocuments documents] in H.
      rewrite filter_matches_updated, Hf in H. cbn [map] in H.
      injection H as <- <-. cbn. unfold updated. rewrite Ht. by repeat split.
    + injection H as <- <-. cbn. unfold updated. rewrite Ht. by repeat split.
  - injection H as <- <-. cbn. unfold updated. rewrite Ht. by repeat split.
Qed.

(** A call on a known action returns when no request is rejected. *)
Lemma updateActionWithResult_returns (db : Db) (id : string) (raw : value) (st : Store)
    (first : Action) (rest : list Action) :
  no_faults db ->
  List.filter (matches id) (actions st) = first :: rest ->
  exists a st', updateActionWithResult db id raw st = (inr a, st').
Proof.
  intros (Hu & Hc & Hi & Hq) Hf.
  unfold updateActionWithResult, transaction, updateActionWithResult_tx, update_actions,
    createDocument.
  rewrite Hu, Hf, Hc, Hi, Hq. cbn [map].
  destruct (extracted_text_content raw) as [t|]; [|eauto].
  destruct (truthy (VStr t)); [|eauto].
  unfold findMany, insert_actionDocument. cbn [actions actionDocuments documents].
  rewrite filter_matches_updated, Hf. cbn [map]. eauto.
Qed.

Lemma same_tables (st : Store) :
  {| actions := actions st; actionDocuments := actionDocuments st;
     documents := documents st |} = st.
Proof. by destruct st. Qed.

(** The document service rejecting undoes the status write. *)
Lemma updateActionWithResult_document_failure (db : Db) (id : string) (raw : value)
    (st : Store) (first : Action) (rest : list Action) (t : string) (e : Error) :
  update_fault db = None ->
  List.filter (matches id) (actions st) = first :: rest ->
  extracted_text_content raw = Some t -> t <> "" ->
  createDocument_fault db = Some e ->
  updateActionWithResult db id raw st = (inl e, st).
Proof.
  intros Hu Hf Ht Hne Hc.
  unfold updateActionWithResult, transaction, updateActionWithResult_tx, update_actions,
    createDocument.
  rewrite Hu, Hf, Ht, Hc. cbn [map truthy].
  destruct (String.eqb_spec t ""); [done|]. cbn. by rewrite same_tables.
Qed.

Lemma find_document_new (st : Store) (docs : list Document) (d : Document) :
  documents st = docs ++ [d] ->
  doc_uuid d ∉ map doc_uuid docs ->
  find_document (doc_uuid d) st = Some d.
Proof.
  unfold find_document. intros -> Hfresh.
  induction docs as [|d0 docs IH]; cbn.
  - by rewrite String.eqb_refl.
  - destruct (String.eqb_spec (doc_uuid d0) (doc_uuid d)) as [Heq|_].
    + exfalso. apply Hfresh. cbn. rewrite Heq. left.
    + apply IH. intros Hin. apply Hfresh. cbn. by right.
Qed.

Lemma known_action (id : string) (l : list Action) (a0 : Action) :
  a0 ∈ l -> uuid a0 = id -> exists first rest, List.filter (matches id) l = first :: rest.
Proof.
  intros Hin Hid.
  destruct (List.filter (matches id) l) as [|first rest] eqn:Hf; [|eauto].
  exfalso. assert (In a0 (List.filter (matches id) l)) as Hin'.
  { apply filter_In. split; [by apply list_elem_of_In|].
    unfold matches. rewrite Hid. apply String.eqb_refl. }
  by rewrite Hf in Hin'.
Qed.



(** C10, as stated, fails: [undefined] and the empty string are falsy
    results too, and both complete the action without a document. *)
Lemma undefined_result_completes_without_document :
  truthy VUndefined = false
  /\ updateActionWithResult healthy "a-1" VUndefined one_action
     = (inr {| action := complete healthy None pending_action; linked_documents := [] |},
        {| actions := [complete healthy None pending_action];
           actionDocuments := []; documents := [] |})
  /\ status (complete healthy None pending_action) = completed
  /\ truthy (VStr "") = false
  /\ updateActionWithResult healthy "a-1" (VStr "") one_action
     = (inr {| action := complete healthy (Some "") pending_action;
               linked_documents := [] |},
        {| actions := [complete healthy (Some "") pending_action];
           actionDocuments := []; documents := [] |}).
Proof. repeat split. Qed.

(** C10, amended: the falsy results are [null], [false], [0], [undefined]
    and the empty string.  For the first three the text is the JSON
    serialization of the value ([null], [false], [0]), which is not empty,
    so a call that completes the action (the one of the given uuid) creates
    and links a document carrying that text; for [undefined] and the empty
    string the action is completed without a document.  The call does
    return when the action exists and no request is rejected. *)
Theorem falsy_results_and_their_documents (db : Db) (id : string) (raw : value)
    (st : Store) :
  truthy raw = false ->
  (raw = VNull \/ raw = VBool false \/ raw = VNum 0 \/ raw = VUndefined \/ raw = VStr "")
  /\ (raw = VNull \/ raw = VBool false \/ raw = VNum 0 ->
      exists t,
        t = match raw with VNull => "null" | VBool _ => "false" | _ => "0" end
        /\ JSON_stringify raw = Some t
        /\ extracted_text_content raw = Some t
        /\ t <> ""
        /\ (forall a st',
              updateActionWithResult db id raw st = (inr a, st') ->
              let d := document_for db st (action a) t in
              uuid (action a) = id
              /\ status (action a) = completed
              /\ result (action a) = Some t
              /\ linked_documents a <> []
              /\ d ∈ documents st'
              /\ doc_text d = t
              /\ {| action_uuid := uuid (action a); document_uuid := doc_uuid d |}
                 ∈ actionDocuments st'
              /\ (doc_uuid d ∉ map doc_uuid (documents st) ->
                  Some d ∈ linked_documents a)))
  /\ (raw = VUndefined \/ raw = VStr "" ->
      forall a st',
        updateActionWithResult db id raw st = (inr a, st') ->
        uuid (action a) = id
        /\ status (action a) = completed
        /\ linked_documents a = []
        /\ documents st' = documents st
        /\ actionDocuments st' = actionDocuments st)
  /\ (no_faults db ->
      (exists a0, a0 ∈ actions st /\ uuid a0 = id) ->
      exists a st', updateActionWithResult db id raw st = (inr a, st')).
Proof.
  intros Hfalsy.
  assert (forall a st',
            updateActionWithResult db id raw st = (inr a, st') -> uuid (action a) = id)
    as Hid.
  { intros a st' Hcall.
    apply updateActionWithResult_commit in Hcall as (first & rest & Hf & Ha & _).
    rewrite Ha. cbn.
    assert (In first (List.filter (matches id) (actions st))) as Hin
      by (rewrite Hf; by left).
    apply List.filter_In in Hin as [_ Hm]. by apply String.eqb_eq in Hm. }
  split; [|split; [|split]].
  - destruct raw as [| |[|]|n|s|l|ps]; try discriminate; auto.
    + cbn in Hfalsy. apply negb_false_iff, Z.eqb_eq in Hfalsy as ->. auto.
    + cbn in Hfalsy. apply negb_false_iff, String.eqb_eq in Hfalsy as ->. auto 6.
  - intros Hraw.
    exists (match raw with VNull => "null" | VBool _ => "false" | _ => "0" end).
    assert (extracted_text_content raw
            = Some (match raw with VNull => "null" | VBool _ => "false" | _ => "0" end)
            /\ JSON_stringify raw
               = Some (match raw with VNull => "null" | VBool _ => "false" | _ => "0" end)
            /\ match raw with VNull => "null" | VBool _ => "false" | _ => "0" end <> "")
      as (Ht & Hj & Hne).
    { destruct Hraw as [->|[->| ->]]; repeat split; discriminate. }
    set (t := match raw with VNull => "null" | VBool _ => "false" | _ => "0" end) in *.
    repeat (split; [done|]).
    intros a st' Hcall. pose proof (Hid a st' Hcall) as Huuid.
    apply updateActionWithResult_commit in Hcall
      as (first & rest & _ & Ha & _ & Hcommit).
    rewrite Ht in Hcommit, Ha. cbn [truthy] in Hcommit.
    destruct (String.eqb_spec t ""); [done|]. cbn [negb] in Hcommit.
    destruct Hcommit as (Hdocs & Hlinks & Hlinked).
    assert (status (action a) = completed) as Hstatus by (by rewrite Ha).
    assert (result (action a) = Some t) as Hres by (by rewrite Ha).
    cbn zeta. repeat (split; [done|]).
    assert (exists front, linked_documents a
              = front ++ [find_document (next_document_uuid db (documents st)) st'])
      as [front Hfront].
    { rewrite Hlinked. unfold links_of. rewrite Hlinks, List.filter_app, map_app.
      cbn. rewrite String.eqb_refl. cbn. eauto. }
    split; [rewrite Hfront; by destruct front|].
    split; [rewrite Hdocs, elem_of_app, list_elem_of_singleton; by right|].
    split; [done|].
    split; [rewrite Hlinks, elem_of_app, list_elem_of_singleton; by right|].
    intros Hfresh. rewrite Hfront.
    pose proof (find_document_new st' (documents st) (document_for db st (action a) t)
                  Hdocs Hfresh) as Hfind.
    cbn [doc_uuid document_for] in Hfind. rewrite Hfind.
    rewrite elem_of_app, list_elem_of_singleton. by right.
  - intros Hraw a st' Hcall. split; [by apply (Hid a st')|].
    apply updateActionWithResult_commit in Hcall
      as (first & rest & _ & Ha & _ & Hcommit).
    split; [by rewrite Ha|].
    destruct Hraw as [->| ->]; cbn in Hcommit; by destruct Hcommit as (? & ? & ?).
  - intros Hok (a0 & Hin & Hid0).
    destruct (known_action id (actions st) a0 Hin Hid0) as (first & rest & Hf).
    by apply (updateActionWithResult_returns db id raw st first rest).
Qed.

Lemma falsy_results_and_their_documents_witness :
  exists a st',
    updateActionWithResult healthy "a-1" VNull one_action = (inr a, st')
    /\ linked_documents a <> []
    /\ result (action a) = Some "null".
Proof.
  destruct (falsy_results_and_their_documents healthy "a-1" VNull one_action eq_refl)
    as (_ & Hdocumented & _ & Hreturns).
  destruct (Hdocumented (or_introl eq_refl)) as (t & -> & _ & _ & _ & Hdone).
  destruct Hreturns as (a & st' & Hcall).
  - repeat split.
  - exists pending_action. split; [left | reflexivity].
  - exists a, st'. destruct (Hdone a st' Hcall) as (_ & _ & Hres & Hlinked & _). done.
Defined.

End ActionResult.

(** ** The connection manager *)

Section ConnectionManager.
Import McpClient.

Ltac service_fields :=
  unfold settle, mark_resumed, set_attempts, set_connectingPromises, set_clients, emit,
    emit_all;
  cbn [clients connectingPromises attempts effects fst snd
       att_config att_client att_promise att_resumed].

Lemma lookup_new_attempt (l : list Attempt) (a : Attempt) :
  (l ++ [a]) !! length l = Some a.
Proof. by apply list_lookup_middle. Qed.

Lemma alter_new_attempt (f : Attempt -> Attempt) (l : list Attempt) (a : Attempt) :
  alter f (length l) (l ++ [a]) = l ++ [f a].
Proof.
  replace (length l) with (length l + 0)%nat by lia. by rewrite alter_app_r.
Qed.

(** A call for a server that has a client returns it and does nothing else. *)
Ltac attempt_steps :=
  repeat (progress (service_fields;
                    rewrite ?lookup_new_attempt, ?alter_new_attempt;
                    cbn [fmap option_fmap option_map default from_option id fst snd])).

Lemma getClient_cached (sdk : Sdk) (cfg : McpServerConfig) (s : Service) (c : Client) :
  clients s !! sc_id cfg = Some c -> getClient sdk cfg s = (inr c, s).
Proof. intros H. unfold getClient, getClient_enter. by rewrite H. Qed.

(** A call for a server without client or pending attempt, run to its end:
    what it returns and the state it leaves, by the transport chosen and the
    outcome of the connect. *)
Lemma getClient_fresh (sdk : Sdk) (cfg : McpServerConfig) (s : Service) :
  clients s !! sc_id cfg = None ->
  connectingPromises s !! sc_id cfg = None ->
  getClient sdk cfg s =
  match select_transport cfg with
  | inl e =>
      (inl e,
       {| clients := clients s; connectingPromises := connectingPromises s;
          attempts := attempts s ++ [{| att_config := cfg; att_client := None;
                                        att_promise := Rejected e; att_resumed := true |}];
          effects := effects s ++ transport_warnings cfg ++ [failed_to_connect cfg] |})
  | inr t =>
      let c := {| client_name := sc_name cfg +:+ "-client"; client_version := "1.0.0";
                  transport := t; handle := length (attempts s) |} in
      match sdk_connect sdk c with
      | None =>
          (inr c,
           {| clients := <[sc_id cfg := c]> (clients s);
              connectingPromises := connectingPromises s;
              attempts := attempts s ++ [{| att_config := cfg; att_client := Some c;
                                            att_promise := Fulfilled c;
                                            att_resumed := true |}];
              effects := effects s ++ [Connect (sc_id cfg)] |})
      | Some e =>
          (inl e,
           {| clients := clients s; connectingPromises := connectingPromises s;
              attempts := attempts s ++ [{| att_config := cfg; att_client := Some c;
                                            att_promise := Rejected e;
                                            att_resumed := true |}];
              effects := (effects s ++ [Connect (sc_id cfg)]) ++ [failed_to_connect cfg] |})
      end
  end.
Proof.
  intros Hc Hp. unfold getClient, getClient_enter, establishConnection.
  rewrite Hc, Hp.
  destruct (select_transport cfg) as [e|t]; cbn zeta.
  - generalize (transport_warnings cfg ++ [failed_to_connect cfg]). intros ws.
    unfold establishConnection_settle, sdk_outcome, getClient_resume, settled.
    attempt_steps.
    by rewrite delete_insert_eq, !delete_id by (by rewrite ?delete_id).
  - unfold establishConnection_settle, sdk_outcome, getClient_resume, settled.
    attempt_steps.
    destruct (sdk_connect sdk _) as [e|]; attempt_steps.
    + by rewrite delete_insert_eq, !delete_id by (by rewrite ?delete_id).
    + by rewrite delete_insert_eq, !delete_id by (by rewrite ?delete_id).
Qed.

Lemma unsupported_kind (cfg : McpServerConfig) :
  error_kind cfg (Thrown (msg_unsupported cfg)) = NotImplemented.
Proof. unfold error_kind, msg_unsupported. cbn. by rewrite String.eqb_refl. Qed.

Lemma getClient_refuses (sdk : Sdk) (cfg : McpServerConfig) (s : Service) (e : Error) :
  clients s !! sc_id cfg = None ->
  connectingPromises s !! sc_id cfg = None ->
  select_transport cfg = inl e ->
  refuses sdk cfg s e (error_kind cfg e) (transport_warnings cfg).
Proof.
  intros Hc Hp He. unfold refuses. by rewrite (getClient_fresh sdk cfg s Hc Hp), He.
Qed.

(** C7: a stdio server without a command and an http server without an
    address are refused with a Configuration error, any other transport kind
    (and http with an address, which is not implemented and says so in a
    warning) with a NotImplemented error; in each case [client.connect] is
    never called (no process is spawned), no client is stored and no pending
    entry is left behind. *)
Theorem getClient_rejects_unusable_config (sdk : Sdk) (cfg : McpServerConfig) (s : Service) :
  clients s !! sc_id cfg = None ->
  connectingPromises s !! sc_id cfg = None ->
  (sc_transport_type cfg = "stdio" -> missing (sc_command cfg) = true ->
   refuses sdk cfg s (Thrown msg_stdio_no_command) Configuration [])
  /\ (sc_transport_type cfg = "http" -> missing (sc_address cfg) = true ->
      refuses sdk cfg s (Thrown msg_http_no_address) Configuration [])
  /\ (sc_transport_type cfg = "http" -> missing (sc_address cfg) = false ->
      refuses sdk cfg s (Thrown msg_http_not_implemented) NotImplemented
        [http_is_conceptual cfg])
  /\ (sc_transport_type cfg <> "stdio" -> sc_transport_type cfg <> "http" ->
      refuses sdk cfg s (Thrown (msg_unsupported cfg)) NotImplemented [])
  /\ (forall e, select_transport cfg = inl e ->
      connects (sc_id cfg) (getClient sdk cfg s).2 = connects (sc_id cfg) s).
Proof.
  intros Hc Hp. split; [| split; [| split; [| split]]].
  - intros Ht Hm.
    replace [] with (transport_warnings cfg)
      by (unfold transport_warnings, choose_transport; by rewrite Ht, Hm).
    apply (getClient_refuses sdk cfg s (Thrown msg_stdio_no_command) Hc Hp).
    unfold select_transport, choose_transport. by rewrite Ht, Hm.
  - intros Ht Hm.
    replace [] with (transport_warnings cfg)
      by (unfold transport_warnings, choose_transport; by rewrite Ht, Hm).
    apply (getClient_refuses sdk cfg s (Thrown msg_http_no_address) Hc Hp).
    unfold select_transport, choose_transport. by rewrite Ht, Hm.
  - intros Ht Hm.
    replace [http_is_conceptual cfg] with (transport_warnings cfg)
      by (unfold transport_warnings, choose_transport; by rewrite Ht, Hm).
    apply (getClient_refuses sdk cfg s (Thrown msg_http_not_implemented) Hc Hp).
    unfold select_transport, choose_transport. by rewrite Ht, Hm.
  - intros Hs Hh. rewrite <- (unsupported_kind cfg).
    replace [] with (transport_warnings cfg).
    2:{ unfold transport_warnings, choose_transport.
        destruct (String.eqb_spec (sc_transport_type cfg) "stdio"); [done|].
        by destruct (String.eqb_spec (sc_transport_type cfg) "http"). }
    apply (getClient_refuses sdk cfg s (Thrown (msg_unsupported cfg)) Hc Hp).
    unfold select_transport, choose_transport.
    destruct (String.eqb_spec (sc_transport_type cfg) "stdio"); [done|].
    by destruct (String.eqb_spec (sc_transport_type cfg) "http").
  - intros e He. rewrite (getClient_fresh sdk cfg s Hc Hp), He.
    unfold connects. cbn. rewrite !List.filter_app, !length_app.
    assert (List.filter (fun e0 => match e0 with
                                   | Connect i => String.eqb i (sc_id cfg)
                                   | _ => false
                                   end) (transport_warnings cfg) = []) as ->.
    { unfold transport_warnings, choose_transport.
      destruct (String.eqb _ "stdio"); [by destruct (missing _)|].
      destruct (String.eqb _ "http"); [|done].
      by destruct (missing _). }
    cbn. lia.
Qed.

Lemma getClient_rejects_unusable_config_witness :
  refuses sdk_unreachable no_command mcpClientService
    (Thrown msg_stdio_no_command) Configuration []
  /\ refuses sdk_unreachable no_address mcpClientService
       (Thrown msg_http_no_address) Configuration []
  /\ refuses sdk_unreachable http_calculator mcpClientService
       (Thrown msg_http_not_implemented) NotImplemented
       [http_is_conceptual http_calculator]
  /\ refuses sdk_unreachable websocket mcpClientService
       (Thrown (msg_unsupported websocket)) NotImplemented [].
Proof.
  split; [| split; [| split]].
  - apply (getClient_rejects_unusable_config sdk_unreachable no_command mcpClientService);
      reflexivity.
  - apply (getClient_rejects_unusable_config sdk_unreachable no_address mcpClientService);
      reflexivity.
  - apply (getClient_rejects_unusable_config sdk_unreachable http_calculator
             mcpClientService); reflexivity.
  - apply (getClient_rejects_unusable_config sdk_unreachable websocket mcpClientService);
      [reflexivity | reflexivity | discriminate | discriminate].
Defined.

(** *** The trace *)

Lemma grows_refl (s : Service) : grows s s.
Proof. exists []. by rewrite app_nil_r. Qed.

Lemma grows_trans (s1 s2 s3 : Service) : grows s1 s2 -> grows s2 s3 -> grows s1 s3.
Proof. intros [l1 H1] [l2 H2]. exists (l1 ++ l2). by rewrite H2, H1, app_assoc. Qed.

Lemma grows_emit (e : Event) (s : Service) : grows s (emit e s).
Proof. by exists [e]. Qed.

Lemma grows_elem (s s' : Service) (e : Event) :
  grows s s' -> e ∈ effects s -> e ∈ effects s'.
Proof. intros [l ->] He. apply elem_of_app. by left. Qed.

Lemma establishConnection_grows (cfg : McpServerConfig) (s : Service) :
  grows s (establishConnection cfg s).2.
Proof.
  unfold establishConnection. destruct (select_transport cfg); cbn; by eexists.
Qed.

Lemma getClient_enter_grows (cfg : McpServerConfig) (s : Service) :
  grows s (getClient_enter cfg s).2.
Proof.
  unfold getClient_enter.
  destruct (clients s !! sc_id cfg); [apply grows_refl|].
  destruct (connectingPromises s !! sc_id cfg); [apply grows_refl|].
  pose proof (establishConnection_grows cfg s) as H.
  by destruct (establishConnection cfg s).
Qed.

Lemma establishConnection_settle_grows (p : nat) (outcome : option Error) (s : Service) :
  grows s (establishConnection_settle p outcome s).
Proof.
  unfold establishConnection_settle.
  destruct (attempts s !! p) as [[cfg [c|] [] resumed]|]; try apply grows_refl.
  destruct outcome; [by eexists|]. exists []. cbn. by rewrite app_nil_r.
Qed.

Lemma getClient_resume_grows (p : nat) (s : Service) :
  grows s (getClient_resume p s).2.
Proof.
  unfold getClient_resume.
  destruct (attempts s !! p) as [[cfg c [] []]|]; cbn;
    first [apply grows_refl | exists []; cbn; by rewrite app_nil_r].
Qed.

Lemma getClient_grows (sdk : Sdk) (cfg : McpServerConfig) (s : Service) :
  grows s (getClient sdk cfg s).2.
Proof.
  unfold getClient. pose proof (getClient_enter_grows cfg s) as H.
  destruct (getClient_enter cfg s) as [[c|p|p] s1]; [done| |]; cbn [snd] in *.
  all: eapply grows_trans; [exact H|].
  all: eapply grows_trans; [apply establishConnection_settle_grows|].
  all: apply getClient_resume_grows.
Qed.

Lemma listTools_grows (sdk : Sdk) (client : Client) (serverId : string) (s : Service) :
  grows s (listTools sdk client serverId s).2.
Proof.
  unfold listTools.
  match goal with
  | |- context [match ?b with inl _ => _ | inr _ => _ end] => destruct b as [e|[tools []]]
  end;
    cbn [snd]; repeat (eapply grows_trans; [|apply grows_emit]); apply grows_refl.
Qed.

(** *** listTools *)

Lemma traverse_names (tools : list value) :
  Forall (fun t => nullish t = false) tools ->
  exists names, traverse (fun t => get t "name") tools = inr names.
Proof.
  induction 1 as [|t tools Ht _ [names IH]]; [by exists []|].
  cbn. rewrite IH. destruct t; try discriminate; cbn; eauto.
Qed.

(** A bare sequence and a sequence wrapped under [tools] come out as the
    same sequence, in the order of the answer. *)
Lemma listTools_normalizes (sdk : Sdk) (client : Client) (serverId : string) (s : Service)
    (tools : list value) :
  Forall (fun t => nullish t = false) tools ->
  sdk_listTools sdk client = inr (VArr tools)
  \/ (exists ps, sdk_listTools sdk client = inr (VObj ps)
                 /\ assoc "tools" ps = Some (VArr tools)) ->
  listTools sdk client serverId s = (inr tools, emit (ListTools serverId) s).
Proof.
  intros Hnames Hshape. destruct (traverse_names tools Hnames) as [names Ht].
  unfold listTools. destruct Hshape as [Hr|(ps & Hr & Hps)]; rewrite Hr; cbn.
  - by rewrite Ht.
  - rewrite Hps. cbn. by rewrite Ht.
Qed.

(** [null], [undefined], the other falsy answers and objects without a
    sequence under [tools] are logged and give no tools. *)
Lemma listTools_unexpected (sdk : Sdk) (client : Client) (serverId : string) (s : Service)
    (response : value) :
  sdk_listTools sdk client = inr response ->
  truthy response = false
  \/ (exists ps, response = VObj ps /\ isArray (default VUndefined (assoc "tools" ps)) = false) ->
  listTools sdk client serverId s
  = (inr [], emit (unexpected_listTools serverId) (emit (ListTools serverId) s)).
Proof.
  intros Hr [Hfalsy|(ps & -> & Hps)]; unfold listTools, pick_tools; rewrite Hr.
  - cbn. rewrite Hfalsy. cbn. by destruct response.
  - cbn. destruct (assoc "tools" ps) as [[]|]; cbn in *; done.
Qed.

(** C8, on the answers that are a non-empty string, a non-zero number or
    [true]: the shape test applies [in] to the answer, and the TypeError is
    logged and thrown on to the caller instead of a warning being logged and
    the empty sequence returned. *)
Theorem listTools_throws_on_truthy_primitive (sdk : Sdk) (client : Client)
    (serverId : string) (s : Service) (response : value) :
  sdk_listTools sdk client = inr response ->
  truthy response = true ->
  typeof response <> "object" ->
  listTools sdk client serverId s
  = (inl (TypeError ("Cannot use 'in' operator to search for 'tools' in "
                     +:+ ToString response)),
     emit (failed_to_list serverId) (emit (ListTools serverId) s)).
Proof.
  intros Hr Ht Hprim. unfold listTools, pick_tools. rewrite Hr. cbn [bind]. rewrite Ht.
  destruct response; try discriminate; try (by destruct Hprim); reflexivity.
Qed.

Lemma listTools_throws_on_truthy_primitive_witness :
  listTools (sdk_answering (VStr "busy") VNull) sample_client (sc_id firecrawl)
    mcpClientService
  = (inl (TypeError "Cannot use 'in' operator to search for 'tools' in busy"),
     emit (failed_to_list (sc_id firecrawl))
       (emit (ListTools (sc_id firecrawl)) mcpClientService)).
Proof.
  apply (listTools_throws_on_truthy_primitive (sdk_answering (VStr "busy") VNull)
           sample_client (sc_id firecrawl) mcpClientService (VStr "busy"));
    [reflexivity | reflexivity | discriminate].
Defined.

(** *** Single flight *)

(** While a server has a pending entry and no client, every call joins the
    pending promise and changes nothing. *)
Lemma getClient_joins (cfg : McpServerConfig) (s : Service) (p : nat) :
  clients s !! sc_id cfg = None ->
  connectingPromises s !! sc_id cfg = Some p ->
  getClient_enter cfg s = (Joined p, s).
Proof. intros Hc Hp. unfold getClient_enter. by rewrite Hc, Hp. Qed.

Lemma calls_join (cfgs : list McpServerConfig) (serverId : string) (s : Service) (p : nat) :
  clients s !! serverId = None ->
  connectingPromises s !! serverId = Some p ->
  Forall (fun cfg => sc_id cfg = serverId) cfgs ->
  run (map Call cfgs) s = s
  /\ Forall (fun cfg => (getClient_enter cfg s).1 = Joined p) cfgs.
Proof.
  intros Hc Hp. induction 1 as [|cfg cfgs <- _ [IHrun IHall]]; [done|].
  cbn. rewrite (getClient_joins cfg s p Hc Hp). cbn. split; [done|].
  constructor; [|done]. by rewrite (getClient_joins cfg s p Hc Hp).
Qed.

(** From a server without client or pending entry, when the connect of the
    first call succeeds: the first call starts the one attempt, the calls
    made while it is pending join it, connect is called once, and once the
    first call has resumed every call gets the stored client. *)
Lemma single_flight_on_success (cfg : McpServerConfig) (cfgs : list McpServerConfig)
    (s : Service) (t : StdioClientTransportOptions) :
  clients s !! sc_id cfg = None ->
  connectingPromises s !! sc_id cfg = None ->
  select_transport cfg = inr t ->
  Forall (fun cfg' => sc_id cfg' = sc_id cfg) cfgs ->
  let p := length (attempts s) in
  let c := {| client_name := sc_name cfg +:+ "-client"; client_version := "1.0.0";
              transport := t; handle := p |} in
  let s1 := (getClient_enter cfg s).2 in
  let s2 := run (map Call cfgs ++ [ConnectSettles p None]) s1 in
  let s3 := run (map Call cfgs ++ [Resume p]) s2 in
  (getClient_enter cfg s).1 = Started p
  /\ Forall (fun cfg' => (getClient_enter cfg' s1).1 = Joined p) cfgs
  /\ Forall (fun cfg' => (getClient_enter cfg' s2).1 = Joined p) cfgs
  /\ settled p s2 = Some (inr c)
  /\ Forall (fun cfg' => getClient_enter cfg' s3 = (Cached c, s3)) cfgs
  /\ connects (sc_id cfg) s3 = S (connects (sc_id cfg) s).
Proof.
  intros Hc Hp Ht Hall p c s1 s2 s3. unfold p in *. clear p.
  assert (s1 = {| clients := clients s;
                  connectingPromises := <[sc_id cfg := length (attempts s)]> (connectingPromises s);
                  attempts := attempts s ++ [{| att_config := cfg; att_client := Some c;
                                                att_promise := Pending;
                                                att_resumed := false |}];
                  effects := effects s ++ [Connect (sc_id cfg)] |}) as Hs1.
  { unfold s1, getClient_enter, establishConnection. by rewrite Hc, Hp, Ht. }
  assert (clients s1 !! sc_id cfg = None) as Hc1 by (by rewrite Hs1).
  assert (connectingPromises s1 !! sc_id cfg = Some (length (attempts s))) as Hp1.
  { rewrite Hs1. cbn. apply lookup_insert_eq. }
  destruct (calls_join cfgs (sc_id cfg) s1 _ Hc1 Hp1 Hall) as [Hrun1 Hjoin1].
  assert (s2 = {| clients := clients s;
                  connectingPromises := <[sc_id cfg := length (attempts s)]> (connectingPromises s);
                  attempts := attempts s ++ [{| att_config := cfg; att_client := Some c;
                                                att_promise := Fulfilled c;
                                                att_resumed := false |}];
                  effects := effects s ++ [Connect (sc_id cfg)] |}) as Hs2.
  { unfold s2, run. rewrite fold_left_app. fold (run (map Call cfgs) s1). rewrite Hrun1.
    rewrite Hs1. cbn. unfold establishConnection_settle. cbn.
    rewrite lookup_new_attempt. cbn. unfold settle, set_attempts. cbn.
    by rewrite alter_new_attempt. }
  assert (clients s2 !! sc_id cfg = None) as Hc2 by (by rewrite Hs2).
  assert (connectingPromises s2 !! sc_id cfg = Some (length (attempts s))) as Hp2.
  { rewrite Hs2. cbn. apply lookup_insert_eq. }
  destruct (calls_join cfgs (sc_id cfg) s2 _ Hc2 Hp2 Hall) as [Hrun2 Hjoin2].
  assert (s3 = {| clients := <[sc_id cfg := c]> (clients s);
                  connectingPromises := connectingPromises s;
                  attempts := attempts s ++ [{| att_config := cfg; att_client := Some c;
                                                att_promise := Fulfilled c;
                                                att_resumed := true |}];
                  effects := effects s ++ [Connect (sc_id cfg)] |}) as Hs3.
  { unfold s3, run. rewrite fold_left_app. fold (run (map Call cfgs) s2). rewrite Hrun2.
    rewrite Hs2. cbn. unfold getClient_resume. cbn.
    rewrite lookup_new_attempt. cbn. unfold mark_resumed, set_attempts. cbn.
    rewrite alter_new_attempt. cbn. by rewrite delete_insert_eq, delete_id. }
  split. { unfold getClient_enter, establishConnection. by rewrite Hc, Hp, Ht. }
  split; [done|]. split; [done|].
  split. { rewrite Hs2. unfold settled. cbn. by rewrite lookup_new_attempt. }
  split.
  - eapply Forall_impl; [exact Hall|]. intros cfg' Hid. unfold getClient_enter.
    rewrite Hid. rewrite Hs3 at 1. cbn. by rewrite lookup_insert_eq.
  - rewrite Hs3. unfold connects. cbn. rewrite List.filter_app, length_app. cbn.
    rewrite String.eqb_refl. cbn. lia.
Qed.

Lemma length_new_attempt (l : list Attempt) (a : Attempt) :
  length (l ++ [a]) = S (length l).
Proof. rewrite length_app. cbn. lia. Qed.

(** C6, on the schedules where the connect of the first call fails: the
    [catch] of [establishConnection] has already deleted the pending entry
    when a call B enters before the first call A has resumed, so B starts a
    second attempt; the [finally] of A then deletes the entry of B, and a
    call C starts a third attempt while the second is still pending. *)
Theorem getClient_duplicate_attempts_after_failure (cfg : McpServerConfig) (s : Service)
    (t : StdioClientTransportOptions) (e : Error) :
  clients s !! sc_id cfg = None ->
  connectingPromises s !! sc_id cfg = None ->
  select_transport cfg = inr t ->
  let p := length (attempts s) in
  let failed := run [Call cfg; ConnectSettles p (Some e)] s in
  let second := run [Call cfg] failed in
  let cleaned := run [Resume p] second in
  let third := run [Call cfg] cleaned in
  (getClient_enter cfg s).1 = Started p
  /\ settled p failed = Some (inl e)
  /\ att_resumed <$> attempts failed !! p = Some false
  /\ (getClient_enter cfg failed).1 = Started (S p)
  /\ att_promise <$> attempts cleaned !! S p = Some Pending
  /\ connectingPromises cleaned !! sc_id cfg = None
  /\ (getClient_enter cfg cleaned).1 = Started (S (S p))
  /\ att_promise <$> attempts third !! S p = Some Pending
  /\ att_promise <$> attempts third !! S (S p) = Some Pending
  /\ connects (sc_id cfg) third = (3 + connects (sc_id cfg) s)%nat.
Proof.
  intros Hc Hp Ht p failed second cleaned third. unfold p in *. clear p.
  set (client n := {| client_name := sc_name cfg +:+ "-client"; client_version := "1.0.0";
                      transport := t; handle := n |}).
  set (attempt n st r := {| att_config := cfg; att_client := Some (client n);
                            att_promise := st; att_resumed := r |}).
  assert (Hfirst : getClient_enter cfg s
          = (Started (length (attempts s)),
             {| clients := clients s;
                connectingPromises :=
                  <[sc_id cfg := length (attempts s)]> (connectingPromises s);
                attempts := attempts s ++ [attempt (length (attempts s)) Pending false];
                effects := effects s ++ [Connect (sc_id cfg)] |})).
  { unfold getClient_enter, establishConnection. by rewrite Hc, Hp, Ht. }
  assert (Hfailed : failed
          = {| clients := clients s;
               connectingPromises := connectingPromises s;
               attempts := attempts s ++ [attempt (length (attempts s)) (Rejected e) false];
               effects := (effects s ++ [Connect (sc_id cfg)]) ++ [failed_to_connect cfg] |}).
  { unfold failed, run. cbn [fold_left segment]. rewrite Hfirst. cbn [snd].
    unfold establishConnection_settle. service_fields.
    rewrite lookup_new_attempt. unfold attempt at 1. attempt_steps.
    by rewrite delete_insert_eq, delete_id. }
  assert (Hsecond_enter : getClient_enter cfg failed
          = (Started (S (length (attempts s))),
             {| clients := clients s;
                connectingPromises :=
                  <[sc_id cfg := S (length (attempts s))]> (connectingPromises s);
                attempts := (attempts s ++ [attempt (length (attempts s)) (Rejected e) false])
                            ++ [attempt (S (length (attempts s))) Pending false];
                effects := ((effects s ++ [Connect (sc_id cfg)]) ++ [failed_to_connect cfg])
                           ++ [Connect (sc_id cfg)] |})).
  { rewrite Hfailed. unfold getClient_enter, establishConnection. service_fields.
    rewrite Hc, Hp, Ht. service_fields. by rewrite length_new_attempt. }
  assert (Hcleaned : cleaned
          = {| clients := clients s;
               connectingPromises := connectingPromises s;
               attempts := (attempts s ++ [attempt (length (attempts s)) (Rejected e) true])
                           ++ [attempt (S (length (attempts s))) Pending false];
               effects := ((effects s ++ [Connect (sc_id cfg)]) ++ [failed_to_connect cfg])
                          ++ [Connect (sc_id cfg)] |}).
  { unfold cleaned, second, run. cbn [fold_left segment]. rewrite Hsecond_enter. cbn [snd].
    unfold getClient_resume. service_fields.
    rewrite (lookup_app_l _ _ (length (attempts s))) by (rewrite length_new_attempt; lia).
    rewrite lookup_new_attempt. unfold attempt at 1. service_fields.
    rewrite (alter_app_l _ _ _ (length (attempts s))) by (rewrite length_new_attempt; lia).
    rewrite alter_new_attempt.
    by rewrite delete_insert_eq, delete_id. }
  assert (Hthird_enter : getClient_enter cfg cleaned
          = (Started (S (S (length (attempts s)))),
             {| clients := clients s;
                connectingPromises :=
                  <[sc_id cfg := S (S (length (attempts s)))]> (connectingPromises s);
                attempts := ((attempts s ++ [attempt (length (attempts s)) (Rejected e) true])
                             ++ [attempt (S (length (attempts s))) Pending false])
                            ++ [attempt (S (S (length (attempts s)))) Pending false];
                effects := (((effects s ++ [Connect (sc_id cfg)])
                             ++ [failed_to_connect cfg])
                            ++ [Connect (sc_id cfg)]) ++ [Connect (sc_id cfg)] |})).
  { rewrite Hcleaned. unfold getClient_enter, establishConnection. service_fields.
    rewrite Hc, Hp, Ht. service_fields. by rewrite !length_new_attempt. }
  assert (Hlen : S (length (attempts s))
                 = length (attempts s ++ [attempt (length (attempts s)) (Rejected e) true])).
  { by rewrite length_new_attempt. }
  split; [by rewrite Hfirst|].
  split. { rewrite Hfailed. unfold settled. cbn. by rewrite lookup_new_attempt. }
  split. { rewrite Hfailed. cbn. by rewrite lookup_new_attempt. }
  split; [by rewrite Hsecond_enter|].
  split. { rewrite Hcleaned. cbn. rewrite Hlen. by rewrite lookup_new_attempt. }
  split; [by rewrite Hcleaned|].
  split; [by rewrite Hthird_enter|].
  unfold third, run. cbn [fold_left segment]. rewrite Hthird_enter. cbn [snd attempts].
  split.
  { rewrite lookup_app_l by (rewrite !length_new_attempt; lia).
    rewrite Hlen. by rewrite lookup_new_attempt. }
  split.
  { replace (S (S (length (attempts s))))
      with (length ((attempts s ++ [attempt (length (attempts s)) (Rejected e) true])
                    ++ [attempt (S (length (attempts s))) Pending false]))
      by (by rewrite !length_new_attempt).
    by rewrite lookup_new_attempt. }
  unfold connects. cbn [effects]. rewrite !List.filter_app, !length_app. cbn.
  rewrite String.eqb_refl. cbn. lia.
Qed.

Lemma getClient_duplicate_attempts_after_failure_witness :
  (getClient_enter firecrawl mcpClientService).1 = Started 0
  /\ att_resumed <$> attempts after_failure !! 0%nat = Some false
  /\ (getClient_enter firecrawl after_failure).1 = Started 1
  /\ att_promise <$> attempts after_cleanup !! 1%nat = Some Pending
  /\ (getClient_enter firecrawl after_cleanup).1 = Started 2
  /\ connects (sc_id firecrawl) after_third_call = 3%nat.
Proof.
  pose proof (getClient_duplicate_attempts_after_failure firecrawl mcpClientService
                {| command := "/Users/overment/.nvm/versions/node/v22.11.0/bin/npx";
                   args := ["-y"; "firecrawl-mcp"];
                   env := Some [("FIRECRAWL_API_KEY", "fc-...")] |}
                spawn_error eq_refl eq_refl eq_refl)
    as (H1 & _ & H3 & H4 & H5 & _ & H7 & _ & _ & H10).
  repeat split; assumption.
Defined.

End ConnectionManager.

(** ** The tool registry *)

Section Registry.
Import McpClient ToolRegistry.

(** *** The completion flag *)

Lemma register_native_flag (env : Env) (st : Loop) (t : Tool) :
  isInitialized (register_native env st t).2 = isInitialized st.2.
Proof.
  destruct st as [loaded r]. unfold register_native.
  by destruct (read_property (nativeToolsMapConfig env) (name t)).
Qed.

Lemma register_mcp_tool_flag (env : Env) (cfg : McpServerConfig) (t : value) (st : Loop) :
  isInitialized (register_mcp_tool env cfg t st).2.2 = isInitialized st.2.
Proof.
  destruct st as [loaded r]. unfold register_mcp_tool.
  destruct (get t "name"); [done|]. by destruct (formatMcpInstruction _ _).
Qed.

Lemma register_mcp_tools_flag (env : Env) (cfg : McpServerConfig) (ts : list value) (st : Loop) :
  isInitialized (register_mcp_tools env cfg ts st).2.2 = isInitialized st.2.
Proof.
  revert st. induction ts as [|t ts IH]; intros st; [done|]. cbn.
  pose proof (register_mcp_tool_flag env cfg t st) as Ht.
  destruct (register_mcp_tool env cfg t st) as [[e|] st']; [done|].
  by rewrite IH.
Qed.

Lemma register_server_flag (env : Env) (st : Loop) (cfg : McpServerConfig) :
  isInitialized (register_server env st cfg).2 = isInitialized st.2.
Proof.
  destruct st as [loaded r]. unfold register_server, register_server_with.
  destruct (getClient (sdk env) cfg (mcp r)) as [[e|client] m]; [done|].
  destruct (listTools (sdk env) client (sc_id cfg) m) as [[e|tools] m']; [done|].
  pose proof (register_mcp_tools_flag env cfg tools (loaded, put_mcp m' r)) as Ht.
  by destruct (register_mcp_tools env cfg tools (loaded, put_mcp m' r))
    as [[e|] [loaded' r']].
Qed.

Lemma fold_flag {A} (f : Loop -> A -> Loop) (xs : list A) (st : Loop) :
  (forall st x, isInitialized (f st x).2 = isInitialized st.2) ->
  isInitialized (fold_left f xs st).2 = isInitialized st.2.
Proof.
  intros Hf. revert st. induction xs as [|x xs IH]; intros st; [done|].
  cbn. by rewrite IH, Hf.
Qed.

Lemma full_pass_flag (env : Env) (r : Registry) :
  isInitialized (full_pass env r).2 = isInitialized r.
Proof.
  unfold full_pass. rewrite fold_flag by apply register_server_flag.
  unfold register_native_tools. destruct (getAvailableTools env); [done|].
  by rewrite fold_flag by apply register_native_flag.
Qed.

Lemma initializeTools_unfold (env : Env) (r : Registry) :
  isInitialized r = false ->
  initializeTools env r
  = mark_initialized (updateSession (full_pass env r).1 (full_pass env r).2).
Proof.
  intros Hr. unfold initializeTools, full_pass. rewrite Hr.
  by destruct (fold_left _ _ _).
Qed.

(** *** What each turn of the loops adds *)

Lemma get_get_opt (t : value) (k : string) (v : value) :
  get t k = inr v -> v = get_opt t k.
Proof. destruct t; cbn; intros [=]; done. Qed.

Lemma append_cons (c : ascii) (a b : string) : String c a +:+ b = String c (a +:+ b).
Proof. reflexivity. Qed.

Lemma append_empty (b : string) : "" +:+ b = b.
Proof. reflexivity. Qed.

Lemma has_slash_key (a b : string) : has_slash (a +:+ "/" +:+ b) = true.
Proof.
  induction a as [|c a IH]; [done|].
  rewrite append_cons. cbn [has_slash]. rewrite IH. apply orb_true_r.
Qed.

Lemma no_slash_in_proto : has_slash "__proto__" = false.
Proof. reflexivity. Qed.

Lemma write_property_key (k : string) (v : ToolService) (m : gmap string ToolService) :
  k <> "__proto__" -> write_property k v m = <[k := v]> m.
Proof. intros Hk. unfold write_property. by apply String.eqb_neq in Hk as ->. Qed.

Lemma write_property_toolKey (id n : string) (v : ToolService) (m : gmap string ToolService) :
  write_property (id +:+ "/" +:+ n) v m = <[id +:+ "/" +:+ n := v]> m.
Proof.
  apply write_property_key. intros Heq.
  pose proof (has_slash_key id n) as Hs. rewrite Heq in Hs. discriminate.
Qed.

Lemma read_property_own (m : gmap string ToolService) (k : string) :
  k ∉ Object_prototype -> read_property m k = m !! k.
Proof.
  intros Hk. unfold read_property. destruct (m !! k); [done|].
  by rewrite bool_decide_eq_false_2.
Qed.

Lemma read_property_found (m : gmap string ToolService) (k : string) :
  is_Some (m !! k) -> is_Some (read_property m k).
Proof. intros [v Hv]. unfold read_property. rewrite Hv. eauto. Qed.

Lemma proto_is_inherited : "__proto__" ∈ Object_prototype.
Proof. unfold Object_prototype. rewrite !elem_of_cons. auto 20. Qed.

(** A turn of the tool loop either throws and registers nothing, or adds one
    catalog entry and the callable of the same name. *)
Lemma register_mcp_tool_adds (env : Env) (cfg : McpServerConfig) (t : value) (st : Loop) :
  mcp (register_mcp_tool env cfg t st).2.2 = mcp st.2
  /\ ((exists e, (register_mcp_tool env cfg t st).1 = Some e
                 /\ (register_mcp_tool env cfg t st).2.1 = st.1
                 /\ activeToolsMap (register_mcp_tool env cfg t st).2.2
                    = activeToolsMap st.2)
      \/ (exists tool, (register_mcp_tool env cfg t st).1 = None
                       /\ name tool = sc_id cfg +:+ "/" +:+ tool_name t
                       /\ (register_mcp_tool env cfg t st).2.1 = st.1 ++ [tool]
                       /\ activeToolsMap (register_mcp_tool env cfg t st).2.2
                          = <[name tool := Remote cfg]> (activeToolsMap st.2))).
Proof.
  destruct st as [loaded r]. unfold register_mcp_tool.
  destruct (get t "name") as [e|toolName] eqn:Hn; [split; [done|left; eauto]|].
  apply get_get_opt in Hn as ->.
  destruct (formatMcpInstruction _ _) as [e|instr]; (split; [done|]).
  - left. eauto.
  - right. cbn. refine (ex_intro _ _ (conj eq_refl (conj _ (conj eq_refl _)))).
    + reflexivity.
    + cbn. unfold toolKey, tool_name. apply write_property_toolKey.
Qed.

Lemma register_mcp_tools_adds (env : Env) (cfg : McpServerConfig) (ts : list value)
    (st : Loop) :
  exists k new,
    (register_mcp_tools env cfg ts st).2.1 = st.1 ++ new
    /\ map name new = map (fun t => sc_id cfg +:+ "/" +:+ tool_name t) (take k ts)
    /\ dom (activeToolsMap (register_mcp_tools env cfg ts st).2.2)
       = dom (activeToolsMap st.2) ∪ list_to_set (map name new)
    /\ mcp (register_mcp_tools env cfg ts st).2.2 = mcp st.2.
Proof.
  revert st. induction ts as [|t ts IH]; intros st.
  { exists 0%nat, []. cbn. rewrite app_nil_r. split; [done|]. split; [done|].
    split; [set_solver|done]. }
  cbn [register_mcp_tools].
  destruct (register_mcp_tool_adds env cfg t st)
    as [Hm [(e & Ho & Hl & Ha)|(tool & Ho & Hn & Hl & Ha)]].
  - destruct (register_mcp_tool env cfg t st) as [o st1]. cbn in *. subst o.
    exists 0%nat, []. cbn. rewrite app_nil_r. split; [done|]. split; [done|].
    split; [rewrite Ha; set_solver|done].
  - destruct (register_mcp_tool env cfg t st) as [o st1]. cbn [fst snd] in *. subst o.
    destruct (IH st1) as (k & new & Hl' & Hn' & Ha' & Hm').
    exists (S k), (tool :: new). rewrite Hl', Hl, <- app_assoc. split; [done|].
    split; [cbn; by rewrite Hn, Hn'|].
    split; [|by rewrite Hm'].
    rewrite Ha', Ha, dom_insert_L. cbn. set_solver.
Qed.

Lemma listTools_picked (sdk : Sdk) (client : Client) (serverId : string) (m m' : Service)
    (tools : list value) :
  listTools sdk client serverId m = (inr tools, m') ->
  tools = []
  \/ exists response, sdk_listTools sdk client = inr response
                      /\ pick_tools response = inr (Some tools).
Proof.
  unfold listTools. destruct (sdk_listTools sdk client) as [e|response]; [by intros [=]|].
  cbn [bind]. destruct (pick_tools response) as [e|[picked|]] eqn:Hp; cbn; [by intros [=]| |].
  - destruct (traverse _ picked); cbn; [by intros [=]|]. intros [= <- _]. right. eauto.
  - intros [= <- _]. by left.
Qed.

(** A turn of the server loop adds the catalog entries of some of the tools
    the server lists, each under the id of the server, and their callables. *)
Lemma register_server_adds (env : Env) (st : Loop) (cfg : McpServerConfig) :
  exists new names,
    (register_server env st cfg).1 = st.1 ++ new
    /\ map name new = map (fun n => sc_id cfg +:+ "/" +:+ n) names
    /\ (distinct_listings env -> NoDup names)
    /\ dom (activeToolsMap (register_server env st cfg).2)
       = dom (activeToolsMap st.2) ∪ list_to_set (map name new)
    /\ grows (mcp st.2) (mcp (register_server env st cfg).2).
Proof.
  destruct st as [loaded r]. unfold register_server, register_server_with.
  pose proof (getClient_grows (sdk env) cfg (mcp r)) as Hg.
  destruct (getClient (sdk env) cfg (mcp r)) as [[e|client] m].
  { exists [], []. cbn. rewrite app_nil_r. repeat split; [constructor|set_solver|].
    eapply grows_trans; [exact Hg|apply grows_emit]. }
  pose proof (listTools_grows (sdk env) client (sc_id cfg) m) as Hl.
  destruct (listTools (sdk env) client (sc_id cfg) m) as [[e|tools] m'] eqn:Hlist.
  { exists [], []. cbn. rewrite app_nil_r. repeat split; [constructor|set_solver|].
    eapply grows_trans; [exact Hg|]. eapply grows_trans; [exact Hl|apply grows_emit]. }
  destruct (register_mcp_tools_adds env cfg tools (loaded, put_mcp m' r))
    as (k & new & Hnew & Hnames & Hdom & Hmcp).
  exists new, (map tool_name (take k tools)).
  assert (distinct_listings env -> NoDup (map tool_name (take k tools))) as Hnodup.
  { intros Hd. apply listTools_picked in Hlist as [->|(response & Hr & Hp)].
    - rewrite take_nil. constructor.
    - specialize (Hd client response tools Hr Hp).
      rewrite <- (take_drop k tools), map_app in Hd. by apply NoDup_app in Hd as [? _]. }
  destruct (register_mcp_tools env cfg tools (loaded, put_mcp m' r)) as [[e|] [loaded' r']];
    cbn [fst snd] in *.
  - split; [done|]. split; [by rewrite Hnames, map_map|]. split; [done|].
    split; [done|]. cbn. rewrite Hmcp. cbn.
    eapply grows_trans; [exact Hg|]. eapply grows_trans; [exact Hl|apply grows_emit].
  - split; [done|]. split; [by rewrite Hnames, map_map|]. split; [done|].
    split; [done|]. rewrite Hmcp. cbn. by eapply grows_trans.
Qed.

Lemma register_native_turn (env : Env) (st : Loop) (t : Tool) :
  (register_native env st t).1 = st.1 ++ [t]
  /\ match read_property (nativeToolsMapConfig env) (name t) with
     | Some service =>
         activeToolsMap (register_native env st t).2
         = write_property (name t) service (activeToolsMap st.2)
         /\ mcp (register_native env st t).2 = mcp st.2
     | None =>
         activeToolsMap (register_native env st t).2 = activeToolsMap st.2
         /\ mcp (register_native env st t).2 = emit (service_not_found (name t)) (mcp st.2)
     end.
Proof.
  destruct st as [loaded r]. unfold register_native.
  by destruct (read_property (nativeToolsMapConfig env) (name t)).
Qed.

(** The loop over the persisted catalog: a name becomes a key when reading
    it from the static map finds something and writing it makes an own
    property; the names for which nothing is found are logged. *)
Lemma register_native_adds (env : Env) (ts : list Tool) (st : Loop) :
  (fold_left (register_native env) ts st).1 = st.1 ++ ts
  /\ (forall k, k ∈ dom (activeToolsMap (fold_left (register_native env) ts st).2)
                <-> k ∈ dom (activeToolsMap st.2)
                    \/ (k ∈ map name ts
                        /\ is_Some (read_property (nativeToolsMapConfig env) k)
                        /\ k <> "__proto__"))
  /\ grows (mcp st.2) (mcp (fold_left (register_native env) ts st).2)
  /\ (forall t, t ∈ ts -> read_property (nativeToolsMapConfig env) (name t) = None ->
        service_not_found (name t) ∈ effects (mcp (fold_left (register_native env) ts st).2)).
Proof.
  revert st. induction ts as [|t ts IH]; intros st.
  { cbn. rewrite app_nil_r. split; [done|]. split; [|split; [apply grows_refl|]].
    - intros k. split; [by left|]. intros [?|[Hk _]]; [done|]. by apply elem_of_nil in Hk.
    - intros t Ht. by apply elem_of_nil in Ht. }
  cbn [fold_left]. destruct (IH (register_native env st t)) as (Hl & Hd & Hg & Hw).
  destruct (register_native_turn env st t) as [Hl1 Hturn].
  split; [by rewrite Hl, Hl1, <- app_assoc|].
  destruct (read_property (nativeToolsMapConfig env) (name t)) as [service|] eqn:Hcfg;
    destruct Hturn as [Ha Hm].
  - split; [|split].
    + intros k. rewrite Hd, Ha. cbn [map]. rewrite elem_of_cons.
      destruct (decide (name t = "__proto__")) as [Hp|Hp].
      * unfold write_property. rewrite Hp. cbn. split.
        -- intros [?|(? & ? & ?)]; eauto 6.
        -- intros [?|([->|?] & ? & ?)]; eauto; done.
      * rewrite (write_property_key _ _ _ Hp), dom_insert_L, elem_of_union,
          elem_of_singleton. split.
        -- intros [[->|?]|(? & ? & ?)]; eauto 6.
        -- intros [?|([->|?] & ? & ?)]; eauto 6.
    + by rewrite <- Hm.
    + intros t' [->|Ht']%elem_of_cons Hnone; [congruence|]. by apply Hw.
  - split; [|split].
    + intros k. rewrite Hd, Ha. cbn [map]. rewrite elem_of_cons. split.
      * intros [?|(? & ? & ?)]; eauto 6.
      * intros [?|([->|?] & Hs & ?)]; eauto 6. rewrite Hcfg in Hs. by destruct Hs.
    + eapply grows_trans; [|exact Hg]. rewrite Hm. apply grows_emit.
    + intros t' [->|Ht']%elem_of_cons Hnone; [|by apply Hw].
      eapply grows_elem; [exact Hg|]. rewrite Hm. cbn. apply elem_of_app. right. by left.
Qed.

Lemma key_inj (id1 id2 n1 n2 : string) :
  has_slash id1 = false -> has_slash id2 = false ->
  id1 +:+ "/" +:+ n1 = id2 +:+ "/" +:+ n2 -> id1 = id2 /\ n1 = n2.
Proof.
  revert id2. induction id1 as [|c id1 IH]; intros [|c' id2]; cbn [has_slash];
    rewrite ?append_cons, ?append_empty.
  - intros _ _ [= ->]. done.
  - intros _ [Hc _]%orb_false_elim [= <- _]. done.
  - intros [Hc _]%orb_false_elim _ [= -> _]. done.
  - intros [_ H1]%orb_false_elim [_ H2]%orb_false_elim [= -> Heq].
    destruct (IH id2 H1 H2 Heq) as [-> ->]. done.
Qed.

(** The server loop adds entries keyed by the ids of the servers it went
    through; the keys are pairwise distinct when the ids are distinct and
    free of [/] and no server lists a name twice. *)
Lemma register_servers_add (env : Env) (cfgs : list McpServerConfig) (st : Loop) :
  exists new,
    (fold_left (register_server env) cfgs st).1 = st.1 ++ new
    /\ dom (activeToolsMap (fold_left (register_server env) cfgs st).2)
       = dom (activeToolsMap st.2) ∪ list_to_set (map name new)
    /\ grows (mcp st.2) (mcp (fold_left (register_server env) cfgs st).2)
    /\ (forall k, k ∈ map name new ->
          exists cfg n, cfg ∈ cfgs /\ k = sc_id cfg +:+ "/" +:+ n)
    /\ (distinct_listings env ->
        NoDup (map sc_id cfgs) ->
        Forall (fun cfg => has_slash (sc_id cfg) = false) cfgs ->
        NoDup (map name new)).
Proof.
  revert st. induction cfgs as [|cfg cfgs IH]; intros st.
  { exists []. cbn. rewrite app_nil_r. split; [done|]. split; [set_solver|].
    split; [apply grows_refl|]. split; [|constructor].
    intros k Hk. by apply elem_of_nil in Hk. }
  cbn [fold_left].
  destruct (register_server_adds env st cfg) as (new1 & names & Hl1 & Hn1 & Hnd1 & Hd1 & Hg1).
  destruct (IH (register_server env st cfg)) as (new2 & Hl2 & Hd2 & Hg2 & Hk2 & Hnd2).
  exists (new1 ++ new2). split; [by rewrite Hl2, Hl1, <- app_assoc|].
  split; [rewrite Hd2, Hd1, map_app, list_to_set_app_L; set_solver|].
  split; [by eapply grows_trans|].
  split.
  - intros k. rewrite map_app, elem_of_app. intros [Hk|Hk].
    + rewrite Hn1 in Hk. apply list_elem_of_fmap in Hk as (n & -> & _).
      exists cfg, n. split; [by left|done].
    + destruct (Hk2 k Hk) as (cfg' & n & Hin & ->). exists cfg', n. split; [by right|done].
  - intros Hdl Hids Hslash. cbn in Hids. apply NoDup_cons in Hids as [Hnotin Hids].
    apply Forall_cons in Hslash as [Hs Hslash].
    rewrite map_app. apply NoDup_app. split; [|split; [|by apply Hnd2]].
    + rewrite Hn1. apply NoDup_fmap_2; [|by apply Hnd1].
      intros n n' Heq. by destruct (key_inj _ _ _ _ Hs Hs Heq).
    + intros k Hk1 Hk2'. rewrite Hn1 in Hk1.
      apply list_elem_of_fmap in Hk1 as (n & -> & _).
      destruct (Hk2 _ Hk2') as (cfg' & n' & Hin & Heq).
      assert (has_slash (sc_id cfg') = false) as Hs'.
      { by eapply Forall_forall in Hslash. }
      destruct (key_inj _ _ _ _ Hs Hs' Heq) as [Hid _].
      apply Hnotin. rewrite Hid. apply list_elem_of_fmap. eauto.
Qed.

Lemma register_native_tools_adds (env : Env) (r : Registry) :
  (register_native_tools env r).1 = local_entries env
  /\ (forall k, k ∈ dom (activeToolsMap (register_native_tools env r).2)
                <-> k ∈ dom (activeToolsMap r)
                    \/ (k ∈ map name (local_entries env)
                        /\ is_Some (read_property (nativeToolsMapConfig env) k)
                        /\ k <> "__proto__"))
  /\ grows (mcp r) (mcp (register_native_tools env r).2)
  /\ GetAvailableTools ∈ effects (mcp (register_native_tools env r).2)
  /\ (forall t, t ∈ local_entries env ->
        read_property (nativeToolsMapConfig env) (name t) = None ->
        service_not_found (name t) ∈ effects (mcp (register_native_tools env r).2)).
Proof.
  unfold register_native_tools, local_entries.
  destruct (getAvailableTools env) as [e|ts].
  - cbn. split; [done|]. split; [|split; [|split]].
    + intros k. split; [by left|]. intros [?|[Hk _]]; [done|]. by apply elem_of_nil in Hk.
    + eapply grows_trans; apply grows_emit.
    + rewrite !elem_of_app, !list_elem_of_singleton. auto.
    + intros t Ht. by apply elem_of_nil in Ht.
  - destruct (register_native_adds env ts ([], with_mcp (emit GetAvailableTools) r))
      as (Hl & Hd & Hg & Hw).
    split; [done|]. split; [done|]. split; [|split; [|done]].
    + eapply grows_trans; [|exact Hg]. apply grows_emit.
    + eapply grows_elem; [exact Hg|]. cbn. rewrite elem_of_app, list_elem_of_singleton. auto.
Qed.

(** The catalog and the callable map after the two loops. *)
Lemma full_pass_adds (env : Env) (r : Registry) :
  exists remote,
    (full_pass env r).1 = local_entries env ++ remote
    /\ (forall k, k ∈ dom (activeToolsMap (full_pass env r).2)
                  <-> k ∈ dom (activeToolsMap r)
                      \/ (k ∈ map name (local_entries env)
                          /\ is_Some (read_property (nativeToolsMapConfig env) k)
                          /\ k <> "__proto__")
                      \/ k ∈ map name remote)
    /\ grows (mcp (register_native_tools env r).2) (mcp (full_pass env r).2)
    /\ (forall k, k ∈ map name remote -> has_slash k = true)
    /\ (distinct_listings env ->
        NoDup (map sc_id (mcpServerRegistry env)) ->
        Forall (fun cfg => has_slash (sc_id cfg) = false) (mcpServerRegistry env) ->
        NoDup (map name remote)).
Proof.
  unfold full_pass.
  destruct (register_servers_add env (mcpServerRegistry env) (register_native_tools env r))
    as (remote & Hl & Hd & Hg & Hk & Hnd).
  destruct (register_native_tools_adds env r) as (Hl0 & Hd0 & _).
  exists remote. split; [by rewrite Hl, Hl0|]. split; [|split; [done|split; [|done]]].
  - intros k. rewrite Hd, elem_of_union, Hd0, elem_of_list_to_set. tauto.
  - intros k Hin. destruct (Hk k Hin) as (cfg & n & _ & ->). apply has_slash_key.
Qed.

Lemma initializeTools_publishes (env : Env) (r : Registry) :
  isInitialized r = false ->
  session_tools (initializeTools env r) = (full_pass env r).1
  /\ activeToolsMap (initializeTools env r) = activeToolsMap (full_pass env r).2
  /\ mcp (initializeTools env r)
     = emit (UpdateSession (map name (full_pass env r).1)) (mcp (full_pass env r).2).
Proof. intros Hr. by rewrite initializeTools_unfold. Qed.

(** C1, as stated, fails: [weather] is in the persisted catalog and has no
    executor in [toolsMap]; it is logged, and after [initializeTools] it is
    in the catalog although it is not in the callable map, so the keys of the
    callable map are not the names of the catalog. *)
Lemma orphan_entry_stays_in_catalog :
  weather_tool ∈ local_entries env_orphan
  /\ nativeToolsMapConfig env_orphan !! "weather" = None
  /\ service_not_found "weather"
     ∈ effects (mcp (initializeTools env_orphan toolRegistrationService))
  /\ catalog_names (initializeTools env_orphan toolRegistrationService)
     = ["memory"; "weather"]
  /\ ("weather" ∉ callable_keys (initializeTools env_orphan toolRegistrationService))
  /\ callable_keys (initializeTools env_orphan toolRegistrationService)
     <> list_to_set (catalog_names (initializeTools env_orphan toolRegistrationService)).
Proof.
  assert ("weather" ∉ callable_keys (initializeTools env_orphan toolRegistrationService))
    as Hnot.
  { unfold callable_keys. rewrite elem_of_dom.
    assert (activeToolsMap (initializeTools env_orphan toolRegistrationService) !! "weather"
            = None) as -> by (vm_compute; reflexivity).
    by intros []. }
  split. { cbn. rewrite !elem_of_cons. auto. }
  split; [vm_compute; reflexivity|].
  split.
  { assert (effects (mcp (initializeTools env_orphan toolRegistrationService))
            = [GetAvailableTools; service_not_found "weather";
               UpdateSession ["memory"; "weather"]]) as -> by (vm_compute; reflexivity).
    rewrite !elem_of_cons. auto. }
  split; [vm_compute; reflexivity|]. split; [done|].
  intros Heq. apply Hnot. rewrite Heq.
  assert (catalog_names (initializeTools env_orphan toolRegistrationService)
          = ["memory"; "weather"]) as -> by (vm_compute; reflexivity).
  set_solver.
Qed.

(** Nor are the names distinct when a server lists a tool twice. *)
Lemma listed_twice_is_registered_twice :
  catalog_names (initializeTools env_twice toolRegistrationService)
  = [sc_id firecrawl +:+ "/firecrawl_search"; sc_id firecrawl +:+ "/firecrawl_search"].
Proof. vm_compute. reflexivity. Qed.

(** C1, amended: after [initializeTools], started with an empty callable
    map and with no local entry named like a member of [Object.prototype],
    every key of the callable map is the name of a catalog entry; a catalog
    entry whose name is not a key is a local entry without executor in the
    static map; every such local entry is logged and stays in the catalog,
    and is not in the callable map when its name has no [/]; and the names
    of the catalog are pairwise distinct when the persisted catalog has
    distinct names without [/], the servers distinct ids without [/] and no
    server lists a name twice. *)
Theorem catalog_and_callables (env : Env) (r : Registry) :
  isInitialized r = false ->
  activeToolsMap r = ∅ ->
  Forall (fun t => name t ∉ Object_prototype) (local_entries env) ->
  (forall k, k ∈ callable_keys (initializeTools env r) ->
             k ∈ catalog_names (initializeTools env r))
  /\ (forall t, t ∈ session_tools (initializeTools env r) ->
                name t ∉ callable_keys (initializeTools env r) ->
                t ∈ local_entries env /\ nativeToolsMapConfig env !! name t = None)
  /\ (forall t, t ∈ local_entries env ->
                nativeToolsMapConfig env !! name t = None ->
                t ∈ session_tools (initializeTools env r)
                /\ service_not_found (name t) ∈ effects (mcp (initializeTools env r))
                /\ (has_slash (name t) = false ->
                    (name t ∉ callable_keys (initializeTools env r))))
  /\ (distinct_sources env -> distinct_listings env ->
      NoDup (catalog_names (initializeTools env r))).
Proof.
  intros Hr Hempty Hplain.
  assert (forall t, t ∈ local_entries env ->
                    read_property (nativeToolsMapConfig env) (name t)
                    = nativeToolsMapConfig env !! name t
                    /\ name t <> "__proto__") as Hown.
  { intros t Ht. rewrite Forall_forall in Hplain. specialize (Hplain t Ht). cbn in Hplain.
    split; [by apply read_property_own|]. intros Heq. apply Hplain. rewrite Heq.
    apply proto_is_inherited. }
  destruct (initializeTools_publishes env r Hr) as (Htools & Hmap & Hmcp).
  destruct (full_pass_adds env r) as (remote & Hl & Hd & Hg & Hslash & Hnd).
  destruct (register_native_tools_adds env r) as (_ & _ & _ & _ & Hwarn).
  unfold callable_keys, catalog_names. rewrite Htools, Hmap, Hmcp, Hl.
  rewrite Hempty, dom_empty_L in Hd.
  split; [|split; [|split]].
  - intros k [Hk|[[Hk _]|Hk]]%Hd; [by apply not_elem_of_empty in Hk| |];
      rewrite map_app, elem_of_app; auto.
  - intros t [Ht|Ht]%elem_of_app Hnot.
    + split; [done|]. destruct (Hown t Ht) as [Hread Hproto].
      destruct (nativeToolsMapConfig env !! name t) eqn:Hcfg; [|done].
      exfalso. apply Hnot, Hd. right. left. split; [apply list_elem_of_fmap; eauto|].
      split; [by rewrite Hread|done].
    + exfalso. apply Hnot, Hd. right. right. apply list_elem_of_fmap. eauto.
  - intros t Ht Hcfg. destruct (Hown t Ht) as [Hread Hproto].
    split; [apply elem_of_app; by left|]. split.
    + apply (grows_elem (mcp (register_native_tools env r).2)).
      * eapply grows_trans; [exact Hg|apply grows_emit].
      * apply Hwarn; [done|]. by rewrite Hread.
    + intros Hs [Hk|[(Hk & Hfound & _)|Hk]]%Hd.
      * by apply not_elem_of_empty in Hk.
      * apply list_elem_of_fmap in Hk as (t' & Hname & Ht').
        destruct (Hown t' Ht') as [Hread' _]. rewrite <- Hname in Hread'.
        rewrite Hread', Hcfg in Hfound. by destruct Hfound.
      * apply Hslash in Hk. congruence.
  - intros (Hdb & Hids & Hsl) Hdl. rewrite map_app. apply NoDup_app.
    split; [|split; [|by apply Hnd]].
    + unfold local_entries. destruct (getAvailableTools env) as [e|ts] eqn:Hts;
        [constructor|]. by destruct (Hdb ts).
    + intros k Hk Hk'. apply Hslash in Hk'.
      unfold local_entries in Hk. destruct (getAvailableTools env) as [e|ts] eqn:Hts;
        [by apply elem_of_nil in Hk|].
      destruct (Hdb ts eq_refl) as [_ Hfree].
      apply list_elem_of_fmap in Hk as (t & -> & Ht).
      rewrite Forall_forall in Hfree. specialize (Hfree t Ht). cbn in Hfree. congruence.
Qed.

Lemma shipped_listings_distinct : distinct_listings env_shipped.
Proof.
  intros client response tools [= <-] [= <-].
  refine (bool_decide_unpack _ _). vm_compute. reflexivity.
Qed.

Lemma shipped_sources_distinct : distinct_sources env_shipped.
Proof.
  split; [|split].
  - intros ts [= <-]. split; [refine (bool_decide_unpack _ _); vm_compute; reflexivity|].
    repeat constructor.
  - refine (bool_decide_unpack _ _). vm_compute. reflexivity.
  - repeat constructor.
Qed.

Lemma shipped_entries_plain :
  Forall (fun t => name t ∉ Object_prototype) (local_entries env_shipped).
Proof. repeat constructor. refine (bool_decide_unpack _ _). vm_compute. reflexivity. Qed.

Lemma orphan_entries_plain :
  Forall (fun t => name t ∉ Object_prototype) (local_entries env_orphan).
Proof.
  repeat constructor; refine (bool_decide_unpack _ _); vm_compute; reflexivity.
Qed.

Lemma catalog_and_callables_witness :
  NoDup (catalog_names (initializeTools env_shipped toolRegistrationService))
  /\ (forall k, k ∈ callable_keys (initializeTools env_shipped toolRegistrationService) ->
                k ∈ catalog_names (initializeTools env_shipped toolRegistrationService))
  /\ (weather_tool ∈ session_tools (initializeTools env_orphan toolRegistrationService)
      /\ ("weather" ∉ callable_keys (initializeTools env_orphan toolRegistrationService))).
Proof.
  split; [|split].
  - apply (catalog_and_callables env_shipped toolRegistrationService eq_refl eq_refl
             shipped_entries_plain).
    + exact shipped_sources_distinct.
    + exact shipped_listings_distinct.
  - apply (catalog_and_callables env_shipped toolRegistrationService eq_refl eq_refl
             shipped_entries_plain).
  - destruct (catalog_and_callables env_orphan toolRegistrationService eq_refl eq_refl
                orphan_entries_plain)
      as (_ & _ & Horphan & _).
    destruct (Horphan weather_tool) as (Hin & _ & Hnot).
    + cbn. rewrite !elem_of_cons. auto.
    + vm_compute. reflexivity.
    + split; [exact Hin|]. apply Hnot. reflexivity.
Defined.

(** The callable of a remote tool forwards the payload without its routing
    field. *)
Lemma execute_strips_routing_field (env : Env) (cfg : McpServerConfig) (action : string)
    (ps : list (string * value)) (m : Service) (c : Client) :
  clients m !! sc_id cfg = Some c ->
  execute env cfg action (VObj ps) m
  = callTool (sdk env) c action
      (VObj (filter (fun kv => kv.1 <> "conversation_uuid") ps)) (sc_id cfg) m.
Proof. intros Hc. unfold execute. by rewrite (getClient_cached (sdk env) cfg m c Hc). Qed.

(** A turn of the server loop for a server that is switched off, has no
    session yet and can be connected to: the session is obtained and stored
    and [listTools] is called on it. *)
Lemma disabled_server_is_contacted (env : Env) (st : Loop) (cfg : McpServerConfig)
    (t : StdioClientTransportOptions) :
  sc_enabled cfg = false ->
  clients (mcp st.2) !! sc_id cfg = None ->
  connectingPromises (mcp st.2) !! sc_id cfg = None ->
  select_transport cfg = inr t ->
  sdk_connect (sdk env)
    {| client_name := sc_name cfg +:+ "-client"; client_version := "1.0.0";
       transport := t; handle := length (attempts (mcp st.2)) |} = None ->
  exists later,
    effects (mcp (register_server env st cfg).2)
    = effects (mcp st.2) ++ [Connect (sc_id cfg); ListTools (sc_id cfg)] ++ later.
Proof.
  intros _ Hc Hp Ht Hconnect. destruct st as [loaded r]. cbn [snd] in *.
  unfold register_server, register_server_with.
  rewrite (getClient_fresh (sdk env) cfg (mcp r) Hc Hp), Ht. cbn zeta. rewrite Hconnect.
  match goal with |- context [listTools ?k ?c ?i ?m] =>
    assert (exists l, effects (listTools k c i m).2
                      = (effects m ++ [ListTools i]) ++ l) as [l Hl];
    [|destruct (listTools k c i m) as [[e|tools] m'] eqn:Hlist]
  end.
  { unfold listTools.
    match goal with |- context [match ?b with inl _ => _ | inr _ => _ end] =>
      destruct b as [e|[tools []]] end; cbn; eexists; try reflexivity;
      by rewrite app_nil_r. }
  - cbn in *. rewrite Hl. eexists. by rewrite <- !app_assoc.
  - pose proof (register_mcp_tools_adds env cfg tools (loaded, put_mcp m' r))
      as (k & new & _ & _ & _ & Hmcp).
    destruct (register_mcp_tools env cfg tools (loaded, put_mcp m' r))
      as [[e|] [loaded' r']]; cbn in *; rewrite Hmcp, Hl;
      eexists; rewrite <- ?app_assoc; cbn; try reflexivity;
      by rewrite app_nil_r.
Qed.

(** C2, on a configuration whose only server has [enabled = false]:
    [initializeTools] does not read the flag; it connects to the server,
    stores the session, calls [listTools] on it and registers both of its
    tools in the catalog and in the callable map; the earlier version of the
    service does the same. *)
Theorem disabled_server_is_registered :
  sc_enabled firecrawl_disabled = false
  /\ mcpServerRegistry env_disabled = [firecrawl_disabled]
  /\ effects (mcp (initializeTools env_disabled toolRegistrationService))
     = [GetAvailableTools;
        Connect (sc_id firecrawl_disabled);
        ListTools (sc_id firecrawl_disabled);
        UpdateSession [sc_id firecrawl_disabled +:+ "/firecrawl_scrape";
                       sc_id firecrawl_disabled +:+ "/firecrawl_search"]]
  /\ handle <$> clients (mcp (initializeTools env_disabled toolRegistrationService))
                 !! sc_id firecrawl_disabled = Some 0%nat
  /\ catalog_names (initializeTools env_disabled toolRegistrationService)
     = [sc_id firecrawl_disabled +:+ "/firecrawl_scrape";
        sc_id firecrawl_disabled +:+ "/firecrawl_search"]
  /\ activeToolsMap (initializeTools env_disabled toolRegistrationService)
       !! (sc_id firecrawl_disabled +:+ "/firecrawl_scrape")
     = Some (Remote firecrawl_disabled)
  /\ activeToolsMap (initializeTools env_disabled toolRegistrationService)
       !! (sc_id firecrawl_disabled +:+ "/firecrawl_search")
     = Some (Remote firecrawl_disabled)
  /\ effects (mcp (StaticCatalog.initializeTools toolsMap_entries env_disabled
                     StaticCatalog.toolRegistrationService))
     = [Connect (sc_id firecrawl_disabled);
        ListTools (sc_id firecrawl_disabled);
        UpdateSession (map fst toolsMap_entries
                       ++ [sc_id firecrawl_disabled +:+ "/firecrawl_scrape";
                           sc_id firecrawl_disabled +:+ "/firecrawl_search"])]
  /\ activeToolsMap (StaticCatalog.initializeTools toolsMap_entries env_disabled
                       StaticCatalog.toolRegistrationService)
       !! (sc_id firecrawl_disabled +:+ "/firecrawl_scrape")
     = Some (Remote firecrawl_disabled).
Proof. repeat split; vm_compute; reflexivity. Qed.

(** C9: the flag stays unset through the whole pass and is set as its last
    step; a call that finds it set does nothing, so of two calls in
    sequence the first does the work (it asks the database and publishes the
    catalog) and the second leaves the catalog, the callable map and the
    trace of requests as they are. *)
Theorem initializeTools_idempotent (env env' : Env) (r : Registry) :
  isInitialized r = false ->
  isInitialized (full_pass env r).2 = false
  /\ initializeTools env r
     = mark_initialized (updateSession (full_pass env r).1 (full_pass env r).2)
  /\ isInitialized (initializeTools env r) = true
  /\ GetAvailableTools ∈ effects (mcp (initializeTools env r))
  /\ initializeTools env' (initializeTools env r) = initializeTools env r.
Proof.
  intros Hr. split; [by rewrite full_pass_flag|].
  split; [by apply initializeTools_unfold|].
  assert (isInitialized (initializeTools env r) = true) as Hflag.
  { by rewrite initializeTools_unfold. }
  split; [done|]. split.
  - destruct (initializeTools_publishes env r Hr) as (_ & _ & ->).
    destruct (full_pass_adds env r) as (remote & _ & _ & Hg & _).
    destruct (register_native_tools_adds env r) as (_ & _ & _ & Hasked & _).
    eapply grows_elem; [|exact Hasked].
    eapply grows_trans; [exact Hg|apply grows_emit].
  - unfold initializeTools at 1. by rewrite Hflag.
Qed.

Lemma initializeTools_idempotent_witness :
  initializeTools env_orphan (initializeTools env_shipped toolRegistrationService)
  = initializeTools env_shipped toolRegistrationService
  /\ catalog_names (initializeTools env_shipped toolRegistrationService)
     = ["memory"; sc_id firecrawl +:+ "/firecrawl_scrape";
        sc_id firecrawl +:+ "/firecrawl_search"].
Proof.
  split.
  - apply (initializeTools_idempotent env_shipped env_orphan toolRegistrationService).
    reflexivity.
  - vm_compute. reflexivity.
Defined.

End Registry.

(** * Further properties *)

(** ** Disconnecting *)

Section Disconnect.
Import McpClient.

Ltac store_fields :=
  unfold settle, mark_resumed, set_attempts, set_connectingPromises, set_clients, emit;
  cbn [clients connectingPromises attempts effects fst snd
       att_config att_client att_promise att_resumed].

Lemma disconnect_fields (close : Client -> option Error) (serverId : string) (s : Service) :
  clients (disconnect close serverId s) = delete serverId (clients s)
  /\ connectingPromises (disconnect close serverId s) = delete serverId (connectingPromises s)
  /\ attempts (disconnect close serverId s) = attempts s.
Proof.
  unfold disconnect. destruct (clients s !! serverId) as [c|] eqn:Hc.
  - by destruct (close c).
  - cbn. by rewrite delete_id.
Qed.

Lemma disconnect_effects (close : Client -> option Error) (serverId : string) (s : Service) :
  effects (disconnect close serverId s)
  = effects s
    ++ match clients s !! serverId with
       | Some client =>
           match close client with
           | Some _ => [error_disconnecting serverId]
           | None => []
           end
       | None => []
       end.
Proof.
  unfold disconnect. destruct (clients s !! serverId) as [c|]; [|by rewrite app_nil_r].
  destruct (close c); cbn; [done|by rewrite app_nil_r].
Qed.

Lemma disconnect_each_lookup (close : Client -> option Error) (ids : list string)
    (s : Service) (serverId : string) :
  clients (disconnect_each close ids s) !! serverId
  = (if decide (serverId ∈ ids) then None else clients s !! serverId)
  /\ connectingPromises (disconnect_each close ids s) !! serverId
     = (if decide (serverId ∈ ids) then None else connectingPromises s !! serverId).
Proof.
  revert s. induction ids as [|id ids IH]; intros s.
  { cbn. rewrite !decide_False by apply not_elem_of_nil. by split. }
  cbn [disconnect_each fold_left]. fold (disconnect_each close ids (disconnect close id s)).
  destruct (IH (disconnect close id s)) as [Hc Hp]. rewrite Hc, Hp.
  destruct (disconnect_fields close id s) as (-> & -> & _).
  destruct (decide (serverId ∈ ids)) as [Hin|Hnot].
  - rewrite !decide_True by (apply elem_of_cons; auto). by split.
  - destruct (decide (serverId = id)) as [->|Hne].
    + rewrite !decide_True by (apply elem_of_cons; auto). by rewrite !lookup_delete_eq.
    + rewrite !decide_False by (rewrite elem_of_cons; intros [?|?]; done).
      by rewrite !lookup_delete_ne.
Qed.

(** After [disconnect], whatever the store held for the server (a client, a
    pending entry, both or neither) and whether or not closing succeeded, a
    call of [getClient] for a usable configuration of that server calls
    [client.connect] once more; when that connect succeeds the call returns a
    new client, built for this attempt, and stores it. *)
Theorem disconnect_then_getClient_reconnects (sdk : Sdk) (close : Client -> option Error)
    (cfg : McpServerConfig) (s : Service) (t : StdioClientTransportOptions) :
  select_transport cfg = inr t ->
  let s' := disconnect close (sc_id cfg) s in
  let fresh := {| client_name := sc_name cfg +:+ "-client"; client_version := "1.0.0";
                  transport := t; handle := length (attempts s) |} in
  connects (sc_id cfg) (getClient sdk cfg s').2 = S (connects (sc_id cfg) s)
  /\ (sdk_connect sdk fresh = None ->
      (getClient sdk cfg s').1 = inr fresh
      /\ clients (getClient sdk cfg s').2 !! sc_id cfg = Some fresh).
Proof.
  intros Ht s' fresh. subst s' fresh.
  destruct (disconnect_fields close (sc_id cfg) s) as (Hc & Hp & Ha).
  assert (clients (disconnect close (sc_id cfg) s) !! sc_id cfg = None) as Hc'.
  { rewrite Hc. apply lookup_delete_eq. }
  assert (connectingPromises (disconnect close (sc_id cfg) s) !! sc_id cfg = None) as Hp'.
  { rewrite Hp. apply lookup_delete_eq. }
  rewrite (getClient_fresh sdk cfg _ Hc' Hp'), Ht. cbn zeta. rewrite Ha.
  assert (connects (sc_id cfg) (disconnect close (sc_id cfg) s) = connects (sc_id cfg) s)
    as Hsame.
  { unfold connects. rewrite disconnect_effects, List.filter_app, length_app.
    destruct (clients s !! sc_id cfg) as [c|]; [destruct (close c)|]; cbn; lia. }
  split.
  - rewrite <- Hsame.
    destruct (sdk_connect sdk _); unfold connects; cbn [snd effects];
      rewrite !List.filter_app, !length_app; cbn; rewrite String.eqb_refl; cbn; lia.
  - intros Hok. rewrite Hok. cbn. split; [done|]. apply lookup_insert_eq.
Qed.

Lemma disconnect_then_getClient_reconnects_witness :
  connects (sc_id firecrawl)
    (getClient (sdk_answering VNull VNull) firecrawl
       (disconnect (fun _ => Some spawn_error) (sc_id firecrawl)
          (getClient (sdk_answering VNull VNull) firecrawl mcpClientService).2)).2
  = 2%nat.
Proof.
  refine (proj1 (disconnect_then_getClient_reconnects (sdk_answering VNull VNull)
                   (fun _ => Some spawn_error) firecrawl
                   (getClient (sdk_answering VNull VNull) firecrawl mcpClientService).2
                   _ eq_refl)).
Defined.

(** [disconnectAll] leaves no client in the store, whichever closes fail and
    in whatever order the ids are swept; it removes the pending entry of a
    server that had a client and leaves in place the pending entry of a
    server that had none. *)
Theorem disconnectAll_sweeps_clients_only (close : Client -> option Error) (s : Service) :
  (forall ids,
     (forall serverId, serverId ∈ ids <-> is_Some (clients s !! serverId)) ->
     clients (disconnect_each close ids s) = ∅
     /\ forall serverId,
          connectingPromises (disconnect_each close ids s) !! serverId
          = match clients s !! serverId with
            | Some _ => None
            | None => connectingPromises s !! serverId
            end)
  /\ clients (disconnectAll close s) = ∅
  /\ forall serverId,
       connectingPromises (disconnectAll close s) !! serverId
       = match clients s !! serverId with
         | Some _ => None
         | None => connectingPromises s !! serverId
         end.
Proof.
  assert (forall ids,
            (forall serverId, serverId ∈ ids <-> is_Some (clients s !! serverId)) ->
            clients (disconnect_each close ids s) = ∅
            /\ forall serverId,
                 connectingPromises (disconnect_each close ids s) !! serverId
                 = match clients s !! serverId with
                   | Some _ => None
                   | None => connectingPromises s !! serverId
                   end) as Hany.
  { intros ids Hids. split.
    - apply map_eq. intros serverId. rewrite lookup_empty.
      destruct (disconnect_each_lookup close ids s serverId) as [-> _].
      destruct (decide (serverId ∈ ids)) as [?|Hnot]; [done|].
      destruct (clients s !! serverId) eqn:Hc; [|done].
      exfalso. apply Hnot, Hids. by rewrite Hc.
    - intros serverId.
      destruct (disconnect_each_lookup close ids s serverId) as [_ ->].
      destruct (decide (serverId ∈ ids)) as [Hin|Hnot].
      + apply Hids in Hin as [c ->]. done.
      + destruct (clients s !! serverId) eqn:Hc; [|done].
        exfalso. apply Hnot, Hids. by rewrite Hc. }
  split; [exact Hany|]. apply Hany.
  intros serverId. by rewrite elem_of_elements, elem_of_dom.
Qed.

Lemma disconnectAll_sweeps_clients_only_witness :
  clients (disconnect_each (fun _ => Some spawn_error) [sc_id firecrawl]
             (getClient (sdk_answering VNull VNull) firecrawl mcpClientService).2) = ∅.
Proof.
  refine (proj1 (proj1 (disconnectAll_sweeps_clients_only (fun _ => Some spawn_error)
                          (getClient (sdk_answering VNull VNull) firecrawl
                             mcpClientService).2) [sc_id firecrawl] _)).
  intros serverId. rewrite list_elem_of_singleton. split.
  - intros ->. vm_compute. by eexists.
  - intros Hsome. destruct (decide (serverId = sc_id firecrawl)) as [?|Hne]; [done|].
    exfalso. revert Hsome.
    assert (clients (getClient (sdk_answering VNull VNull) firecrawl mcpClientService).2
            = <[sc_id firecrawl := sample_client]> ∅) as -> by reflexivity.
    rewrite lookup_insert_ne by done. rewrite lookup_empty. by intros [? ?].
Defined.

(** [disconnect] while the first connection of a server is still being
    established (no client yet) only drops the pending entry: the attempt
    goes on, a call of [getClient] made meanwhile starts a second attempt,
    and when the first attempt succeeds its client is stored, so the server
    ends up with a client although it was disconnected. *)
Theorem disconnect_does_not_cancel_attempt (close : Client -> option Error)
    (cfg : McpServerConfig) (s : Service) (t : StdioClientTransportOptions) :
  clients s !! sc_id cfg = None ->
  connectingPromises s !! sc_id cfg = None ->
  select_transport cfg = inr t ->
  let p := length (attempts s) in
  let dropped := disconnect close (sc_id cfg) (getClient_enter cfg s).2 in
  let finished := (getClient_resume p (establishConnection_settle p None dropped)).2 in
  connectingPromises dropped !! sc_id cfg = None
  /\ att_promise <$> attempts dropped !! p = Some Pending
  /\ (getClient_enter cfg dropped).1 = Started (S p)
  /\ clients finished !! sc_id cfg
     = Some {| client_name := sc_name cfg +:+ "-client"; client_version := "1.0.0";
               transport := t; handle := p |}.
Proof.
  intros Hc Hp Ht p dropped finished. subst p dropped finished.
  destruct (disconnect_fields close (sc_id cfg) (getClient_enter cfg s).2)
    as (Hdc & Hdp & Hda).
  assert (getClient_enter cfg s
          = (Started (length (attempts s)),
             {| clients := clients s;
                connectingPromises :=
                  <[sc_id cfg := length (attempts s)]> (connectingPromises s);
                attempts :=
                  attempts s
                  ++ [{| att_config := cfg;
                         att_client :=
                           Some {| client_name := sc_name cfg +:+ "-client";
                                   client_version := "1.0.0";
                                   transport := t; handle := length (attempts s) |};
                         att_promise := Pending; att_resumed := false |}];
                effects := effects s ++ [Connect (sc_id cfg)] |})) as Henter.
  { unfold getClient_enter, establishConnection. by rewrite Hc, Hp, Ht. }
  rewrite Henter in *. cbn [snd clients connectingPromises attempts] in *.
  set (dropped := disconnect _ _ _) in *. clearbody dropped.
  assert (clients dropped !! sc_id cfg = None) as Hc'.
  { rewrite Hdc. apply lookup_delete_eq. }
  assert (connectingPromises dropped !! sc_id cfg = None) as Hp'.
  { rewrite Hdp. apply lookup_delete_eq. }
  split; [done|].
  split. { rewrite Hda, lookup_new_attempt. done. }
  split.
  { unfold getClient_enter, establishConnection. rewrite Hc', Hp', Ht.
    store_fields. by rewrite Hda, length_new_attempt. }
  unfold establishConnection_settle. rewrite Hda, lookup_new_attempt.
  unfold getClient_resume. store_fields. rewrite Hda, alter_new_attempt.
  rewrite lookup_new_attempt. store_fields. apply lookup_insert_eq.
Qed.

Lemma disconnect_does_not_cancel_attempt_witness :
  handle <$> clients
    (getClient_resume 0
       (establishConnection_settle 0 None
          (disconnect (fun _ => None) (sc_id firecrawl)
             (getClient_enter firecrawl mcpClientService).2))).2 !! sc_id firecrawl
  = Some 0%nat.
Proof.
  pose proof (disconnect_does_not_cancel_attempt (fun _ => None) firecrawl mcpClientService
                _ eq_refl eq_refl eq_refl) as (_ & _ & _ & Hstored).
  cbn [length attempts mcpClientService] in Hstored. by rewrite Hstored.
Defined.

End Disconnect.

(** ** The instruction of a remote tool *)

Section Instruction.
Import McpClient ToolRegistry.

Lemma insert_by_index_perm {A} (n : N) (x : A) (l : list (N * A)) :
  Permutation (insert_by_index n x l) ((n, x) :: l).
Proof.
  induction l as [|[m y] l IH]; [done|]. cbn. destruct (n <=? m)%N; [done|].
  etransitivity; [apply perm_skip, IH|apply perm_swap].
Qed.

Lemma own_property_order_perm {A} (ps : list (string * A)) :
  Permutation (own_property_order ps) ps.
Proof.
  unfold own_property_order. induction ps as [|kv ps IH]; [done|].
  cbn [indexed named List.filter]. destruct (array_index kv.1) as [n|].
  - etransitivity.
    + apply Permutation_app_tail, Permutation_map, insert_by_index_perm.
    + cbn. by apply perm_skip.
  - symmetry. apply Permutation_cons_app. by symmetry.
Qed.


Lemma formatMcpInstruction_unfold (toolName schema : value) :
  nullish schema = false ->
  formatMcpInstruction toolName schema
  = let properties := get_opt schema "properties" in
    let inner := get_opt properties "inputSchema" in
    let actualProperties :=
      if is_wrapped properties then get_opt inner "properties" else properties in
    let actualRequired :=
      if is_wrapped properties then or_else (get_opt inner "required") (VArr [])
      else get_opt schema "required" in
    if truthy actualProperties && Nat.ltb 0 (length (entries actualProperties)) then
      bind (traverse (parameter_line actualRequired) (entries actualProperties))
           (fun lines => inr (instruction_header toolName +:+ String.concat "" lines))
    else inr (instruction_header toolName +:+ no_parameters).
Proof.
  intros Hs. unfold formatMcpInstruction, is_wrapped, instruction_header.
  destruct schema; try discriminate; reflexivity.
Qed.

(** A schema without parameters (no [properties], a falsy one, an empty
    object) gives the header and the sentence that the tool has no declared
    parameters; it never throws, whatever else the schema holds. *)
Theorem formatMcpInstruction_without_parameters (toolName schema : value) :
  nullish schema = false ->
  entries (get_opt schema "properties") = [] ->
  formatMcpInstruction toolName schema
  = inr (instruction_header toolName +:+ no_parameters).
Proof.
  intros Hs He. rewrite (formatMcpInstruction_unfold toolName schema Hs). cbn zeta.
  assert (is_wrapped (get_opt schema "properties") = false) as ->.
  { unfold is_wrapped. rewrite He. cbn. by rewrite andb_false_r. }
  rewrite He. cbn. by rewrite andb_false_r.
Qed.

Lemma formatMcpInstruction_without_parameters_witness :
  formatMcpInstruction (VStr "firecrawl_search") (VObj [("type", VStr "object")])
  = inr (instruction_header (VStr "firecrawl_search") +:+ no_parameters).
Proof.
  apply formatMcpInstruction_without_parameters; reflexivity.
Defined.

Lemma own_property_order_length {A} (ps : list (string * A)) :
  length (own_property_order ps) = length ps.
Proof. apply Permutation_length, own_property_order_perm. Qed.

Lemma wrapped_entries (properties : value) :
  is_wrapped properties = true ->
  entries properties = [("inputSchema", get_opt properties "inputSchema")].
Proof.
  unfold is_wrapped. intros Hw.
  apply andb_true_iff in Hw as [Hw _]. apply andb_true_iff in Hw as [Hw _].
  apply andb_true_iff in Hw as [Hw Hin]. apply andb_true_iff in Hw as [_ Hlen].
  apply Nat.eqb_eq in Hlen.
  destruct properties as [| |b|n|s|l|ps]; try discriminate.
  cbn [entries] in *. rewrite own_property_order_length in Hlen.
  destruct ps as [|[k v] [|kv ps]]; try discriminate.
  unfold get_opt, assoc in Hin |- *.
  destruct (String.eqb_spec "inputSchema" k) as [<-|_]; [|discriminate].
  reflexivity.
Qed.

(** A schema wrapped under a single [inputSchema] property gives the
    instruction written for the properties of the schema inside, as they
    stand, with [required] defaulting to the empty list.  One level is
    unwrapped and no more: for a schema wrapped twice the instruction has
    one line, that of a parameter called [inputSchema]. *)
Theorem formatMcpInstruction_unwraps_one_level (toolName schema : value) :
  nullish schema = false ->
  is_wrapped (get_opt schema "properties") = true ->
  let inner := get_opt (get_opt schema "properties") "inputSchema" in
  let required := or_else (get_opt inner "required") (VArr []) in
  formatMcpInstruction toolName schema
  = instruction_for toolName (get_opt inner "properties") required
  /\ (is_wrapped (get_opt inner "properties") = true ->
      formatMcpInstruction toolName schema
      = bind (parameter_line required
                ("inputSchema", get_opt (get_opt inner "properties") "inputSchema"))
             (fun line => inr (instruction_header toolName +:+ line))).
Proof.
  intros Hs Hw inner required.
  assert (formatMcpInstruction toolName schema
          = instruction_for toolName (get_opt inner "properties") required) as Heq.
  { rewrite (formatMcpInstruction_unfold toolName schema Hs). cbn zeta. by rewrite Hw. }
  split; [done|]. intros Hw2. rewrite Heq. unfold instruction_for.
  rewrite (wrapped_entries _ Hw2).
  assert (truthy (get_opt inner "properties") = true) as ->.
  { unfold is_wrapped in Hw2. by destruct (truthy (get_opt inner "properties")). }
  cbn [length Nat.ltb Nat.leb andb traverse].
  destruct (parameter_line required _) as [e|line]; [done|].
  cbn. reflexivity.
Qed.

Lemma formatMcpInstruction_unwraps_one_level_witness :
  formatMcpInstruction (VStr "firecrawl_scrape") twice_wrapped_schema
  = inr (instruction_header (VStr "firecrawl_scrape")
         +:+ "- " +:+ str1 dquote +:+ "inputSchema" +:+ str1 dquote
         +:+ ": (type: object)" +:+ nl).
Proof.
  exact (proj2 (formatMcpInstruction_unwraps_one_level (VStr "firecrawl_scrape")
                  twice_wrapped_schema eq_refl eq_refl) eq_refl).
Defined.






Lemma chars_app (a b : string) :
  list_ascii_of_string (a +:+ b) = list_ascii_of_string a ++ list_ascii_of_string b.
Proof.
  induction a as [|c a IH]; [done|].
  rewrite append_cons. cbn [list_ascii_of_string app]. by rewrite IH.
Qed.

Lemma existsb_listed (names : list value) (paramName : string) :
  existsb (fun e => match e with
                    | VStr s => String.eqb s paramName
                    | _ => false
                    end) names = true
  <-> VStr paramName ∈ names.
Proof.
  rewrite existsb_exists. split.
  - intros (e & Hin & He). destruct e; try discriminate.
    apply String.eqb_eq in He as ->. by apply list_elem_of_In.
  - intros Hin. exists (VStr paramName). split; [by apply list_elem_of_In|].
    apply String.eqb_refl.
Qed.

Lemma includes_listed (required : value) (paramName : string) (b : value) :
  includes required paramName = inr b ->
  truthy b = true <-> listed required paramName.
Proof.
  destruct required; cbn; intros [= <-]; cbn; try (split; [discriminate|done]).
  - done.
  - apply existsb_listed.
Qed.

(** The line of a parameter ends with the [required] marker exactly when the
    name of the parameter is listed in [required]: an element of it when it
    is a sequence, and, [includes] being what it is, a substring of it when
    it is a string. *)
Theorem parameter_marked_iff_listed (required : value) (paramName : string)
    (details : value) (line : string) :
  parameter_line required (paramName, details) = inr line ->
  ends_with (" [required]" +:+ nl) line <-> listed required paramName.
Proof.
  unfold parameter_line.
  destruct (get details "type") as [e|type]; [discriminate|]. cbn [bind].
  destruct (get details "description") as [e|descr]; [discriminate|]. cbn [bind].
  destruct (includes required paramName) as [e|b] eqn:Hb; [discriminate|]. cbn [bind].
  intros [= <-]. rewrite <- (includes_listed required paramName b Hb).
  unfold ends_with. rewrite !chars_app.
  destruct (truthy b).
  - split; [done|]. intros _. do 8 apply suffix_app_r. done.
  - split; [|discriminate]. intros Hsuffix. exfalso.
    change (list_ascii_of_string "") with (@nil ascii) in Hsuffix.
    change (list_ascii_of_string nl) with [ascii_of_nat 10] in Hsuffix.
    change (list_ascii_of_string ")") with [")"%char] in Hsuffix.
    change (list_ascii_of_string " [required]")
      with (list_ascii_of_string " [required" ++ ["]"%char]) in Hsuffix.
    rewrite app_nil_l, !app_assoc in Hsuffix.
    apply suffix_snoc_inv_2, suffix_snoc_inv_1 in Hsuffix. discriminate.
Qed.

Lemma parameter_marked_iff_listed_witness :
  exists line,
    parameter_line (VArr [VStr "url"])
      ("url", VObj [("type", VStr "string")]) = inr line
    /\ ends_with (" [required]" +:+ nl) line.
Proof.
  eexists. split; [reflexivity|].
  apply (parameter_marked_iff_listed (VArr [VStr "url"]) "url"
           (VObj [("type", VStr "string")]) _ eq_refl).
  cbn. rewrite list_elem_of_singleton. reflexivity.
Defined.

Lemma traverse_throws {A B} (f : A -> JS.result B) (xs : list A) :
  (exists x, x ∈ xs /\ exists e, f x = inl e) ->
  exists e x, traverse f xs = inl e /\ x ∈ xs /\ f x = inl e.
Proof.
  induction xs as [|x0 xs IH]; intros (x & Hin & e & He).
  { by apply elem_of_nil in Hin. }
  cbn. destruct (f x0) as [e0|y0] eqn:H0.
  - exists e0, x0. split; [done|]. split; [left|done].
  - apply elem_of_cons in Hin as [->|Hin]; [congruence|].
    destruct IH as (e' & x' & Ht & Hin' & He'); [eauto|].
    exists e', x'. cbn. rewrite Ht. split; [done|]. split; [by right|done].
Qed.

Lemma parameter_line_throws (required : value) (entry : string * value) (e : Error) :
  parameter_line required entry = inl e -> exists m, e = TypeError m.
Proof.
  destruct entry as [paramName details]. unfold parameter_line.
  destruct details; cbn; try (intros [= <-]; eauto);
    destruct required; cbn; intros [= <-]; eauto.
Qed.

(** Writing the instruction throws a TypeError when the tool has no schema
    at all, when one of its declared parameters is [null] or [undefined], and
    when it declares parameters and its [required] is a number, a boolean or
    an object. *)
Theorem formatMcpInstruction_type_errors (toolName schema : value)
    (params : list (string * value)) :
  nullish schema = true
  \/ (get_opt schema "properties" = VObj params
      /\ is_wrapped (VObj params) = false
      /\ params <> []
      /\ ((exists entry, entry ∈ params /\ nullish entry.2 = true)
          \/ has_includes (get_opt schema "required") = false)) ->
  exists m, formatMcpInstruction toolName schema = inl (TypeError m).
Proof.
  intros [Hs|(Hp & Hflat & Hne & Hbad)].
  { destruct schema; try discriminate; cbn; eauto. }
  assert (nullish schema = false) as Hs by (destruct schema; done).
  rewrite (formatMcpInstruction_unfold toolName schema Hs). cbn zeta.
  rewrite Hp, Hflat. cbn [truthy entries andb].
  rewrite own_property_order_length.
  assert (Nat.ltb 0 (length params) = true) as -> by (by destruct params).
  destruct (traverse_throws (parameter_line (get_opt schema "required"))
              (own_property_order params))
    as (e & x & Ht & _ & He).
  - destruct Hbad as [(bad & Hin & Hnull)|Hreq].
    + exists bad. split; [by rewrite (own_property_order_perm params)|].
      destruct bad as [k d]. cbn in Hnull.
      unfold parameter_line. destruct d; try discriminate; cbn; eauto.
    + pose proof (own_property_order_length params) as Hlen.
      destruct (own_property_order params) as [|entry rest]; [by destruct params|].
      exists entry. split; [left|]. destruct entry as [k d]. unfold parameter_line.
      destruct d; cbn; eauto;
        destruct (get_opt schema "required"); try discriminate; cbn; eauto.
  - rewrite Ht. cbn. apply parameter_line_throws in He as [m ->]. eauto.
Qed.

Lemma formatMcpInstruction_type_errors_witness :
  (exists m, formatMcpInstruction (VStr "firecrawl_search") VUndefined = inl (TypeError m))
  /\ (exists m,
        formatMcpInstruction (VStr "firecrawl_search")
          (VObj [("properties", VObj [("query", VNull)])]) = inl (TypeError m)).
Proof.
  split.
  - apply (formatMcpInstruction_type_errors _ VUndefined []). by left.
  - apply (formatMcpInstruction_type_errors _ _ [("query", VNull)]). right.
    split; [reflexivity|]. split; [reflexivity|]. split; [discriminate|].
    left. exists ("query", VNull). split; [left|reflexivity].
Defined.

End Instruction.

(** ** Registration: failures and keys *)

Section Registration.
Import McpClient ToolRegistry.





Lemma listTools_rejects (sdk : Sdk) (client : Client) (serverId : string) (m : Service)
    (e : Error) :
  sdk_listTools sdk client = inl e
  \/ (exists text, text <> "" /\ sdk_listTools sdk client = inr (VStr text)) ->
  exists e',
    listTools sdk client serverId m
    = (inl e', emit (failed_to_list serverId) (emit (ListTools serverId) m)).
Proof.
  unfold listTools, pick_tools. intros [->|(text & Hne & ->)]; cbn; [eauto|].
  destruct (String.eqb_spec text ""); [done|]. cbn. eauto.
Qed.

Lemma register_server_skips (env : Env) (st : Loop) (cfg : McpServerConfig)
    (e : Error) (m : Service) :
  getClient (sdk env) cfg (mcp st.2) = (inl e, m)
  \/ (exists client m0,
        getClient (sdk env) cfg (mcp st.2) = (inr client, m0)
        /\ listTools (sdk env) client (sc_id cfg) m0 = (inl e, m)) ->
  (register_server env st cfg).1 = st.1
  /\ activeToolsMap (register_server env st cfg).2 = activeToolsMap st.2
  /\ uuids (register_server env st cfg).2 = uuids st.2
  /\ mcp (register_server env st cfg).2 = emit (failed_to_register cfg) m.
Proof.
  destruct st as [loaded r]. cbn [fst snd]. unfold register_server, register_server_with.
  intros [->|(client & m0 & -> & ->)]; done.
Qed.

(** A server without session that cannot be used costs one logged error and
    nothing else: when its configuration is refused, when its connect is
    rejected, when its [listTools] is rejected or answers with a non-empty
    string, the catalog, the callable map and the uuids drawn are as before
    its turn, and no pending entry is left for it. *)
Theorem failing_server_is_skipped (env : Env) (st : Loop) (cfg : McpServerConfig)
    (t : StdioClientTransportOptions) (e : Error) :
  clients (mcp st.2) !! sc_id cfg = None ->
  connectingPromises (mcp st.2) !! sc_id cfg = None ->
  let client := {| client_name := sc_name cfg +:+ "-client"; client_version := "1.0.0";
                   transport := t; handle := length (attempts (mcp st.2)) |} in
  select_transport cfg = inl e
  \/ (select_transport cfg = inr t /\ sdk_connect (sdk env) client = Some e)
  \/ (select_transport cfg = inr t /\ sdk_connect (sdk env) client = None
      /\ (sdk_listTools (sdk env) client = inl e
          \/ exists text, text <> ""
                          /\ sdk_listTools (sdk env) client = inr (VStr text))) ->
  (register_server env st cfg).1 = st.1
  /\ activeToolsMap (register_server env st cfg).2 = activeToolsMap st.2
  /\ uuids (register_server env st cfg).2 = uuids st.2
  /\ last (effects (mcp (register_server env st cfg).2)) = Some (failed_to_register cfg)
  /\ connectingPromises (mcp (register_server env st cfg).2) !! sc_id cfg = None.
Proof.
  intros Hc Hp client Hfail.
  pose proof (getClient_fresh (sdk env) cfg (mcp st.2) Hc Hp) as Hget. cbn zeta in Hget.
  assert (exists e' m,
            (getClient (sdk env) cfg (mcp st.2) = (inl e', m)
             \/ exists c m0, getClient (sdk env) cfg (mcp st.2) = (inr c, m0)
                             /\ listTools (sdk env) c (sc_id cfg) m0 = (inl e', m))
            /\ connectingPromises m !! sc_id cfg = None) as (e' & m & Hskip & Hpending).
  { destruct Hfail as [Ht|[[Ht Hconn]|(Ht & Hconn & Hlist)]]; rewrite Ht in Hget.
    - eexists _, _. split; [left; exact Hget|]. done.
    - fold client in Hget. rewrite Hconn in Hget.
      eexists _, _. split; [left; exact Hget|]. done.
    - fold client in Hget. rewrite Hconn in Hget.
      destruct (listTools_rejects (sdk env) client (sc_id cfg)
                  (getClient (sdk env) cfg (mcp st.2)).2 e Hlist) as [e' Hl].
      exists e'. eexists. split.
      + right. exists client. eexists. split; [exact Hget|].
        rewrite Hget in Hl. exact Hl.
      + done. }
  destruct (register_server_skips env st cfg e' m Hskip) as (Hl & Ha & Hu & Hm).
  rewrite Hl, Ha, Hu, Hm. repeat split; try done.
  cbn. by rewrite last_snoc.
Qed.

Lemma failing_server_is_skipped_witness :
  (register_server env_shipped ([memory_tool], toolRegistrationService) no_command).1
  = [memory_tool]
  /\ last (effects (mcp (register_server env_shipped ([memory_tool], toolRegistrationService)
                           no_command).2))
     = Some (failed_to_register no_command).
Proof.
  destruct (failing_server_is_skipped env_shipped ([memory_tool], toolRegistrationService)
              no_command
              {| command := ""; args := []; env := None |}
              (Thrown msg_stdio_no_command) eq_refl eq_refl)
    as (H1 & _ & _ & H4 & _).
  - left. reflexivity.
  - split; [exact H1|exact H4].
Defined.

(** An executor of its own is not enough for an entry called [__proto__]:
    the assignment of line 67 goes to the setter of [Object.prototype] and
    adds no key, so the entry is in the catalog and not among the keys. *)
Lemma own_proto_executor_is_not_a_key :
  is_Some (nativeToolsMapConfig env_own_proto !! "__proto__")
  /\ catalog_names (initializeTools env_own_proto toolRegistrationService) = ["__proto__"]
  /\ activeToolsMap (initializeTools env_own_proto toolRegistrationService) !! "__proto__"
     = None
  /\ effects (mcp (initializeTools env_own_proto toolRegistrationService))
     = [GetAvailableTools; UpdateSession ["__proto__"]].
Proof.
  split; [by eexists|]. split; [vm_compute; reflexivity|].
  split; vm_compute; reflexivity.
Qed.

Lemma keys_are_names (env : Env) (r : Registry) :
  isInitialized r = false ->
  activeToolsMap r = ∅ ->
  (forall t, t ∈ local_entries env ->
             is_Some (nativeToolsMapConfig env !! name t) /\ name t <> "__proto__") ->
  callable_keys (initializeTools env r) = list_to_set (catalog_names (initializeTools env r)).
Proof.
  intros Hr Hempty Hexec.
  destruct (initializeTools_publishes env r Hr) as (Htools & Hmap & _).
  destruct (full_pass_adds env r) as (remote & Hl & Hd & _).
  unfold callable_keys, catalog_names. rewrite Htools, Hmap, Hl.
  rewrite Hempty, dom_empty_L in Hd.
  apply set_eq. intros k. rewrite Hd, elem_of_list_to_set, map_app, elem_of_app.
  split.
  - intros [Hk|[[Hk _]|Hk]]; [by apply not_elem_of_empty in Hk|by left|by right].
  - intros [Hk|Hk]; [|by right; right]. right. left. split; [done|].
    apply list_elem_of_fmap in Hk as (t & -> & Ht).
    destruct (Hexec t Ht) as [Hown Hname]. split; [by apply read_property_found|done].
Qed.

(** When every entry of the persisted catalog has an executor of its own in
    the static map and none is called [__proto__] (a name that an assignment
    to the callable map does not store as a key), the keys of the callable
    map after [initializeTools] are exactly the names of the catalog. *)
Theorem callables_match_catalog_without_orphans (env : Env) (r : Registry) :
  isInitialized r = false ->
  activeToolsMap r = ∅ ->
  (forall t, t ∈ local_entries env ->
             is_Some (nativeToolsMapConfig env !! name t) /\ name t <> "__proto__") ->
  callable_keys (initializeTools env r) = list_to_set (catalog_names (initializeTools env r))
  /\ forall k, k ∈ catalog_names (initializeTools env r) ->
               is_Some (activeToolsMap (initializeTools env r) !! k).
Proof.
  intros Hr Hempty Hexec. pose proof (keys_are_names env r Hr Hempty Hexec) as Heq.
  split; [done|]. intros k Hk. apply elem_of_dom. fold (callable_keys (initializeTools env r)).
  rewrite Heq. by apply elem_of_list_to_set.
Qed.

Lemma callables_match_catalog_without_orphans_witness :
  callable_keys (initializeTools env_shipped toolRegistrationService)
  = list_to_set (catalog_names (initializeTools env_shipped toolRegistrationService)).
Proof.
  apply (callables_match_catalog_without_orphans env_shipped toolRegistrationService
           eq_refl eq_refl).
  intros t Ht. cbn in Ht. apply list_elem_of_singleton in Ht as ->.
  split; [by eexists|discriminate].
Defined.

(** When the persisted catalog cannot be read, [initializeTools] logs the
    failure and still completes: the flag is set, the servers have been
    gone through, the catalog holds remote tools only and the keys of the
    callable map are exactly its names. *)
Theorem unreadable_catalog_is_not_fatal (env : Env) (r : Registry) (e : Error) :
  isInitialized r = false ->
  activeToolsMap r = ∅ ->
  getAvailableTools env = inl e ->
  isInitialized (initializeTools env r) = true
  /\ failed_to_load ∈ effects (mcp (initializeTools env r))
  /\ session_tools (initializeTools env r)
     = (fold_left (register_server env) (mcpServerRegistry env)
          ([], with_mcp (emit failed_to_load) (with_mcp (emit GetAvailableTools) r))).1
  /\ Forall (fun k => has_slash k = true) (catalog_names (initializeTools env r))
  /\ callable_keys (initializeTools env r)
     = list_to_set (catalog_names (initializeTools env r)).
Proof.
  intros Hr Hempty Hdb.
  assert (local_entries env = []) as Hlocal by (unfold local_entries; by rewrite Hdb).
  destruct (initializeTools_publishes env r Hr) as (Htools & _ & Hmcp).
  destruct (full_pass_adds env r) as (remote & Hl & _ & Hg & Hslash & _).
  split; [by rewrite initializeTools_unfold|]. split; [|split; [|split]].
  - rewrite Hmcp. eapply grows_elem; [eapply grows_trans; [exact Hg|apply grows_emit]|].
    unfold register_native_tools. rewrite Hdb. cbn.
    rewrite elem_of_app, list_elem_of_singleton. by right.
  - rewrite Htools. unfold full_pass, register_native_tools. by rewrite Hdb.
  - unfold catalog_names. rewrite Htools, Hl, Hlocal. cbn [app].
    apply Forall_forall. intros k Hk. by apply Hslash.
  - apply keys_are_names; [done|done|]. rewrite Hlocal. intros t Ht.
    by apply elem_of_nil in Ht.
Qed.

Lemma unreadable_catalog_is_not_fatal_witness :
  catalog_names (initializeTools env_no_database toolRegistrationService)
  = [sc_id firecrawl +:+ "/firecrawl_scrape"; sc_id firecrawl +:+ "/firecrawl_search"]
  /\ callable_keys (initializeTools env_no_database toolRegistrationService)
     = list_to_set (catalog_names (initializeTools env_no_database toolRegistrationService)).
Proof.
  split; [vm_compute; reflexivity|].
  apply (unreadable_catalog_is_not_fatal env_no_database toolRegistrationService
           (External "SQLITE_CANTOPEN: unable to open database file")); reflexivity.
Defined.

(** Composite keys tell servers apart: when the ids of two servers have no
    [/], a key of one is a key of the other only if the ids are the same and
    the tool names print the same; two servers that list a tool of the same
    name get two keys.  With a [/] in an id, keys of different servers can
    meet. *)
Theorem composite_keys_do_not_collide (cfg1 cfg2 : McpServerConfig) (n1 n2 : value) :
  has_slash (sc_id cfg1) = false ->
  has_slash (sc_id cfg2) = false ->
  (toolKey cfg1 n1 = toolKey cfg2 n2 -> sc_id cfg1 = sc_id cfg2 /\ ToString n1 = ToString n2)
  /\ (sc_id cfg1 <> sc_id cfg2 -> toolKey cfg1 n1 <> toolKey cfg2 n1)
  /\ (sc_id slashed_server <> sc_id plain_server
      /\ toolKey slashed_server (VStr "c") = toolKey plain_server (VStr "b/c")).
Proof.
  intros H1 H2. split; [|split].
  - intros Heq. by apply (key_inj _ _ _ _ H1 H2).
  - intros Hne Heq. by destruct (key_inj _ _ _ _ H1 H2 Heq).
  - split; [discriminate|reflexivity].
Qed.

Lemma composite_keys_do_not_collide_witness :
  toolKey firecrawl (VStr "search") <> toolKey plain_server (VStr "search").
Proof.
  apply (composite_keys_do_not_collide firecrawl plain_server (VStr "search") (VStr "search")
           eq_refl eq_refl).
  discriminate.
Defined.

End Registration.

(** ** Listing and calling *)

Section Calls.
Import McpClient.

Lemma listTools_store (sdk : Sdk) (client : Client) (serverId : string) (s : Service) :
  clients (listTools sdk client serverId s).2 = clients s
  /\ connectingPromises (listTools sdk client serverId s).2 = connectingPromises s
  /\ attempts (listTools sdk client serverId s).2 = attempts s
  /\ connects serverId (listTools sdk client serverId s).2 = connects serverId s.
Proof.
  unfold listTools, connects.
  destruct (bind (sdk_listTools sdk client) _) as [e|[tools [|]]]; cbn;
    rewrite ?List.filter_app, ?length_app; cbn; repeat split; lia.
Qed.

Lemma callTool_store (sdk : Sdk) (client : Client) (toolName : string) (payload : value)
    (serverId : string) (s : Service) :
  clients (callTool sdk client toolName payload serverId s).2 = clients s
  /\ connectingPromises (callTool sdk client toolName payload serverId s).2
     = connectingPromises s
  /\ attempts (callTool sdk client toolName payload serverId s).2 = attempts s
  /\ forall id, connects id (callTool sdk client toolName payload serverId s).2
                = connects id s.
Proof.
  unfold callTool, connects.
  destruct (bind (sdk_callTool sdk client _) _) as [e|content]; cbn;
    repeat split; intros; rewrite ?List.filter_app, ?length_app; cbn; lia.
Qed.

(** Neither [listTools] nor [callTool] touches the connection store, whatever
    the SDK answers: after a call that failed the client of the server is
    still the stored one, and the next [getClient] returns it without
    connecting again. *)
Theorem calls_keep_the_connection (sdk : Sdk) (cfg : McpServerConfig) (c : Client)
    (toolName : string) (payload : value) (s : Service) :
  clients s !! sc_id cfg = Some c ->
  let called := (callTool sdk c toolName payload (sc_id cfg) s).2 in
  let listed := (listTools sdk c (sc_id cfg) s).2 in
  clients called = clients s
  /\ connectingPromises called = connectingPromises s
  /\ clients listed = clients s
  /\ connectingPromises listed = connectingPromises s
  /\ getClient sdk cfg called = (inr c, called)
  /\ getClient sdk cfg listed = (inr c, listed)
  /\ connects (sc_id cfg) called = connects (sc_id cfg) s
  /\ connects (sc_id cfg) listed = connects (sc_id cfg) s.
Proof.
  intros Hc called listed. subst called listed.
  destruct (callTool_store sdk c toolName payload (sc_id cfg) s) as (Hcc & Hcp & _ & Hcn).
  destruct (listTools_store sdk c (sc_id cfg) s) as (Hlc & Hlp & _ & Hln).
  repeat split; try done.
  - apply getClient_cached. by rewrite Hcc.
  - apply getClient_cached. by rewrite Hlc.
Qed.

Lemma calls_keep_the_connection_witness :
  let s := (getClient sdk_unreachable firecrawl
              (getClient (sdk_answering VNull VNull) firecrawl mcpClientService).2).2 in
  (callTool sdk_unreachable sample_client "firecrawl_scrape" (VObj []) (sc_id firecrawl) s).1
  = inl (External "Not connected")
  /\ getClient sdk_unreachable firecrawl
       (callTool sdk_unreachable sample_client "firecrawl_scrape" (VObj [])
          (sc_id firecrawl) s).2
     = (inr sample_client,
        (callTool sdk_unreachable sample_client "firecrawl_scrape" (VObj [])
           (sc_id firecrawl) s).2).
Proof.
  intros s. split; [reflexivity|].
  exact (proj1 (proj2 (proj2 (proj2 (proj2
           (calls_keep_the_connection sdk_unreachable firecrawl sample_client
              "firecrawl_scrape" (VObj []) s eq_refl)))))).
Defined.

Lemma single_flight_on_success_witness :
  Forall (fun cfg' =>
            (getClient_enter cfg' (getClient_enter firecrawl mcpClientService).2).1
            = Joined 0)
         [firecrawl; firecrawl_disabled].
Proof.
  refine (proj1 (proj2 (single_flight_on_success firecrawl [firecrawl; firecrawl_disabled]
                          mcpClientService _ eq_refl eq_refl eq_refl _))).
  by repeat constructor.
Defined.

Lemma listTools_normalizes_witness :
  listTools (sdk_answering (VObj [("tools", VArr [scrape_tool; search_tool])]) VNull)
    sample_client (sc_id firecrawl) mcpClientService
  = listTools (sdk_answering (VArr [scrape_tool; search_tool]) VNull)
      sample_client (sc_id firecrawl) mcpClientService.
Proof.
  rewrite (listTools_normalizes
             (sdk_answering (VObj [("tools", VArr [scrape_tool; search_tool])]) VNull)
             sample_client (sc_id firecrawl) mcpClientService [scrape_tool; search_tool]).
  - reflexivity.
  - repeat constructor.
  - right. eexists. split; reflexivity.
Defined.

Lemma listTools_unexpected_witness :
  listTools (sdk_answering (VObj [("tools", VStr "none")]) VNull)
    sample_client (sc_id firecrawl) mcpClientService
  = (inr [], emit (unexpected_listTools (sc_id firecrawl))
               (emit (ListTools (sc_id firecrawl)) mcpClientService)).
Proof.
  apply (listTools_unexpected (sdk_answering (VObj [("tools", VStr "none")]) VNull)
           sample_client (sc_id firecrawl) mcpClientService (VObj [("tools", VStr "none")])
           eq_refl).
  right. eexists. split; reflexivity.
Defined.

End Calls.

(** ** The executor of a remote tool *)

Section Execute.
Import McpClient ToolRegistry.

Lemma assoc_without_routing_field (k : string) (ps : list (string * value)) :
  assoc k (filter (fun kv => kv.1 <> "conversation_uuid") ps)
  = if decide (k = "conversation_uuid") then None else assoc k ps.
Proof.
  induction ps as [|[k' v] ps IH]; [by destruct (decide _)|].
  rewrite filter_cons. cbn [fst assoc].
  destruct (decide (k' <> "conversation_uuid")) as [Hk'|Hk'].
  - cbn [assoc]. destruct (String.eqb_spec k k') as [->|Hne].
    + by rewrite decide_False.
    + exact IH.
  - apply dec_stable in Hk'. subst k'. rewrite IH.
    destruct (decide (k = "conversation_uuid")) as [->|Hne]; [done|].
    by apply String.eqb_neq in Hne as ->.
Qed.

Lemma filter_without_routing_field (ps : list (string * value)) :
  assoc "conversation_uuid" ps = None ->
  filter (fun kv => kv.1 <> "conversation_uuid") ps = ps.
Proof.
  induction ps as [|[k' v] ps IH]; [done|]. cbn [assoc].
  destruct (String.eqb_spec "conversation_uuid" k') as [->|Hne]; [done|].
  intros Hrest. rewrite filter_cons, decide_True by (cbn; congruence).
  by rewrite IH.
Qed.

(** The executor of a remote tool sends the server the payload without its
    [conversation_uuid]: the arguments of the request have no such field,
    every other field is forwarded with its value, and a payload that has no
    such field is forwarded as it is. *)
Theorem execute_forwards_payload_without_routing_field (env : Env) (cfg : McpServerConfig)
    (action : string) (ps : list (string * value)) (m m' : Service) (c : Client) :
  getClient (sdk env) cfg m = (inr c, m') ->
  exists arguments,
    execute env cfg action (VObj ps) m
    = callTool (sdk env) c action (VObj arguments) (sc_id cfg) m'
    /\ CallTool (sc_id cfg) (VObj [("name", VStr action); ("arguments", VObj arguments)])
       ∈ effects (execute env cfg action (VObj ps) m).2
    /\ assoc "conversation_uuid" arguments = None
    /\ (forall k, k <> "conversation_uuid" -> assoc k arguments = assoc k ps)
    /\ (assoc "conversation_uuid" ps = None -> arguments = ps).
Proof.
  intros Hget. exists (filter (fun kv => kv.1 <> "conversation_uuid") ps).
  assert (execute env cfg action (VObj ps) m
          = callTool (sdk env) c action
              (VObj (filter (fun kv => kv.1 <> "conversation_uuid") ps)) (sc_id cfg) m')
    as Hexec by (unfold execute; by rewrite Hget).
  split; [done|]. split; [|split; [|split]].
  - rewrite Hexec. unfold callTool, callTool_request.
    destruct (bind _ _); cbn; rewrite ?elem_of_app, ?list_elem_of_singleton; auto.
  - by rewrite assoc_without_routing_field, decide_True.
  - intros k Hk. by rewrite assoc_without_routing_field, decide_False.
  - apply filter_without_routing_field.
Qed.

Lemma execute_forwards_payload_without_routing_field_witness :
  exists arguments,
    execute env_shipped firecrawl "firecrawl_scrape"
      (VObj [("url", VStr "https://example.com"); ("conversation_uuid", VStr "c-1")])
      mcpClientService
    = callTool (sdk env_shipped) sample_client "firecrawl_scrape" (VObj arguments)
        (sc_id firecrawl) (getClient (sdk env_shipped) firecrawl mcpClientService).2
    /\ assoc "conversation_uuid" arguments = None
    /\ assoc "url" arguments = Some (VStr "https://example.com").
Proof.
  destruct (execute_forwards_payload_without_routing_field env_shipped firecrawl
              "firecrawl_scrape"
              [("url", VStr "https://example.com"); ("conversation_uuid", VStr "c-1")]
              mcpClientService (getClient (sdk env_shipped) firecrawl mcpClientService).2
              sample_client eq_refl) as (arguments & Hexec & _ & Hnone & Hkeep & _).
  exists arguments. split; [exact Hexec|]. split; [exact Hnone|].
  by rewrite Hkeep.
Defined.

(** The executor connects on first use and only then: on a store without a
    client for its server, the first call connects once, whatever becomes of
    the tool call itself, and a second call goes through the stored client
    without connecting again. *)
Theorem execute_connects_once (env : Env) (cfg : McpServerConfig)
    (action1 action2 : string) (payload1 payload2 : value) (m : Service)
    (t : StdioClientTransportOptions) :
  clients m !! sc_id cfg = None ->
  connectingPromises m !! sc_id cfg = None ->
  select_transport cfg = inr t ->
  let fresh := {| client_name := sc_name cfg +:+ "-client"; client_version := "1.0.0";
                  transport := t; handle := length (attempts m) |} in
  sdk_connect (sdk env) fresh = None ->
  let first := execute env cfg action1 payload1 m in
  let second := execute env cfg action2 payload2 first.2 in
  connects (sc_id cfg) first.2 = S (connects (sc_id cfg) m)
  /\ clients first.2 !! sc_id cfg = Some fresh
  /\ connects (sc_id cfg) second.2 = S (connects (sc_id cfg) m)
  /\ clients second.2 !! sc_id cfg = Some fresh.
Proof.
  intros Hc Hp Ht fresh Hok first second.
  assert (forall action payload s c,
            clients s !! sc_id cfg = Some c ->
            connects (sc_id cfg) (execute env cfg action payload s).2
            = connects (sc_id cfg) s
            /\ clients (execute env cfg action payload s).2 = clients s) as Hcached.
  { intros action payload s c Hs. unfold execute.
    rewrite (getClient_cached (sdk env) cfg s c Hs).
    destruct (mcpToolPayload payload) as [e|stripped]; [done|].
    destruct (callTool_store (sdk env) c action stripped (sc_id cfg) s) as (-> & _ & _ & ->).
    done. }
  assert (connects (sc_id cfg) first.2 = S (connects (sc_id cfg) m)
          /\ clients first.2 !! sc_id cfg = Some fresh) as [Hn1 Hc1].
  { subst first. unfold execute.
    rewrite (getClient_fresh (sdk env) cfg m Hc Hp), Ht. cbn zeta. fold fresh. rewrite Hok.
    set (m1 := {| clients := <[sc_id cfg:=fresh]> (clients m) |}).
    assert (connects (sc_id cfg) m1 = S (connects (sc_id cfg) m)) as Hm1.
    { unfold connects, m1. cbn [effects].
      rewrite List.filter_app, length_app. cbn. rewrite String.eqb_refl. cbn. lia. }
    assert (clients m1 !! sc_id cfg = Some fresh) as Hf by apply lookup_insert_eq.
    destruct (mcpToolPayload payload1) as [e|stripped]; [done|].
    destruct (callTool_store (sdk env) fresh action1 stripped (sc_id cfg) m1)
      as (-> & _ & _ & ->).
    done. }
  split; [done|]. split; [done|].
  destruct (Hcached action2 payload2 first.2 fresh Hc1) as [Hn2 Hc2].
  subst second. by rewrite Hn2, Hc2.
Qed.

Lemma execute_connects_once_witness :
  connects (sc_id firecrawl)
    (execute env_shipped firecrawl "firecrawl_search" (VObj [("query", VStr "rocq")])
       (execute env_shipped firecrawl "firecrawl_scrape" VNull mcpClientService).2).2
  = 1%nat.
Proof.
  exact (proj1 (proj2 (proj2
           (execute_connects_once env_shipped firecrawl "firecrawl_scrape" "firecrawl_search"
              VNull (VObj [("query", VStr "rocq")]) mcpClientService _
              eq_refl eq_refl eq_refl eq_refl)))).
Defined.

(** When the executor cannot get a client, or is given [null] or [undefined]
    as payload, nothing is sent to the server: a configuration that cannot
    be used (logged as the failure to connect, after the warning that http
    is not implemented when that is the reason) and a connect that fails
    reach the caller as they are, and a missing payload fails with a
    TypeError after the connection was made and stored. *)
Theorem execute_failures_send_nothing (env : Env) (cfg : McpServerConfig) (action : string)
    (payload : value) (m : Service) (t : StdioClientTransportOptions) (e : Error) :
  clients m !! sc_id cfg = None ->
  connectingPromises m !! sc_id cfg = None ->
  let fresh := {| client_name := sc_name cfg +:+ "-client"; client_version := "1.0.0";
                  transport := t; handle := length (attempts m) |} in
  let out := execute env cfg action payload m in
  (select_transport cfg = inl e ->
   out.1 = inl e
   /\ effects out.2 = effects m ++ transport_warnings cfg ++ [failed_to_connect cfg])
  /\ (select_transport cfg = inr t -> sdk_connect (sdk env) fresh = Some e ->
      out.1 = inl e
      /\ effects out.2 = effects m ++ [Connect (sc_id cfg); failed_to_connect cfg]
      /\ clients out.2 !! sc_id cfg = None)
  /\ (select_transport cfg = inr t -> sdk_connect (sdk env) fresh = None ->
      nullish payload = true ->
      (exists text, out.1 = inl (TypeError text))
      /\ effects out.2 = effects m ++ [Connect (sc_id cfg)]
      /\ clients out.2 !! sc_id cfg = Some fresh).
Proof.
  intros Hc Hp fresh out. subst out. unfold execute.
  rewrite (getClient_fresh (sdk env) cfg m Hc Hp).
  split; [|split].
  - intros Ht. by rewrite Ht.
  - intros Ht He. rewrite Ht. cbn zeta. fold fresh. rewrite He. cbn.
    by rewrite <- app_assoc.
  - intros Ht Hok Hn. rewrite Ht. cbn zeta. fold fresh. rewrite Hok.
    destruct payload; try discriminate; cbn;
      (split; [eauto|split; [done|apply lookup_insert_eq]]).
Qed.

Lemma execute_failures_send_nothing_witness :
  (execute env_shipped no_command "run" (VObj []) mcpClientService).1
  = inl (Thrown msg_stdio_no_command)
  /\ effects (execute env_shipped no_command "run" (VObj []) mcpClientService).2
     = [failed_to_connect no_command].
Proof.
  exact (proj1 (execute_failures_send_nothing env_shipped no_command "run" (VObj [])
                  mcpClientService
                  {| command := ""; args := []; env := None |}
                  (Thrown msg_stdio_no_command) eq_refl eq_refl)
           eq_refl).
Defined.

End Execute.

(** ** Completing an action *)

Section Completion.
Import ActionService.

Lemma Z_to_string_nonempty (n : Z) : Z_to_string n <> "".
Proof.
  unfold Z_to_string, NilZero.string_of_int.
  destruct (Z.to_int n) as [d|d]; [|discriminate].
  unfold NilZero.string_of_uint. destruct d; discriminate.
Qed.

Lemma serialize_nonempty (v : value) : serialize v <> "".
Proof.
  destruct v as [| |[|]|n|s|l|ps]; try discriminate.
  apply Z_to_string_nonempty.
Qed.

Lemma JSON_stringify_nonempty (v : value) : JSON_stringify v <> Some "".
Proof.
  intros H. assert (Some (serialize v) = Some "") as [= Hs].
  { destruct v; [discriminate|exact H..]. }
  by apply serialize_nonempty in Hs.
Qed.

Lemma JSON_stringify_undefined (v : value) : JSON_stringify v = None <-> v = VUndefined.
Proof. by destruct v. Qed.







(** Completing an action twice with the same result adds a second document
    and a second link: nothing in the service recognises a completion it has
    already recorded.  The second completion writes the row again with the
    time of its own call; the rest of the row is as the first completion
    left it. *)
Theorem repeated_completion_adds_documents (db1 db2 : Db) (id : string) (raw : value)
    (st : Store) (first : Action) (rest : list Action) (t : string) :
  no_faults db1 ->
  no_faults db2 ->
  List.filter (matches id) (actions st) = first :: rest ->
  extracted_text_content raw = Some t ->
  t <> "" ->
  exists a1 st1 a2 st2,
    updateActionWithResult db1 id raw st = (inr a1, st1)
    /\ updateActionWithResult db2 id raw st1 = (inr a2, st2)
    /\ action a1 = complete db1 (Some t) first
    /\ action a2 = complete db2 (Some t) first
    /\ updated_at (action a1) = Some (now db1)
    /\ updated_at (action a2) = Some (now db2)
    /\ documents st2
       = documents st ++ [document_for db1 st first t; document_for db2 st1 first t]
    /\ length (actionDocuments st2) = (2 + length (actionDocuments st))%nat
    /\ length (linked_documents a2) = S (length (linked_documents a1)).
Proof.
  intros Hnf1 Hnf2 Hfilter Ht Hne.
  assert (truthy (VStr t) = true) as Htruthy.
  { cbn. by apply String.eqb_neq in Hne as ->. }
  destruct (updateActionWithResult_returns db1 id raw st first rest Hnf1 Hfilter)
    as (a1 & st1 & H1).
  destruct (updateActionWithResult_commit db1 id raw st st1 a1 H1)
    as (f1 & r1 & Hf1 & Ha1 & Hact1 & Hdocs1).
  rewrite Ht, Htruthy in Hdocs1. destruct Hdocs1 as (Hd1 & Hl1 & Hlinks1).
  rewrite Hfilter in Hf1. injection Hf1 as <- <-.
  assert (List.filter (matches id) (actions st1)
          = complete db1 (Some t) first :: map (complete db1 (Some t)) rest) as Hfilter1.
  { rewrite Hact1. unfold updated. by rewrite filter_matches_updated, Hfilter, Ht. }
  destruct (updateActionWithResult_returns db2 id raw st1 _ _ Hnf2 Hfilter1)
    as (a2 & st2 & H2).
  destruct (updateActionWithResult_commit db2 id raw st1 st2 a2 H2)
    as (f2 & r2 & Hf2 & Ha2 & Hact2 & Hdocs2).
  rewrite Ht, Htruthy in Hdocs2. destruct Hdocs2 as (Hd2 & Hl2 & Hlinks2).
  rewrite Hfilter1 in Hf2. injection Hf2 as <- <-.
  rewrite Ht in Ha1, Ha2.
  assert (action a2 = complete db2 (Some t) first) as Ha2' by (by rewrite Ha2).
  assert (uuid first = id) as Hid.
  { assert (first ∈ List.filter (matches id) (actions st)) as Hin
      by (rewrite Hfilter; apply elem_of_cons; auto).
    apply list_elem_of_In, List.filter_In in Hin as [_ Hm].
    by apply String.eqb_eq in Hm. }
  exists a1, st1, a2, st2. split; [done|]. split; [done|]. split; [done|].
  split; [done|]. split; [by rewrite Ha1|]. split; [by rewrite Ha2'|].
  split; [|split].
  - rewrite Hd2, Hd1, Ha1, Ha2', <- app_assoc. reflexivity.
  - rewrite Hl2, Hl1, !length_app. cbn. lia.
  - rewrite Hlinks2, Hlinks1. unfold links_of. rewrite !length_map.
    rewrite Hl2, List.filter_app, length_app, Ha1, Ha2'. cbn [uuid complete].
    cbn. rewrite Hid, String.eqb_refl. cbn. lia.
Qed.

Lemma repeated_completion_adds_documents_witness :
  exists a1 st1 a2 st2,
    updateActionWithResult healthy "a-1" (VStr "done") one_action = (inr a1, st1)
    /\ updateActionWithResult later "a-1" (VStr "done") st1 = (inr a2, st2)
    /\ updated_at (action a1) = Some (now healthy)
    /\ updated_at (action a2) = Some (now later)
    /\ length (actionDocuments st2) = 2%nat.
Proof.
  destruct (repeated_completion_adds_documents healthy later "a-1" (VStr "done") one_action
              pending_action [] "done")
    as (a1 & st1 & a2 & st2 & H1 & H2 & _ & _ & Hat1 & Hat2 & _ & Hlen & _).
  - by repeat split.
  - by repeat split.
  - reflexivity.
  - reflexivity.
  - discriminate.
  - exists a1, st1, a2, st2. by repeat split.
Defined.

End Completion.

(** ** The earlier registration service *)

Section EarlierService.
Import McpClient ToolRegistry.

Lemma existsb_name (toolName : string) (loadedTools : list Tool) :
  existsb (fun t => String.eqb (name t) toolName) loadedTools = true
  <-> toolName ∈ map name loadedTools.
Proof.
  rewrite existsb_exists, list_elem_of_fmap. split.
  - intros (t & Hin & Heq). apply String.eqb_eq in Heq. exists t.
    split; [done|by apply list_elem_of_In].
  - intros (t & -> & Hin). exists t. split; [by apply list_elem_of_In|apply String.eqb_refl].
Qed.

Lemma static_register_native_turn (env : Env) (st : Loop) (entry : string * ToolService) :
  (exists new,
     (StaticCatalog.register_native env st entry).1 = st.1 ++ new
     /\ Forall (fun t => name t = entry.1 /\ entry.1 ∉ map name st.1) new)
  /\ entry.1 ∈ map name (StaticCatalog.register_native env st entry).1
  /\ (NoDup (map name st.1) ->
      NoDup (map name (StaticCatalog.register_native env st entry).1))
  /\ activeToolsMap (StaticCatalog.register_native env st entry).2 = activeToolsMap st.2
  /\ mcp (StaticCatalog.register_native env st entry).2 = mcp st.2.
Proof.
  destruct st as [loaded r]. unfold StaticCatalog.register_native.
  destruct (existsb _ loaded) eqn:Hfound; cbn [fst snd].
  - apply existsb_name in Hfound. split; [|done].
    exists []. by rewrite app_nil_r.
  - assert (entry.1 ∉ map name loaded) as Hnew.
    { intros Hin. apply existsb_name in Hin. congruence. }
    split; [|split; [|split]].
    + eexists. split; [done|]. by repeat constructor.
    + rewrite map_app, elem_of_app. right. cbn. apply list_elem_of_singleton. done.
    + intros Hnd. rewrite map_app. apply NoDup_app. split; [done|]. split.
      * intros k Hk Hk'. cbn in Hk'. apply list_elem_of_singleton in Hk' as ->. done.
      * cbn. apply NoDup_singleton.
    + done.
Qed.

Lemma static_native_loop (env : Env) (entries : list (string * ToolService)) (st : Loop) :
  (exists new,
     (fold_left (StaticCatalog.register_native env) entries st).1 = st.1 ++ new
     /\ Forall (fun t => name t ∈ map fst entries /\ name t ∉ map name st.1) new)
  /\ (forall e, e ∈ entries ->
        e.1 ∈ map name (fold_left (StaticCatalog.register_native env) entries st).1)
  /\ (NoDup (map name st.1) ->
      NoDup (map name (fold_left (StaticCatalog.register_native env) entries st).1))
  /\ activeToolsMap (fold_left (StaticCatalog.register_native env) entries st).2
     = activeToolsMap st.2
  /\ mcp (fold_left (StaticCatalog.register_native env) entries st).2 = mcp st.2.
Proof.
  revert st. induction entries as [|entry entries IH]; intros st.
  { cbn. split; [exists []; by rewrite app_nil_r|]. split; [|done].
    intros e He. by apply elem_of_nil in He. }
  cbn [fold_left].
  destruct (static_register_native_turn env st entry)
    as ((new1 & Hl1 & Hnew1) & Hin1 & Hnd1 & Ha1 & Hm1).
  destruct (IH (StaticCatalog.register_native env st entry))
    as ((new2 & Hl2 & Hnew2) & Hin2 & Hnd2 & Ha2 & Hm2).
  split; [|split; [|split; [|split]]].
  - exists (new1 ++ new2). split; [by rewrite Hl2, Hl1, app_assoc|].
    apply Forall_app. split.
    + eapply Forall_impl; [exact Hnew1|]. intros t [Hn Hfresh]. split; [|by rewrite Hn].
      rewrite Hn. cbn. apply elem_of_cons. by left.
    + eapply Forall_impl; [exact Hnew2|]. intros t [Hn Hfresh]. split.
      * cbn. apply elem_of_cons. by right.
      * intros Hin. apply Hfresh. rewrite Hl1, map_app, elem_of_app. by left.
  - intros e He. apply elem_of_cons in He as [->|He]; [|by apply Hin2].
    rewrite Hl2, map_app, elem_of_app. by left.
  - intros Hnd. by apply Hnd2, Hnd1.
  - by rewrite Ha2.
  - by rewrite Hm2.
Qed.

Lemma register_server_with_extends (failed : McpServerConfig -> Event) (env : Env)
    (st : Loop) (cfg : McpServerConfig) :
  exists new,
    (register_server_with failed env st cfg).1 = st.1 ++ new
    /\ Forall (fun t => has_slash (name t) = true) new
    /\ dom (activeToolsMap st.2) ⊆ dom (activeToolsMap (register_server_with failed env st cfg).2).
Proof.
  destruct st as [loaded r]. unfold register_server_with.
  destruct (getClient (sdk env) cfg (mcp r)) as [[e|client] m]; cbn [fst snd].
  { exists []. by rewrite app_nil_r. }
  destruct (listTools (sdk env) client (sc_id cfg) m) as [[e|tools] m']; cbn [fst snd].
  { exists []. by rewrite app_nil_r. }
  destruct (register_mcp_tools_adds env cfg tools (loaded, put_mcp m' r))
    as (k & new & Hl & Hnames & Hdom & _).
  assert (Forall (fun t => has_slash (name t) = true) new) as Hslash.
  { apply Forall_forall. intros t Ht.
    assert (name t ∈ map name new) as Hin by (apply list_elem_of_fmap; eauto).
    rewrite Hnames in Hin. apply list_elem_of_fmap in Hin as (v & -> & _).
    apply has_slash_key. }
  destruct (register_mcp_tools env cfg tools (loaded, put_mcp m' r)) as [[e|] [loaded' r']];
    cbn [fst snd] in *; exists new; (split; [done|split; [done|]]);
    unfold with_mcp; cbn [activeToolsMap]; rewrite Hdom; set_solver.
Qed.

Lemma register_servers_with_extend (failed : McpServerConfig -> Event) (env : Env)
    (cfgs : list McpServerConfig) (st : Loop) :
  exists new,
    (fold_left (register_server_with failed env) cfgs st).1 = st.1 ++ new
    /\ Forall (fun t => has_slash (name t) = true) new
    /\ dom (activeToolsMap st.2)
       ⊆ dom (activeToolsMap (fold_left (register_server_with failed env) cfgs st).2).
Proof.
  revert st. induction cfgs as [|cfg cfgs IH]; intros st.
  { exists []. cbn. by rewrite app_nil_r. }
  cbn [fold_left].
  destruct (register_server_with_extends failed env st cfg) as (new1 & Hl1 & Hs1 & Hd1).
  destruct (IH (register_server_with failed env st cfg)) as (new2 & Hl2 & Hs2 & Hd2).
  exists (new1 ++ new2). split; [by rewrite Hl2, Hl1, app_assoc|].
  split; [by apply Forall_app|set_solver].
Qed.

(** In the earlier service, after [initializeTools] the catalog is the
    tools the session had, then a placeholder for each static name that was
    not among them, then the remote tools: every static name is in the
    catalog, no placeholder repeats a name, and what was callable before
    stays callable. *)
Theorem static_names_are_catalogued (nativeToolsMap : list (string * ToolService))
    (env : Env) (r : Registry) :
  isInitialized r = false ->
  let r' := StaticCatalog.initializeTools nativeToolsMap env r in
  (exists placeholders remote,
     session_tools r' = session_tools r ++ placeholders ++ remote
     /\ Forall (fun t => name t ∈ map fst nativeToolsMap
                         /\ name t ∉ map name (session_tools r)) placeholders
     /\ Forall (fun t => has_slash (name t) = true) remote
     /\ (NoDup (map name (session_tools r)) ->
         NoDup (map name (session_tools r ++ placeholders))))
  /\ (forall toolName, toolName ∈ map fst nativeToolsMap -> toolName ∈ catalog_names r')
  /\ (forall k, k ∈ dom (activeToolsMap r) -> k ∈ callable_keys r').
Proof.
  intros Hr r'. subst r'. unfold StaticCatalog.initializeTools. rewrite Hr.
  destruct (static_native_loop env nativeToolsMap (session_tools r, r))
    as ((placeholders & Hl1 & Hph) & Hin1 & Hnd1 & Ha1 & _).
  destruct (register_servers_with_extend StaticCatalog.failed_to_register env
              (mcpServerRegistry env)
              (fold_left (StaticCatalog.register_native env) nativeToolsMap
                 (session_tools r, r)))
    as (remote & Hl2 & Hslash & Hdom).
  destruct (fold_left (register_server_with _ env) _ _) as [loaded r2].
  cbn [fst snd] in *. unfold catalog_names, callable_keys. cbn.
  split; [|split].
  - exists placeholders, remote. split; [by rewrite Hl2, Hl1, app_assoc|].
    split; [done|]. split; [done|]. intros Hnd. rewrite <- Hl1. by apply Hnd1.
  - intros toolName Hin. apply list_elem_of_fmap in Hin as (e & -> & He).
    rewrite Hl2, map_app, elem_of_app. left. by apply Hin1.
  - intros k Hk. apply Hdom. by rewrite Ha1.
Qed.

Lemma static_names_are_catalogued_witness :
  "final_answer"
  ∈ catalog_names (StaticCatalog.initializeTools toolsMap_entries env_shipped
                     StaticCatalog.toolRegistrationService).
Proof.
  refine (proj1 (proj2 (static_names_are_catalogued toolsMap_entries env_shipped
                          StaticCatalog.toolRegistrationService eq_refl))
            "final_answer" _).
  apply list_elem_of_In. cbn. auto 20.
Defined.

End EarlierService.

(** ** The final answer *)

Section FinalAnswer.

(** [finalAnswerService.execute] never returns a falsy value for a payload
    that is an object: a falsy [answer] (absent, empty, [0], [false]) gives
    way to [content], and a falsy [content] to the fixed closing text. *)
Theorem final_answer_is_never_falsy (action : string) (payload : value) :
  nullish payload = false ->
  exists v,
    finalAnswerService.execute action payload = inr v
    /\ truthy v = true
    /\ (truthy (get_opt payload "answer") = true -> v = get_opt payload "answer")
    /\ (truthy (get_opt payload "answer") = false ->
        truthy (get_opt payload "content") = true -> v = get_opt payload "content")
    /\ (truthy (get_opt payload "answer") = false ->
        truthy (get_opt payload "content") = false ->
        v = VStr finalAnswerService.process_complete).
Proof.
  intros Hn. unfold finalAnswerService.execute.
  assert (forall k, get payload k = inr (get_opt payload k)) as Hget
    by (intros k; by destruct payload).
  rewrite !Hget. cbn [bind].
  destruct (truthy (get_opt payload "answer")) eqn:Ha.
  { eexists. split; [done|]. by repeat split. }
  cbn [bind]. unfold or_else.
  destruct (truthy (get_opt payload "content")) eqn:Hc;
    (eexists; split; [done|]); by repeat split.
Qed.

Lemma final_answer_is_never_falsy_witness :
  exists v,
    finalAnswerService.execute "final_answer"
      (VObj [("answer", VStr ""); ("content", VNum 0)]) = inr v
    /\ truthy v = true.
Proof.
  destruct (final_answer_is_never_falsy "final_answer"
              (VObj [("answer", VStr ""); ("content", VNum 0)]) eq_refl)
    as (v & Hv & Ht & _).
  by exists v.
Defined.

End FinalAnswer.

(** ** Cron routes *)

Section CronRoutes.
Import Hono Cron.

Lemma assoc_app (k : string) (ps qs : list (string * value)) :
  assoc k (ps ++ qs) = match assoc k ps with Some v => Some v | None => assoc k qs end.
Proof.
  induction ps as [|[k0 v0] ps IH]; [done|]. cbn. by destruct (String.eqb k k0).
Qed.

Lemma assoc_set_property (k k' : string) (v : value) (ps : list (string * value)) :
  assoc k (set_property k' v ps) = if String.eqb k k' then Some v else assoc k ps.
Proof.
  unfold set_property. destruct (bool_decide_reflect (is_Some (assoc k' ps))) as [Hin|Hout].
  - destruct (String.eqb_spec k k') as [->|Hne].
    + induction ps as [|[k0 v0] ps IH]; [by destruct Hin|].
      cbn in *. destruct (String.eqb_spec k0 k') as [->|Hne0].
      * cbn. by rewrite String.eqb_refl.
      * cbn. destruct (String.eqb_spec k' k0) as [->|_]; [done|]. by apply IH.
    + induction ps as [|[k0 v0] ps IH]; [done|].
      cbn in *. destruct (String.eqb_spec k0 k') as [->|Hne0].
      * cbn. apply String.eqb_neq in Hne as Hneb. rewrite Hneb.
        destruct (String.eqb_spec k' k') as [_|?]; [|done].
        clear IH Hin. induction ps as [|[k1 v1] ps IH]; [done|].
        cbn. destruct (String.eqb_spec k1 k') as [->|Hne1]; cbn.
        -- by rewrite Hneb.
        -- by rewrite IH.
      * cbn. destruct (String.eqb k k0); [done|].
        destruct (String.eqb_spec k' k0) as [->|_]; [done|]. by apply IH.
  - rewrite assoc_app. cbn.
    destruct (String.eqb_spec k k') as [->|Hne].
    + destruct (assoc k' ps) eqn:Hk; [|done]. exfalso. apply Hout. eauto.
    + by destruct (assoc k ps).
Qed.

Lemma assoc_spread (k : string) (target source : list (string * value)) :
  NoDup (map fst source) ->
  assoc k (spread target source)
  = match assoc k source with Some v => Some v | None => assoc k target end.
Proof.
  unfold spread. revert target. induction source as [|[k0 v0] source IH]; intros target Hnd.
  { done. }
  cbn [fold_left fst snd]. cbn in Hnd. apply NoDup_cons in Hnd as [Hfresh Hnd].
  rewrite (IH _ Hnd), assoc_set_property. cbn [assoc].
  destruct (String.eqb_spec k k0) as [->|Hne]; [|done].
  destruct (assoc k0 source) as [w|] eqn:Hw; [|done].
  exfalso. apply Hfresh. clear -Hw.
  induction source as [|[k1 v1] source IH]; [done|]. cbn in *.
  destruct (String.eqb_spec k0 k1) as [->|Hne]; [apply elem_of_cons; by left|].
  apply elem_of_cons. right. by apply IH.
Qed.

(** [POST /] takes the date of the job when there is one, the cron
    expression otherwise, and asks the service for nothing when both are
    missing or empty: the answer is then 400. *)
Theorem post_takes_due_date_first (svc : cronService) (task_uuid : string)
    (job_data : CreateJobSchema) :
  let out := post svc task_uuid job_data in
  (forall d, due_date job_data = Some d -> d <> "" ->
     exists job, head out.2 = Some (createJob_called job) /\ cj_schedule job = d)
  /\ (forall s, due_date job_data = None \/ due_date job_data = Some "" ->
        schedule job_data = Some s -> s <> "" ->
        exists job, head out.2 = Some (createJob_called job) /\ cj_schedule job = s)
  /\ (due_date job_data = None \/ due_date job_data = Some "" ->
      schedule job_data = None \/ schedule job_data = Some "" ->
      out = (failure "Either schedule or due_date must be provided" 400, [])).
Proof.
  intros out. subst out. unfold post, or_text. split; [|split].
  - intros d -> Hd. cbn. apply String.eqb_neq in Hd as Hdb. rewrite Hdb. cbn. rewrite Hdb. cbn.
    destruct (createJob svc _); eauto.
  - intros s Hdue -> Hs. apply String.eqb_neq in Hs as Hsb.
    destruct Hdue as [->| ->]; cbn; rewrite Hsb; cbn; destruct (createJob svc _); eauto.
  - intros [->| ->] [->| ->]; done.
Qed.

Lemma post_takes_due_date_first_witness :
  exists job,
    head (post cron_echo "task-1" dated_job).2 = Some (createJob_called job)
    /\ cj_schedule job = "2025-05-01T09:00:00Z".
Proof.
  refine (proj1 (post_takes_due_date_first cron_echo "task-1" dated_job)
            "2025-05-01T09:00:00Z" eq_refl _).
  discriminate.
Defined.

(** The metadata [POST /] hands to the service holds every field of the
    metadata of the request, and a [description] that is the one of the
    metadata when it has one, the description of the job otherwise. *)
Theorem post_metadata_overrides_description (svc : cronService) (task_uuid : string)
    (job_data : CreateJobSchema) (job : CreateJob) :
  NoDup (map fst (default [] (metadata job_data))) ->
  createJob_called job ∈ (post svc task_uuid job_data).2 ->
  assoc "description" (cj_metadata job)
  = Some (default (VStr (description job_data))
            (assoc "description" (default [] (metadata job_data))))
  /\ (forall k, k <> "description" ->
        assoc k (cj_metadata job) = assoc k (default [] (metadata job_data)))
  /\ cj_task_uuid job = task_uuid
  /\ cj_name job = name job_data
  /\ cj_type job = type job_data.
Proof.
  intros Hnd Hcalled.
  assert (cj_metadata job
          = spread [("description", VStr (description job_data))]
                   (default [] (metadata job_data))
          /\ cj_task_uuid job = task_uuid
          /\ cj_name job = name job_data
          /\ cj_type job = type job_data) as (Hm & Hu & Hn & Ht).
  { revert Hcalled. unfold post.
    destruct (or_text _ _) as [s|]; [|by intros ?%elem_of_nil].
    destruct (truthy (VStr s)); [|by intros ?%elem_of_nil].
    destruct (createJob svc _); cbn [snd].
    - rewrite !elem_of_cons. intros [Hin|[Hin|Hin%elem_of_nil]]; [|discriminate|done].
      by injection Hin as ->.
    - intros Hin%list_elem_of_singleton. by injection Hin as ->. }
  split; [|split; [|done]].
  - rewrite Hm, (assoc_spread _ _ _ Hnd). cbn [assoc].
    destruct (assoc "description" _); [done|]. by rewrite String.eqb_refl.
  - intros k Hk. rewrite Hm, (assoc_spread _ _ _ Hnd). cbn [assoc].
    destruct (assoc k _); [done|]. by apply String.eqb_neq in Hk as ->.
Qed.

Lemma post_metadata_overrides_description_witness :
  assoc "description" (cj_metadata posted_job) = Some (VStr "from metadata")
  /\ assoc "room" (cj_metadata posted_job) = assoc "room" (default [] (metadata dated_job)).
Proof.
  destruct (post_metadata_overrides_description cron_echo "task-1" dated_job posted_job)
    as (Hd & Hk & _).
  - cbn. repeat constructor; set_solver.
  - by apply list_elem_of_singleton.
  - split; [exact Hd|]. by apply Hk.
Defined.

(** Every response of the three cron handlers tells its outcome: [success]
    is true exactly when the status is 200, every other status (400, 404,
    500) comes with an error text, and 500 is the answer exactly when the
    cron service rejected the request. *)
Theorem cron_responses_tell_the_outcome (svc : cronService) (task_uuid job_uuid : string)
    (job_data : CreateJobSchema) :
  tells_outcome (post svc task_uuid job_data).1
  /\ tells_outcome (get_job svc job_uuid).1
  /\ tells_outcome (delete_job svc job_uuid).1
  /\ (status (post svc task_uuid job_data).1 = 500%nat
      <-> exists job error,
            createJob_called job ∈ (post svc task_uuid job_data).2
            /\ createJob svc job = inl error)
  /\ (status (get_job svc job_uuid).1 = 500%nat <-> exists error, getJob svc job_uuid = inl error)
  /\ (status (get_job svc job_uuid).1 = 404%nat
      <-> exists job, getJob svc job_uuid = inr job /\ truthy job = false)
  /\ (status (delete_job svc job_uuid).1 = 500%nat
      <-> exists error, cancelJob svc job_uuid = Some error).
Proof.
  assert (forall text n, n = 400%nat \/ n = 404%nat \/ n = 500%nat ->
                         tells_outcome (failure text n)) as Hfail.
  { intros text n Hn. unfold tells_outcome, failure, json. cbn.
    split; [by destruct Hn as [->|[->| ->]]|]. split; [eauto|].
    destruct Hn as [->|[->| ->]]; set_solver. }
  assert (forall ps, tells_outcome (json (VObj (("success", VBool true) :: ps)) 200))
    as Hok.
  { intros ps. unfold tells_outcome, json. cbn. split; [done|]. split; [by left|set_solver]. }
  split; [|split; [|split; [|split; [|split; [|split]]]]].
  - unfold post. destruct (or_text _ _) as [s|]; [|apply Hfail; auto].
    destruct (truthy (VStr s)); [|apply Hfail; auto].
    destruct (createJob svc _); cbn [fst]; [apply Hfail; auto|apply Hok].
  - unfold get_job. destruct (getJob svc job_uuid) as [e|job]; [apply Hfail; auto|].
    destruct (truthy job); [apply Hok|apply Hfail; auto].
  - unfold delete_job. destruct (cancelJob svc job_uuid); [apply Hfail; auto|apply Hok].
  - unfold post. destruct (or_text _ _) as [s|].
    2:{ cbn. split; [done|]. by intros (? & ? & ?%elem_of_nil & _). }
    destruct (truthy (VStr s)).
    2:{ cbn. split; [done|]. by intros (? & ? & ?%elem_of_nil & _). }
    destruct (createJob svc _) as [error|created] eqn:Hjob; cbn [fst snd status failure json].
    + split; [intros _|done]. eexists _, error. split; [|exact Hjob].
      apply elem_of_cons. by left.
    + split; [done|]. intros (job & error & Hin%list_elem_of_singleton & Herr).
      injection Hin as ->. congruence.
  - unfold get_job. destruct (getJob svc job_uuid) as [e|job]; cbn.
    + split; eauto.
    + destruct (truthy job); cbn; split; try done; by intros [? ?].
  - unfold get_job. destruct (getJob svc job_uuid) as [e|job]; cbn.
    + split; [done|]. by intros (? & ? & _).
    + destruct (truthy job) eqn:Ht; cbn; split; try done; eauto.
      intros (job' & [= <-] & Hf). congruence.
  - unfold delete_job. destruct (cancelJob svc job_uuid); cbn; split; try done; eauto.
    by intros [? ?].
Qed.

End CronRoutes.

(** ** Naming middleware *)

Section NamingMiddleware.
Import Hono Naming.

Lemma prefix_empty (s : string) : String.prefix "" s = true.
Proof. by destruct s. Qed.

Lemma prefix_trimEnd (p s : string) :
  ends_in_text p = true -> String.prefix p (trimEnd s) = String.prefix p s.
Proof.
  revert p. induction s as [|c s IH]; intros p Hp; [done|].
  destruct p as [|a p]; [done|].
  cbn [trimEnd]. destruct p as [|b p].
  - cbn in Hp. destruct (trimEnd s) as [|c' kept].
    + destruct (is_space c) eqn:Hc; cbn [String.prefix];
        destruct (Ascii.ascii_dec a c) as [->|Hne]; rewrite ?prefix_empty; try done.
      by rewrite Hc in Hp.
    + cbn [String.prefix]. rewrite !prefix_empty. by destruct (Ascii.ascii_dec a c).
  - assert (ends_in_text (String b p) = true) as Hp' by exact Hp.
    specialize (IH _ Hp').
    destruct (trimEnd s) as [|c' kept] eqn:Hs.
    + change (String.prefix (String b p) "") with false in IH.
      destruct (is_space c); cbn [String.prefix];
        destruct (Ascii.ascii_dec a c); try done.
    + cbn [String.prefix] in *. destruct (Ascii.ascii_dec a c); [|done]. exact IH.
Qed.

(** Only the last message decides: when it is an object whose [content] is
    a string, the request is answered with the fixed naming reply exactly
    when that string, white space at its start set aside, starts with
    [Name the following]; the messages before it and what follows the
    phrase play no part, and otherwise the request goes on with its body. *)
Theorem naming_looks_at_the_last_message (ps fs : list (string * value))
    (earlier : list value) (text : string) (next : value -> option Caught) :
  assoc "messages" ps = Some (VArr (earlier ++ [VObj fs])) ->
  assoc "content" fs = Some (VStr text) ->
  namingMiddleware (inr (VObj ps)) next
  = if startsWith (trimStart text) "Name the following" then Responded naming_reply
    else match next (VObj ps) with
         | Some _ => Responded invalid_request_body
         | None => Passed (VObj ps)
         end.
Proof.
  intros Hm Hc. unfold namingMiddleware, namingConversation. cbn [bind get].
  rewrite Hm. cbn -[trim startsWith last]. rewrite last_snoc.
  cbn -[trim startsWith]. rewrite Hc. cbn -[trim startsWith].
  unfold startsWith, trim. by rewrite prefix_trimEnd.
Qed.

Lemma naming_looks_at_the_last_message_witness :
  namingMiddleware (inr naming_request) (fun _ => None) = Responded naming_reply.
Proof.
  exact (naming_looks_at_the_last_message
           [("messages",
             VArr [VObj [("role", VStr "user"); ("content", VStr "Hello")];
                   VObj [("role", VStr "user");
                         ("content", VStr "  Name the following conversation")]])]
           [("role", VStr "user"); ("content", VStr "  Name the following conversation")]
           [VObj [("role", VStr "user"); ("content", VStr "Hello")]]
           "  Name the following conversation" (fun _ => None) eq_refl eq_refl).
Defined.

(** A body that cannot be parsed, a [null] body, and a body whose
    [messages] is neither missing nor a sequence nor a string (a number, a
    boolean, an object) are all answered with 400 [Invalid request body],
    without the request going on; a body without [messages] goes on. *)
Theorem naming_rejects_unreadable_messages (next : value -> option Caught) :
  (forall e, namingMiddleware (inl e) next = Responded invalid_request_body)
  /\ namingMiddleware (inr VNull) next = Responded invalid_request_body
  /\ (forall body messages,
        nullish body = false ->
        get_opt body "messages" = messages ->
        nullish messages = false -> isArray messages = false ->
        typeof messages <> "string" ->
        namingMiddleware (inr body) next = Responded invalid_request_body)
  /\ (forall body,
        nullish body = false ->
        nullish (get_opt body "messages") = true ->
        namingMiddleware (inr body) next
        = match next body with
          | Some _ => Responded invalid_request_body
          | None => Passed body
          end).
Proof.
  split; [done|]. split; [done|]. split.
  - intros body messages Hb <- Hn Ha Ht.
    unfold namingMiddleware, namingConversation.
    destruct body as [| |b|n|s|l|ps]; try done. cbn in *.
    destruct (default VUndefined (assoc "messages" ps)); try done.
  - intros body Hb Hn. unfold namingMiddleware, namingConversation.
    destruct body as [| |b|n|s|l|ps]; try done. cbn in *.
    by destruct (default VUndefined (assoc "messages" ps)).
Qed.

Lemma naming_rejects_unreadable_messages_witness :
  namingMiddleware (inr (VObj [("messages", VObj [("0", VStr "Name the following")])]))
    (fun _ => None)
  = Responded invalid_request_body.
Proof.
  refine (proj1 (proj2 (proj2 (naming_rejects_unreadable_messages (fun _ => None))))
            (VObj [("messages", VObj [("0", VStr "Name the following")])])
            (VObj [("0", VStr "Name the following")]) eq_refl eq_refl eq_refl eq_refl _).
  discriminate.
Defined.

End NamingMiddleware.
